(** * TaggableFS: the metadata model of [TFSManager], embedded in Rocq

    The development follows the two translation units that hold the logic
    of the daemon:

    - [common.cpp]: the semicolon-delimited id encoding and the path helpers;
    - [TFSManager.cpp]: the folder and tag operations over the two SQLite
      tables [tags] and [files].

    Strings are [std::string]s and stay strings here: every id travels through
    the program as the decimal text SQLite printed for it, the empty string
    meaning "no row".  Vectors are lists.  The three TEXT columns that hold
    id lists keep their serialized text. *)

From Stdlib Require Import Bool Arith ZArith Lia List Permutation Sorted.
From Stdlib Require Import Ascii String.
From Stdlib Require Decimal DecimalString DecimalZ DecimalPos OrderedTypeEx.
Import ListNotations.

#[local] Open Scope string_scope.
#[local] Open Scope list_scope.
#[local] Open Scope nat_scope.

(** String concatenation, kept apart from the list append. *)
Infix "+s+" := String.append (right associativity, at level 60).

(* ================================================================== *)
(** * Part I: definitions                                             *)
(* ================================================================== *)

(** ** [std::string] primitives *)

(** [std::string::find_first_of(c)]; [None] is [std::string::npos]. *)
Fixpoint find_first_of (s : string) (c : ascii) : option nat :=
  match s with
  | EmptyString => None
  | String a r =>
      if Ascii.eqb a c then Some 0
      else match find_first_of r c with
           | Some p => Some (S p)
           | None => None
           end
  end.

(** [std::string::find_last_of(c)]; [None] is [std::string::npos]. *)
Fixpoint find_last_of (s : string) (c : ascii) : option nat :=
  match s with
  | EmptyString => None
  | String a r =>
      match find_last_of r c with
      | Some p => Some (S p)
      | None => if Ascii.eqb a c then Some 0 else None
      end
  end.

(** [s.substr(pos)] for [pos <= s.length()]. *)
Definition substr_from (s : string) (pos : nat) : string :=
  substring pos (String.length s - pos) s.

(** [s[i] == c]; reading at [s.length()] yields the terminating NUL. *)
Definition char_at_is (s : string) (i : nat) (c : ascii) : bool :=
  match String.get i s with
  | Some a => Ascii.eqb a c
  | None => Ascii.eqb Ascii.zero c
  end.

Module Common.

(** ** common.cpp *)

(** [serializeStrings]: the loop appends [id + separator] for every
    non-empty [id]. *)
Definition serializeStrings (ids : list string) (separator : ascii) : string :=
  fold_left
    (fun serializedIDs id =>
       if String.eqb id "" then serializedIDs
       else serializedIDs +s+ (id +s+ String separator ""))
    ids "".

(** The [for] loop of [deserializeStrings].  [n] counts the iterations that
    remain ([serializedIDs.length() - end]); [begin] and [end_] are the two
    loop variables. *)
Fixpoint deserializeLoop (serializedIDs : string) (separator : ascii)
    (n begin end_ : nat) (ids : list string) : list string :=
  match n with
  | O => ids
  | S n' =>
      if char_at_is serializedIDs end_ separator then
        deserializeLoop serializedIDs separator n' (end_ + 1) (end_ + 1)
          (ids ++ [substring begin (end_ - begin) serializedIDs])
      else
        deserializeLoop serializedIDs separator n' begin (end_ + 1) ids
  end.

(** [deserializeStrings]: [begin = 0], [end = 1], while
    [end < serializedIDs.length()]. *)
Definition deserializeStrings (serializedIDs : string) (separator : ascii)
  : list string :=
  deserializeLoop serializedIDs separator
    (String.length serializedIDs - 1) 0 1 [].

(** [getFilename]: [path.substr(path.find_last_of('/') + 1)].  When no slash
    is found the position is [npos], and [npos + 1] wraps to [0]. *)
Definition getFilename (path : string) : string :=
  match find_last_of path "/" with
  | Some p => substr_from path (p + 1)
  | None => substr_from path 0
  end.

(** [splitAtFirstOccurance]. *)
Definition splitAtFirstOccurance (source : string) (character : ascii)
  : list string :=
  match find_first_of source character with
  | None => [source]
  | Some position =>
      [substring 0 position source; substr_from source (position + 1)]
  end.

(** The [while] loop of [splitPathIntoParts].  Every iteration that does
    not end the loop drops at least one character of [remaining], so
    [fuel = remaining.length()] iterations are enough. *)
Fixpoint splitPathLoop (fuel : nat) (remaining : string)
    (parts : list string) : list string :=
  match fuel with
  | O => parts
  | S fuel' =>
      if String.eqb remaining "" then parts
      else
        match find_first_of remaining "/" with
        | None =>
            (* position == npos: part is all of [remaining]; the loop
               condition fails on the next test *)
            if String.eqb remaining "" then parts else parts ++ [remaining]
        | Some position =>
            let part := substring 0 position remaining in
            let parts' := if String.eqb part "" then parts
                          else parts ++ [part] in
            splitPathLoop fuel' (substr_from remaining (position + 1)) parts'
        end
  end.

(** [splitPathIntoParts]. *)
Definition splitPathIntoParts (path : string) : list string :=
  if char_at_is path 0 "/" then
    let remaining := substr_from path 1 in
    splitPathLoop (String.length remaining) remaining []
  else [].

(** [popBackAndRemove]: the last element (or [""]) and the shortened
    vector. *)
Definition popBackAndRemove (parts : list string) : string * list string :=
  match rev parts with
  | [] => ("", [])
  | lastElement :: r => (lastElement, rev r)
  end.

(** *** Messages of the POSIX queues *)

(** [TFS_MQ_MESSAGE_SIZE], and the size of the array [Message::content]. *)
Definition TFS_MQ_MESSAGE_SIZE : nat := Z.to_nat 6144.
Definition CONTENT_SIZE : nat := TFS_MQ_MESSAGE_SIZE - 16.

(** [struct Message].  [content] is the [char] array, all [CONTENT_SIZE]
    characters of it. *)
Record Message := mkMessage {
  complete : bool;
  content : string
}.

(** [strncpy(dest, src, n)], the [n] characters it leaves in [dest]: those
    of [src] up to its terminating NUL, then NULs; when [src] has [n]
    characters or more, the first [n] and no NUL. *)
Fixpoint strncpy (src : string) (n : nat) : string :=
  match n with
  | O => ""
  | S n' =>
      match src with
      | EmptyString => String Ascii.zero (strncpy "" n')
      | String a r =>
          if Ascii.eqb a Ascii.zero then String Ascii.zero (strncpy "" n')
          else String a (strncpy r n')
      end
  end.

(** [std::string(chars)] on a [char] array: the characters before the
    first NUL.  An array without a NUL is read past its end ([None]). *)
Fixpoint string_of_chars (chars : string) : option string :=
  match chars with
  | EmptyString => None
  | String a r =>
      if Ascii.eqb a Ascii.zero then Some ""
      else
        match string_of_chars r with
        | Some s => Some (String a s)
        | None => None
        end
  end.

(** [serializeMessage]: the buffer [data] after the [memcpy] of the local
    [Message].  The object is laid out as on the platform of the daemon:
    one byte for [complete], then [content], [sizeof m = 1 + CONTENT_SIZE];
    the bytes of [data] behind it stay. *)
Definition serializeMessage (content_ : string) (data : string)
    (complete_ : bool) : string :=
  let m := mkMessage complete_ (strncpy content_ CONTENT_SIZE) in
  String (if complete m then "001"%char else Ascii.zero) (content m)
  +s+ substr_from data (1 + CONTENT_SIZE).

(** [deserializeMessage]: the [Message] read back from the buffer.  A
    first byte that is neither [0] nor [1] is no value of a [bool]. *)
Definition deserializeMessage (data : string) : option Message :=
  match data with
  | EmptyString => None
  | String b rest =>
      if Ascii.eqb b Ascii.zero then
        Some (mkMessage false (substring 0 CONTENT_SIZE rest))
      else if Ascii.eqb b "001"%char then
        Some (mkMessage true (substring 0 CONTENT_SIZE rest))
      else None
  end.

End Common.

Import Common.

(** ** Integers as text *)

(** [std::isspace] in the C locale. *)
Definition isspace (c : ascii) : bool :=
  let n := nat_of_ascii c in
  (n =? 32) || ((9 <=? n) && (n <=? 13)).

Fixpoint skip_space (s : string) : string :=
  match s with
  | String c r => if isspace c then skip_space r else s
  | EmptyString => s
  end.

(** The longest prefix of decimal digits, as a decimal numeral. *)
Fixpoint digits_prefix (s : string) : Decimal.uint :=
  match s with
  | EmptyString => Decimal.Nil
  | String c r =>
      match c with
      | "0" => Decimal.D0 (digits_prefix r)
      | "1" => Decimal.D1 (digits_prefix r)
      | "2" => Decimal.D2 (digits_prefix r)
      | "3" => Decimal.D3 (digits_prefix r)
      | "4" => Decimal.D4 (digits_prefix r)
      | "5" => Decimal.D5 (digits_prefix r)
      | "6" => Decimal.D6 (digits_prefix r)
      | "7" => Decimal.D7 (digits_prefix r)
      | "8" => Decimal.D8 (digits_prefix r)
      | "9" => Decimal.D9 (digits_prefix r)
      | _ => Decimal.Nil
      end%char
  end.

Definition INT_MIN : Z := (- 2147483648)%Z.
Definition INT_MAX : Z := 2147483647%Z.

(** The optional sign that [std::stoi] accepts before the digits. *)
Definition stoi_sign (s : string) : bool * string :=
  match s with
  | String "-" r => (true, r)
  | String "+" r => (false, r)
  | _ => (false, s)
  end.

(** The digits of [std::stoi]: [None] stands for the two exceptions it
    throws, [std::invalid_argument] when there is no digit and
    [std::out_of_range] when the value does not fit an [int]. *)
Definition stoi_value (negative : bool) (s : string) : option Z :=
  match digits_prefix s with
  | Decimal.Nil => None
  | d =>
      let v := Z.of_uint d in
      let v := if negative then (- v)%Z else v in
      if ((INT_MIN <=? v) && (v <=? INT_MAX))%Z then Some v else None
  end.

(** [std::stoi(str)]: leading white space, an optional sign, then decimal
    digits up to the first other character. *)
Definition stoi (str : string) : option Z :=
  let '(negative, s) := stoi_sign (skip_space str) in
  stoi_value negative s.

(** [sqlite3_column_text] on an INTEGER value: its decimal text. *)
Definition to_text (z : Z) : string :=
  DecimalString.NilZero.string_of_int (Z.to_int z).

(** ** Functions that may throw

    [None] is an uncaught C++ exception (the daemon aborts) or, in the
    functions indexed by [fuel], a recursion deeper than [fuel]. *)

Notation "x <- c1 ;; c2" :=
  (match c1 with
   | Some x => c2
   | None => None
   end)
  (at level 61, c1 at next level, right associativity).

Notation "' pat <- c1 ;; c2" :=
  (match c1 with
   | Some pat => c2
   | None => None
   end)
  (at level 61, pat pattern, c1 at next level, right associativity).

(** ** Containers of the C++ standard library *)

(** [std::set<std::string>], kept as the strictly increasing list that its
    iteration yields. *)
Fixpoint set_insert (x : string) (s : list string) : list string :=
  match s with
  | [] => [x]
  | y :: r =>
      match String.compare x y with
      | Lt => x :: s
      | Eq => s
      | Gt => y :: set_insert x r
      end
  end.

(** [s.find(x) != s.end()]. *)
Definition set_mem (x : string) (s : list string) : bool :=
  existsb (String.eqb x) s.

(** [std::find(v.begin(), v.end(), x) != v.end()]. *)
Definition vec_mem (x : string) (v : list string) : bool :=
  existsb (String.eqb x) v.

(** [v.erase(std::find(v.begin(), v.end(), x))] when [x] is found: the first
    occurrence goes. *)
Fixpoint vec_erase (x : string) (v : list string) : list string :=
  match v with
  | [] => []
  | y :: r => if String.eqb x y then r else y :: vec_erase x r
  end.

(** [std::sort] on strings (insertion into a sorted list). *)
Fixpoint sort_insert (x : string) (l : list string) : list string :=
  match l with
  | [] => [x]
  | y :: r => if String.leb x y then x :: l else y :: sort_insert x r
  end.

Definition sort (l : list string) : list string :=
  fold_right sort_insert [] l.

(** [std::set_intersection] on two sorted ranges: what it writes to the
    output iterator. *)
Fixpoint set_intersection (l1 l2 : list string) {struct l1} : list string :=
  match l1 with
  | [] => []
  | x :: r1 =>
      (fix scan (l2 : list string) : list string :=
         match l2 with
         | [] => []
         | y :: r2 =>
             match String.compare x y with
             | Lt => set_intersection r1 l2
             | Eq => x :: set_intersection r1 r2
             | Gt => scan r2
             end
         end) l2
  end.

Module TFSManager.

(** ** TFSManager.cpp: the metadata store *)

(** [errno] values of Linux, the platform of the daemon. *)
Definition ENOENT : Z := 2%Z.
Definition EEXIST : Z := 17%Z.
Definition ENOTEMPTY : Z := 39%Z.

(** A row of table [tags].  The three TEXT columns may be NULL ([None]):
    CREATE_FOLDER leaves them out. *)
Record TagRow := mkTag {
  tag_id : Z;
  tag_name : string;
  parent_folder : Z;
  parent_tags : option string;
  child_tags : option string;
  files_ids : option string
}.

(** A row of table [files]. *)
Record FileRow := mkFile {
  file_id : Z;
  filename : string;
  hash : string;
  file_parent_folder : Z
}.

(** The database: both tables in rowid order, the order of a table scan. *)
Record DB := mkDB {
  tags : list TagRow;
  files : list FileRow
}.

(** The two rows that [initDB] inserts after creating the tables. *)
Definition initDB : DB :=
  mkDB [ mkTag 0 "__TaggableFS__//" (-1) (Some "") (Some "") (Some "");
         mkTag 1 "/" (-1) (Some "") (Some "") (Some "") ]
       [].

(** The rowid SQLite gives to an inserted row: one more than the largest
    in use, [1] in an empty table. *)
Definition next_rowid (ids : list Z) : Z :=
  match ids with
  | [] => 1%Z
  | i :: r => (fold_left Z.max r i + 1)%Z
  end.

(** [dbExecuteSV]: first column of the first row, [""] without a row.  A
    NULL column makes [std::string] throw. *)
Definition executeSV {R : Type} (col : R -> option string) (rows : list R)
  : option string :=
  match rows with
  | [] => Some ""
  | r :: _ => col r
  end.

(** [dbExecuteMV]: first column of all rows. *)
Fixpoint executeMV {R : Type} (col : R -> option string) (rows : list R)
  : option (list string) :=
  match rows with
  | [] => Some []
  | r :: rest =>
      v <- col r ;;
      vs <- executeMV col rest ;;
      Some (v :: vs)
  end.

(** *** The prepared statements (array [sqlStatements]) *)

Definition GET_FILE_ID (st : DB) (filename_ : string) (parentFolderID : Z) :=
  executeSV (fun r => Some (to_text (file_id r)))
    (filter (fun r => String.eqb (filename r) filename_
                      && Z.eqb (file_parent_folder r) parentFolderID)
            (files st)).

Definition GET_FILE_IDS_IN_FOLDER (st : DB) (parentFolderID : Z) :=
  executeMV (fun r => Some (to_text (file_id r)))
    (filter (fun r => Z.eqb (file_parent_folder r) parentFolderID) (files st)).

Definition GET_FILENAME_FROM_ID (st : DB) (fileID : Z) :=
  executeSV (fun r => Some (filename r))
    (filter (fun r => Z.eqb (file_id r) fileID) (files st)).

Definition GET_FOLDER_ID (st : DB) (folderName : string) (parentFolderID : Z) :=
  executeSV (fun r => Some (to_text (tag_id r)))
    (filter (fun r => String.eqb (tag_name r) folderName
                      && Z.eqb (parent_folder r) parentFolderID)
            (tags st)).

Definition GET_HASH (st : DB) (filename_ : string) (parentFolderID : Z) :=
  executeSV (fun r => Some (hash r))
    (filter (fun r => String.eqb (filename r) filename_
                      && Z.eqb (file_parent_folder r) parentFolderID)
            (files st)).

(** [SELECT COUNT( * ) > 0 FROM files WHERE parent_folder=@folderID]. *)
Definition IS_FOLDER_EMPTY (st : DB) (folderID : Z) : string :=
  if (0 <? List.length
             (filter (fun r => Z.eqb (file_parent_folder r) folderID)
                     (files st)))
  then "1" else "0".

Definition CREATE_FOLDER (st : DB) (newFolderName : string)
    (parentFolderID : Z) : DB :=
  mkDB (tags st ++
          [mkTag (next_rowid (map tag_id (tags st))) newFolderName
                 parentFolderID None None None])
       (files st).

Definition DELETE_FOLDER (st : DB) (folderID : Z) : DB :=
  mkDB (filter (fun r => negb (Z.eqb (tag_id r) folderID)) (tags st))
       (files st).

Definition DELETE_FILE (st : DB) (fileID : Z) : DB :=
  mkDB (tags st)
       (filter (fun r => negb (Z.eqb (file_id r) fileID)) (files st)).

Definition RENAME_PATH_1 (st : DB) (newName : string)
    (newParentFolderID oldFileID : Z) : DB :=
  mkDB (tags st)
       (map (fun r => if Z.eqb (file_id r) oldFileID
                      then mkFile (file_id r) newName (hash r)
                                  newParentFolderID
                      else r)
            (files st)).

Definition RENAME_PATH_2 (st : DB) (newName : string)
    (newParentFolderID oldFolderID : Z) : DB :=
  mkDB (map (fun r => if Z.eqb (tag_id r) oldFolderID
                      then mkTag (tag_id r) newName newParentFolderID
                                 (parent_tags r) (child_tags r) (files_ids r)
                      else r)
            (tags st))
       (files st).

Definition ADD_TEMPORARY_FILE (st : DB) (filename_ tempFilename : string)
    (parentFolderID : Z) : DB :=
  mkDB (tags st)
       (files st ++
          [mkFile (next_rowid (map file_id (files st))) filename_
                  tempFilename parentFolderID]).

(** [WHERE tag_name=@tag AND parent_folder='0']. *)
Definition is_tag (r : TagRow) : bool := Z.eqb (parent_folder r) 0.

Definition GET_TAG_ID (st : DB) (tag : string) :=
  executeSV (fun r => Some (to_text (tag_id r)))
    (filter (fun r => String.eqb (tag_name r) tag && is_tag r) (tags st)).

Definition GET_TAG_NAME_FROM_ID (st : DB) (tagID : Z) :=
  executeSV (fun r => Some (tag_name r))
    (filter (fun r => Z.eqb (tag_id r) tagID) (tags st)).

Definition GET_ALL_TAG_IDS (st : DB) :=
  executeMV (fun r => Some (to_text (tag_id r))) (filter is_tag (tags st)).

Definition GET_PARENT_TAG_IDS (st : DB) (tagID : Z) :=
  executeSV parent_tags (filter (fun r => Z.eqb (tag_id r) tagID) (tags st)).

Definition GET_CHILD_TAG_IDS (st : DB) (tagID : Z) :=
  executeSV child_tags (filter (fun r => Z.eqb (tag_id r) tagID) (tags st)).

Definition GET_FILE_IDS_UNDER_TAG_ID (st : DB) (tagID : Z) :=
  executeSV files_ids (filter (fun r => Z.eqb (tag_id r) tagID) (tags st)).

Definition GET_TAGGED_FILE_PATH (st : DB) (fileID : Z) :=
  executeSV (fun r => Some (hash r))
    (filter (fun r => Z.eqb (file_id r) fileID) (files st)).

Definition UPDATE_PARENT_TAG_IDS (st : DB) (serializedIDs : string)
    (tagID : Z) : DB :=
  mkDB (map (fun r => if Z.eqb (tag_id r) tagID
                      then mkTag (tag_id r) (tag_name r) (parent_folder r)
                                 (Some serializedIDs) (child_tags r)
                                 (files_ids r)
                      else r)
            (tags st))
       (files st).

Definition UPDATE_CHILD_TAG_IDS (st : DB) (serializedIDs : string)
    (tagID : Z) : DB :=
  mkDB (map (fun r => if Z.eqb (tag_id r) tagID
                      then mkTag (tag_id r) (tag_name r) (parent_folder r)
                                 (parent_tags r) (Some serializedIDs)
                                 (files_ids r)
                      else r)
            (tags st))
       (files st).

Definition CREATE_TAG (st : DB) (tag parentTags : string) : DB :=
  mkDB (tags st ++
          [mkTag (next_rowid (map tag_id (tags st))) tag 0
                 (Some parentTags) (Some "") (Some "")])
       (files st).

Definition DELETE_TAG (st : DB) (tagID : Z) : DB :=
  mkDB (filter (fun r => negb (Z.eqb (tag_id r) tagID)) (tags st))
       (files st).

Definition UPDATE_TAG_FILE_IDS (st : DB) (serializedIDs : string)
    (tagID : Z) : DB :=
  mkDB (map (fun r => if Z.eqb (tag_id r) tagID
                      then mkTag (tag_id r) (tag_name r) (parent_folder r)
                                 (parent_tags r) (child_tags r)
                                 (Some serializedIDs)
                      else r)
            (tags st))
       (files st).

(** [dbExecuteMR] on GET_FILE_TAGS: columns [tag_id, tag_name, files_ids] of
    every tag row. *)
Fixpoint GET_FILE_TAGS_rows (rows : list TagRow)
  : option (list (string * string * string)) :=
  match rows with
  | [] => Some []
  | r :: rest =>
      f <- files_ids r ;;
      rs <- GET_FILE_TAGS_rows rest ;;
      Some ((to_text (tag_id r), tag_name r, f) :: rs)
  end.

Definition GET_FILE_TAGS (st : DB) :=
  GET_FILE_TAGS_rows (filter is_tag (tags st)).

Definition RENAME_TAGGED_PATH (st : DB) (newName : string) (oldTagID : Z)
  : DB :=
  mkDB (map (fun r => if Z.eqb (tag_id r) oldTagID
                      then mkTag (tag_id r) newName (parent_folder r)
                                 (parent_tags r) (child_tags r) (files_ids r)
                      else r)
            (tags st))
       (files st).

(** [SELECT COUNT( * ) > 1 FROM files WHERE hash=@hash]. *)
Definition COUNT_HASH_GT_1 (st : DB) (hash_ : string) : string :=
  if (1 <? List.length
             (filter (fun r => String.eqb (hash r) hash_) (files st)))
  then "1" else "0".

(** [SELECT COUNT( * ) FROM files] and
    [SELECT COUNT( * ) FROM tags WHERE parent_folder='0']. *)
Definition QH_STATS_1 (st : DB) : string :=
  to_text (Z.of_nat (List.length (files st))).

Definition QH_STATS_2 (st : DB) : string :=
  to_text (Z.of_nat (List.length (filter is_tag (tags st)))).

Definition UPDATE_HASH (st : DB) (newHash : string) (fileID : Z) : DB :=
  mkDB (tags st)
       (map (fun r => if Z.eqb (file_id r) fileID
                      then mkFile (file_id r) (filename r) newHash
                                  (file_parent_folder r)
                      else r)
            (files st)).

Definition LIST_FOLDER_1 (st : DB) (folderID : Z) :=
  executeMV (fun r => Some (tag_name r))
    (filter (fun r => Z.eqb (parent_folder r) folderID) (tags st)).

Definition LIST_FOLDER_2 (st : DB) (folderID : Z) :=
  executeMV (fun r => Some (filename r))
    (filter (fun r => Z.eqb (file_parent_folder r) folderID) (files st)).

(** *** Folder methods *)

(** Each method binds its parameters ([macro_bind_int] calls [std::stoi]
    and may throw) and then runs the statement. *)

Definition getFileID (st : DB) (filename_ parentFolderID : string)
  : option string :=
  pid <- stoi parentFolderID ;;
  GET_FILE_ID st filename_ pid.

Definition getFileIDsInFolder (st : DB) (parentFolderID : string)
  : option (list string) :=
  pid <- stoi parentFolderID ;;
  GET_FILE_IDS_IN_FOLDER st pid.

Definition getFilenameFromID (st : DB) (fileID : string) : option string :=
  fid <- stoi fileID ;;
  GET_FILENAME_FROM_ID st fid.

(** [getFolderID(folderName, parentFolderID)]. *)
Definition getFolderID2 (st : DB) (folderName parentFolderID : string)
  : option string :=
  pid <- stoi parentFolderID ;;
  GET_FOLDER_ID st folderName pid.

(** [getFolderID(partsOfPath)]: the walk from the root folder ["1"]. *)
Fixpoint getFolderIDLoop (st : DB) (partsOfPath : list string)
    (folderID : string) : option string :=
  match partsOfPath with
  | [] => Some folderID
  | part :: rest =>
      if String.eqb folderID "" then Some ""
      else
        folderID' <- getFolderID2 st part folderID ;;
        getFolderIDLoop st rest folderID'
  end.

Definition getFolderID (st : DB) (partsOfPath : list string)
  : option string :=
  getFolderIDLoop st partsOfPath "1".

Definition getHash (st : DB) (filename_ parentFolderID : string)
  : option string :=
  pid <- stoi parentFolderID ;;
  GET_HASH st filename_ pid.

(** [isFolderEmpty]: [std::stoi] of the count flag is [0]. *)
Definition isFolderEmpty (st : DB) (folderID : string) : option bool :=
  fid <- stoi folderID ;;
  flag <- stoi (IS_FOLDER_EMPTY st fid) ;;
  Some (Z.eqb flag 0).

Definition updateHash (st : DB) (fileID newHash : string) : option DB :=
  fid <- stoi fileID ;;
  Some (UPDATE_HASH st newHash fid).

(** [listFolder]: the names of the sub-folders, then those of the files. *)
Definition listFolder (st : DB) (folderPath : string)
  : option (list string) :=
  let parts := splitPathIntoParts folderPath in
  folderID <- getFolderID st parts ;;
  if negb (String.eqb folderID "") then
    fid <- stoi folderID ;;
    contents <- LIST_FOLDER_1 st fid ;;
    filenames <- LIST_FOLDER_2 st fid ;;
    Some (contents ++ filenames)
  else Some [].

Definition createFolder (st : DB) (folderPath : string) : option (Z * DB) :=
  let parts := splitPathIntoParts folderPath in
  let '(newFolderName, parts) := popBackAndRemove parts in
  parentFolderID <- getFolderID st parts ;;
  if negb (String.eqb parentFolderID "") then
    fileID <- getFileID st newFolderName parentFolderID ;;
    folderID <- getFolderID2 st newFolderName parentFolderID ;;
    if String.eqb fileID "" && String.eqb folderID "" then
      pid <- stoi parentFolderID ;;
      Some (0%Z, CREATE_FOLDER st newFolderName pid)
    else Some (EEXIST, st)
  else Some (ENOENT, st).

Definition deleteFolder (st : DB) (folderPath : string) : option (Z * DB) :=
  let parts := splitPathIntoParts folderPath in
  folderID <- getFolderID st parts ;;
  if negb (String.eqb folderID "") then
    empty <- isFolderEmpty st folderID ;;
    if empty then
      fid <- stoi folderID ;;
      Some (0%Z, DELETE_FOLDER st fid)
    else Some (ENOTEMPTY, st)
  else Some (ENOENT, st).

Definition addTemporaryFile (st : DB) (tempFilePath : string) : option DB :=
  match splitAtFirstOccurance tempFilePath "," with
  | tempFilename :: path :: _ =>
      let parts := splitPathIntoParts path in
      let '(filename_, parts) := popBackAndRemove parts in
      parentFolderID <- getFolderID st parts ;;
      pid <- stoi parentFolderID ;;
      Some (ADD_TEMPORARY_FILE st filename_ tempFilename pid)
  | _ => None (* args[1] read past the end of the vector *)
  end.

(** *** Tag methods: reading *)

Definition getTagNameFromID (st : DB) (tagID : string) : option string :=
  tid <- stoi tagID ;;
  GET_TAG_NAME_FROM_ID st tid.

Definition getAllTagIDs (st : DB) : option (list string) :=
  GET_ALL_TAG_IDS st.

Definition getParentTagIDs (st : DB) (tagID : string)
  : option (list string) :=
  tid <- stoi tagID ;;
  text <- GET_PARENT_TAG_IDS st tid ;;
  Some (deserializeStrings text ";").

Definition getChildTagIDs (st : DB) (tagID : string)
  : option (list string) :=
  tid <- stoi tagID ;;
  text <- GET_CHILD_TAG_IDS st tid ;;
  Some (deserializeStrings text ";").

Definition getFileIDsUnderTagID (st : DB) (tagID : string)
  : option (list string) :=
  if String.eqb tagID "" then Some []
  else
    tid <- stoi tagID ;;
    text <- GET_FILE_IDS_UNDER_TAG_ID st tid ;;
    Some (deserializeStrings text ";").

(** The loop [for (auto fileID : fileIDs) filenames.push_back (...)]. *)
Fixpoint filenamesOfIDs (st : DB) (fileIDs : list string)
  : option (list string) :=
  match fileIDs with
  | [] => Some []
  | fileID :: rest =>
      name <- getFilenameFromID st fileID ;;
      names <- filenamesOfIDs st rest ;;
      Some (name :: names)
  end.

Definition getFilenamesUnderTagID (st : DB) (tagID : string)
  : option (list string) :=
  fileIDs <- getFileIDsUnderTagID st tagID ;;
  match fileIDs with
  | [] => Some fileIDs
  | _ => filenamesOfIDs st fileIDs
  end.

(** [getAncestorTagIDs]: the recursion over [parent_tags], with the set
    passed by reference threaded through.  The ids [""] and ["0"] end the
    recursion and are not inserted. *)
Fixpoint getAncestorTagIDs (fuel : nat) (st : DB) (tagID : string)
    (ancestors : list string) : option (list string) :=
  match fuel with
  | O => None
  | S fuel' =>
      if String.eqb tagID "" || String.eqb tagID "0" then Some ancestors
      else
        let ancestors := set_insert tagID ancestors in
        parentIDs <- getParentTagIDs st tagID ;;
        fold_left
          (fun acc id =>
             ancestors' <- acc ;;
             getAncestorTagIDs fuel' st id ancestors')
          parentIDs (Some ancestors)
  end.

(** The loop of [getTagID] over the leading path components: every one must
    name a member of [ancestorIDs]. *)
Fixpoint allPartsAncestors (lookup : string -> option string)
    (ancestorIDs parts : list string) : option bool :=
  match parts with
  | [] => Some true
  | part :: rest =>
      id <- lookup part ;;
      if set_mem id ancestorIDs then allPartsAncestors lookup ancestorIDs rest
      else Some false
  end.

(** [getTagID]: a tag name, or a tag-view path whose last component names
    the tag and whose other components name ancestors of it. *)
Fixpoint getTagID (fuel : nat) (st : DB) (tagPath : string)
  : option string :=
  match fuel with
  | O => None
  | S fuel' =>
      if String.eqb tagPath "" then Some ""
      else if String.eqb tagPath "/" then Some "0"
      else if char_at_is tagPath 0 "/" then
        let parts := splitPathIntoParts tagPath in
        let '(leaf, parts) := popBackAndRemove parts in
        tagID <- getTagID fuel' st leaf ;;
        ancestorIDs <- getAncestorTagIDs fuel' st tagID [] ;;
        ok <- allPartsAncestors (getTagID fuel' st) ancestorIDs parts ;;
        if ok then Some tagID else Some ""
      else GET_TAG_ID st tagPath
  end.

Section Daemon.

(** The directory of the blobs; [fuel] bounds the recursion of [getTagID]
    and [getAncestorTagIDs]; [unlink] is the system call as the environment
    answers it: its return value and the [errno] it leaves. *)
Variable rootDirectory : string.
Variable fuel : nat.
Variable unlink : string -> Z * Z.

Definition getParentTagIDFromPath (st : DB) (tagPath : string)
  : option string :=
  let parentTag :=
    match find_last_of tagPath "/" with
    | Some p => substring 0 p tagPath
    | None => tagPath (* substr(0, npos) *)
    end in
  if String.eqb parentTag "" then Some "0" else getTagID fuel st parentTag.

(** The loop of [getTaggedFileID]. *)
Fixpoint findTaggedFile (st : DB) (filename_ : string)
    (fileIDs : list string) : option string :=
  match fileIDs with
  | [] => Some ""
  | fileID :: rest =>
      name <- getFilenameFromID st fileID ;;
      if String.eqb filename_ name then Some fileID
      else findTaggedFile st filename_ rest
  end.

Definition getTaggedFileID (st : DB) (parentTagID filename_ : string)
  : option string :=
  if String.eqb parentTagID "" then Some ""
  else
    fileIDs <- getFileIDsUnderTagID st parentTagID ;;
    findTaggedFile st filename_ fileIDs.

(** [getFilePath]: the blob of a file of the folder view.  The file need
    not exist: the hash is then empty. *)
Definition getFilePath (st : DB) (relativePath : string) : option string :=
  let parts := splitPathIntoParts relativePath in
  let '(filename_, parts) := popBackAndRemove parts in
  parentFolderID <- getFolderID st parts ;;
  if negb (String.eqb parentFolderID "") then
    hash_ <- getHash st filename_ parentFolderID ;;
    Some (rootDirectory +s+ "/" +s+ hash_)
  else Some "".

(** The loop of [getTaggedFilePath]. *)
Fixpoint findTaggedFilePath (st : DB) (filename_ : string)
    (fileIDs : list string) : option string :=
  match fileIDs with
  | [] => Some ""
  | fileID :: rest =>
      name <- getFilenameFromID st fileID ;;
      if String.eqb filename_ name then
        fid <- stoi fileID ;;
        hash_ <- GET_TAGGED_FILE_PATH st fid ;;
        Some (rootDirectory +s+ "/" +s+ hash_)
      else findTaggedFilePath st filename_ rest
  end.

(** [getTaggedFilePath]: the blob of a file of the tag view. *)
Definition getTaggedFilePath (st : DB) (relativePath : string)
  : option string :=
  tagID <- getParentTagIDFromPath st relativePath ;;
  let filename_ := getFilename relativePath in
  if negb (String.eqb tagID "") then
    fileIDs <- getFileIDsUnderTagID st tagID ;;
    findTaggedFilePath st filename_ fileIDs
  else Some "".

(** The first loop of [listTagChildren]. *)
Fixpoint tagNamesOfIDs (st : DB) (tagIDs : list string)
  : option (list string) :=
  match tagIDs with
  | [] => Some []
  | tagID :: rest =>
      name <- getTagNameFromID st tagID ;;
      names <- tagNamesOfIDs st rest ;;
      Some (name :: names)
  end.

(** [listTagChildren]: the names of the child tags, then those of the
    files. *)
Definition listTagChildren (st : DB) (tagPath : string)
  : option (list string) :=
  tagID <- getTagID fuel st tagPath ;;
  if negb (String.eqb tagID "") then
    childTagIDs <- getChildTagIDs st tagID ;;
    contents <- tagNamesOfIDs st childTagIDs ;;
    filenames <- getFilenamesUnderTagID st tagID ;;
    Some (contents ++ filenames)
  else Some [].

(** *** Tag methods: writing *)

Definition updateParentTagIDs (st : DB) (tagID : string)
    (parentTagIDs : list string) : option DB :=
  let serializedIDs := serializeStrings parentTagIDs ";" in
  tid <- stoi tagID ;;
  Some (UPDATE_PARENT_TAG_IDS st serializedIDs tid).

Definition updateChildTagIDs (st : DB) (tagID : string)
    (childTagIDs : list string) : option DB :=
  let serializedIDs := serializeStrings childTagIDs ";" in
  tid <- stoi tagID ;;
  Some (UPDATE_CHILD_TAG_IDS st serializedIDs tid).

Definition updateTagFileIDs (st : DB) (tagID : string)
    (fileIDs : list string) : option DB :=
  let serializedIDs := serializeStrings fileIDs ";" in
  tid <- stoi tagID ;;
  Some (UPDATE_TAG_FILE_IDS st serializedIDs tid).

(** The part of [createTag] that follows the choice of [tag] and
    [parentTagID]. *)
Definition createTagUnder (st : DB) (tag parentTagID : string)
  : option (Z * DB) :=
  let parentTags := parentTagID +s+ ";" in
  let st := CREATE_TAG st tag parentTags in
  tagID <- getTagID fuel st tag ;;
  if String.eqb tagID "" then Some (1%Z, st)
  else
    childTagIDs <- getChildTagIDs st parentTagID ;;
    st <- updateChildTagIDs st parentTagID (childTagIDs ++ [tagID]) ;;
    Some (0%Z, st).

Definition createTag (st : DB) (tagPath : string) : option (Z * DB) :=
  existing <- getTagID fuel st tagPath ;;
  if negb (String.eqb existing "") then Some (EEXIST, st)
  else
    match find_first_of tagPath "/" with
    | None => createTagUnder st tagPath "0"
    | Some _ =>
        let parts := splitPathIntoParts tagPath in
        let '(tag, parts) := popBackAndRemove parts in
        match parts with
        | [] => createTagUnder st tag "0"
        | _ =>
            parentTagID <- getTagID fuel st (last parts "") ;;
            if String.eqb parentTagID "" then Some (1%Z, st)
            else createTagUnder st tag parentTagID
        end
    end.

(** The loop of [deleteTag] over the parents.  [erase] is handed the result
    of [std::find] unchecked: erasing [end()] is undefined, hence [None]. *)
Fixpoint deleteTagLoop (st : DB) (tagID : string)
    (parentTagIDs : list string) : option DB :=
  match parentTagIDs with
  | [] => Some st
  | parentTagID :: rest =>
      childTagIDs <- getChildTagIDs st parentTagID ;;
      if vec_mem tagID childTagIDs then
        st <- updateChildTagIDs st parentTagID (vec_erase tagID childTagIDs) ;;
        deleteTagLoop st tagID rest
      else None
  end.

Definition deleteTag (st : DB) (tagPath : string) : option (Z * DB) :=
  tagID <- getTagID fuel st tagPath ;;
  if String.eqb tagID "" then Some (ENOENT, st)
  else
    fileIDs <- getFileIDsUnderTagID st tagID ;;
    childTagIDs <- getChildTagIDs st tagID ;;
    if negb (List.length fileIDs =? 0) || negb (List.length childTagIDs =? 0)
    then Some (ENOTEMPTY, st)
    else
      parentTagIDs <- getParentTagIDs st tagID ;;
      st <- deleteTagLoop st tagID parentTagIDs ;;
      tid <- stoi tagID ;;
      Some (0%Z, DELETE_TAG st tid).

Definition tagSingleFile (st : DB) (fileID tagID : string)
  : option (Z * DB) :=
  filenames <- getFilenamesUnderTagID st tagID ;;
  filename_ <- getFilenameFromID st fileID ;;
  if vec_mem filename_ filenames then Some (EEXIST, st)
  else
    fileIDs <- getFileIDsUnderTagID st tagID ;;
    st <- updateTagFileIDs st tagID (fileIDs ++ [fileID]) ;;
    Some (0%Z, st).

Definition untagSingleFile (st : DB) (fileID tagID : string)
  : option (Z * DB) :=
  fileIDs <- getFileIDsUnderTagID st tagID ;;
  if negb (vec_mem fileID fileIDs) then Some (ENOENT, st)
  else
    st <- updateTagFileIDs st tagID (vec_erase fileID fileIDs) ;;
    Some (0%Z, st).

(** The loops of [tagFiles] and [untagFiles] over the files of a folder:
    [err] is recorded in [returnValue], the loop goes on. *)
Fixpoint forEachFile (f : DB -> string -> string -> option (Z * DB))
    (err : Z) (st : DB) (fileIDs : list string) (tagID : string)
    (returnValue : Z) : option (Z * DB) :=
  match fileIDs with
  | [] => Some (returnValue, st)
  | id :: rest =>
      '(r, st) <- f st id tagID ;;
      forEachFile f err st rest tagID
        (if Z.eqb r err then err else returnValue)
  end.

Definition tagFiles (st : DB) (filePath tag : string) : option (Z * DB) :=
  let parts := splitPathIntoParts filePath in
  let '(name, parts) := popBackAndRemove parts in
  parentFolderID <- getFolderID st parts ;;
  tagID <- getTagID fuel st tag ;;
  created <-
    (if String.eqb tagID "" then
       '(r, st') <- createTag st tag ;;
       if Z.eqb r 1 then Some (true, st', tagID)
       else
         tagID' <- getTagID fuel st' tag ;;
         Some (false, st', tagID')
     else Some (false, st, tagID)) ;;
  let '(invalid, st, tagID) := created in
  if invalid then Some (1%Z, st)
  else if negb (String.eqb parentFolderID "") then
    fileID <- getFileID st name parentFolderID ;;
    if negb (String.eqb fileID "") then tagSingleFile st fileID tagID
    else
      folderID <- getFolderID2 st name parentFolderID ;;
      if negb (String.eqb folderID "") then
        fileIDs <- getFileIDsInFolder st folderID ;;
        forEachFile tagSingleFile EEXIST st fileIDs tagID 0%Z
      else Some (ENOENT, st)
  else Some (ENOENT, st).

Definition untagFiles (st : DB) (filePath tag : string) : option (Z * DB) :=
  let parts := splitPathIntoParts filePath in
  let '(name, parts) := popBackAndRemove parts in
  parentFolderID <- getFolderID st parts ;;
  tagID <- getTagID fuel st tag ;;
  if negb (String.eqb tagID "") && negb (String.eqb parentFolderID "") then
    fileID <- getFileID st name parentFolderID ;;
    if negb (String.eqb fileID "") then untagSingleFile st fileID tagID
    else
      folderID <- getFolderID2 st name parentFolderID ;;
      if negb (String.eqb folderID "") then
        fileIDs <- getFileIDsInFolder st folderID ;;
        forEachFile untagSingleFile ENOENT st fileIDs tagID 0%Z
      else Some (ENOENT, st)
  else Some (ENOENT, st).

Definition nestTag (st : DB) (tagID parentTagID : string)
  : option (Z * DB) :=
  if String.eqb tagID "" || String.eqb parentTagID "" then Some (ENOENT, st)
  else
    childIDs <- getChildTagIDs st parentTagID ;;
    if vec_mem tagID childIDs then Some (EEXIST, st)
    else
      let childIDs := childIDs ++ [tagID] in
      parentIDs <- getParentTagIDs st tagID ;;
      if vec_mem parentTagID parentIDs then Some (EEXIST, st)
      else
        let parentIDs := parentIDs ++ [parentTagID] in
        (* cyclic check *)
        ancestorIDs <- getAncestorTagIDs fuel st parentTagID [] ;;
        if set_mem tagID ancestorIDs then Some (1%Z, st)
        else
          st <- updateChildTagIDs st parentTagID childIDs ;;
          st <- updateParentTagIDs st tagID parentIDs ;;
          Some (0%Z, st).

Definition unnestTag (st : DB) (tagID parentTagID : string)
  : option (Z * DB) :=
  if String.eqb tagID "" || String.eqb parentTagID "" then Some (ENOENT, st)
  else
    childIDs <- getChildTagIDs st parentTagID ;;
    if negb (vec_mem tagID childIDs) then Some (ENOENT, st)
    else
      let childIDs := vec_erase tagID childIDs in
      parentIDs <- getParentTagIDs st tagID ;;
      if negb (vec_mem parentTagID parentIDs) then Some (ENOENT, st)
      else
        let parentIDs := vec_erase parentTagID parentIDs in
        st <- updateChildTagIDs st parentTagID childIDs ;;
        st <- updateParentTagIDs st tagID parentIDs ;;
        Some (0%Z, st).

(** [getFileTags]: the name of a tag once for every occurrence of [fileID]
    in its [files_ids]. *)
Definition getFileTags (st : DB) (fileID : string) : option (list string) :=
  name <- getFilenameFromID st fileID ;;
  if String.eqb name "" then Some []
  else
    results <- GET_FILE_TAGS st ;;
    Some (flat_map
            (fun row : string * string * string =>
               let '(_, row1, row2) := row in
               map (fun _ => row1)
                   (filter (fun id => String.eqb id fileID)
                           (deserializeStrings row2 ";")))
            results).

(** *** Searching by tags *)

(** The loop of [findFileIDsWithTags] from [i = 1].  [result] is never
    cleared: [result.empty()] only asks whether it is empty, so
    [std::back_inserter(result)] keeps appending to what the earlier
    iterations left. *)
Fixpoint findFileIDsWithTagsLoop (st : DB) (tags_ : list string)
    (matches result : list string) : option (list string) :=
  match tags_ with
  | [] => Some matches
  | tag :: rest =>
      tagID <- getTagID fuel st tag ;;
      if String.eqb tagID "" then Some []
      else
        fileIDs <- getFileIDsUnderTagID st tagID ;;
        let matches := sort matches in
        let fileIDs := sort fileIDs in
        let result := result ++ set_intersection matches fileIDs in
        findFileIDsWithTagsLoop st rest result result
  end.

(** [findFileIDsWithTags].  [tags[0]] is read before the size is tested:
    on an empty vector that is undefined, hence [None]. *)
Definition findFileIDsWithTags (st : DB) (tags_ : list string)
  : option (list string) :=
  match tags_ with
  | [] => None
  | tag0 :: rest =>
      tagID <- getTagID fuel st tag0 ;;
      if String.eqb tagID "" then Some []
      else
        matches <- getFileIDsUnderTagID st tagID ;;
        findFileIDsWithTagsLoop st rest matches []
  end.

(** The loop of [findFileIDsWithAnyOfTags]: an invalid tag makes the
    function return [empty]. *)
Fixpoint findFileIDsWithAnyOfTagsLoop (st : DB) (tags_ : list string)
    (matches : list string) : option (list string) :=
  match tags_ with
  | [] => Some matches
  | tag :: rest =>
      tagID <- getTagID fuel st tag ;;
      if String.eqb tagID "" then Some []
      else
        fileIDs <- getFileIDsUnderTagID st tagID ;;
        findFileIDsWithAnyOfTagsLoop st rest
          (fold_left (fun m id => set_insert id m) fileIDs matches)
  end.

Definition findFileIDsWithAnyOfTags (st : DB) (tags_ : list string)
  : option (list string) :=
  match tags_ with
  | [] => Some []
  | _ => findFileIDsWithAnyOfTagsLoop st tags_ []
  end.

(** *** Deleting and renaming files *)

(** The loop of [deleteFile] over all tags; [savedTagIDs] is the vector
    behind the pointer, [None] for [NULL]. *)
Fixpoint deleteFileLoop (st : DB) (fileID : string)
    (allTagIDs : list string) (savedTagIDs : option (list string))
  : option (DB * option (list string)) :=
  match allTagIDs with
  | [] => Some (st, savedTagIDs)
  | tagID :: rest =>
      fileIDs <- getFileIDsUnderTagID st tagID ;;
      if vec_mem fileID fileIDs then
        st <- updateTagFileIDs st tagID (vec_erase fileID fileIDs) ;;
        deleteFileLoop st fileID rest
          (option_map (fun saved => saved ++ [tagID]) savedTagIDs)
      else deleteFileLoop st fileID rest savedTagIDs
  end.

Definition deleteFile (st : DB) (filePath : string)
    (savedTagIDs : option (list string))
  : option (Z * DB * option (list string)) :=
  let parts := splitPathIntoParts filePath in
  let '(filename_, parts) := popBackAndRemove parts in
  parentFolderID <- getFolderID st parts ;;
  if negb (String.eqb parentFolderID "") then
    hash_ <- getHash st filename_ parentFolderID ;;
    if negb (String.eqb hash_ "") then
      let filePath := rootDirectory +s+ "/" +s+ hash_ in
      flag <- stoi (COUNT_HASH_GT_1 st hash_) ;;
      let isLastFileWithHash := Z.eqb flag 0 in
      let returnValue :=
        if isLastFileWithHash then
          let '(rv, errno) := unlink filePath in
          if Z.eqb rv (-1) then errno else rv
        else 0%Z in
      if Z.eqb returnValue 0 then
        fileID <- getFileID st filename_ parentFolderID ;;
        allTagIDs <- getAllTagIDs st ;;
        '(st, savedTagIDs) <-
          deleteFileLoop st fileID allTagIDs
            (option_map (fun _ => []) savedTagIDs) ;;
        fid <- stoi fileID ;;
        Some (0%Z, DELETE_FILE st fid, savedTagIDs)
      else Some (returnValue, st, savedTagIDs)
    else Some (1%Z, st, savedTagIDs)
  else Some (1%Z, st, savedTagIDs).

(** The first loop of [renamePath]: does a tag of the file hold a file
    named [newName]? *)
Fixpoint renameConflict (st : DB) (newName : string)
    (fileTags : list string) : option bool :=
  match fileTags with
  | [] => Some false
  | tag :: rest =>
      tagID <- getTagID fuel st tag ;;
      filenames <- getFilenamesUnderTagID st tagID ;;
      if vec_mem newName filenames then Some true
      else renameConflict st newName rest
  end.

(** The last loop of [renamePath]: the saved tags get the renamed file. *)
Fixpoint reattachTags (st : DB) (oldFileID : string)
    (savedTagIDs : list string) : option DB :=
  match savedTagIDs with
  | [] => Some st
  | tagID :: rest =>
      fileIDs <- getFileIDsUnderTagID st tagID ;;
      st <- updateTagFileIDs st tagID (fileIDs ++ [oldFileID]) ;;
      reattachTags st oldFileID rest
  end.

Definition renamePath (st : DB) (oldPath newPath : string)
  : option (Z * DB) :=
  let parts := splitPathIntoParts oldPath in
  let '(oldName, parts) := popBackAndRemove parts in
  oldParentFolderID <- getFolderID st parts ;;
  '(oldFolderID, oldFileID) <-
    (if negb (String.eqb oldParentFolderID "") then
       a <- getFolderID2 st oldName oldParentFolderID ;;
       b <- getFileID st oldName oldParentFolderID ;;
       Some (a, b)
     else Some ("", "")) ;;
  let parts := splitPathIntoParts newPath in
  let '(newName, parts) := popBackAndRemove parts in
  newParentFolderID <- getFolderID st parts ;;
  '(newFolderID, newFileID) <-
    (if negb (String.eqb newParentFolderID "") then
       a <- getFolderID2 st newName newParentFolderID ;;
       b <- getFileID st newName newParentFolderID ;;
       Some (a, b)
     else Some ("", "")) ;;
  if negb (String.eqb oldFileID "") && String.eqb newFolderID "" then
    fileTags <- getFileTags st oldFileID ;;
    conflict <- renameConflict st newName fileTags ;;
    if conflict then Some (EEXIST, st)
    else
      (* old file exists, replace if new file exists; the value that
         deleteFile returns is dropped *)
      '(st, savedTagIDs) <-
        (if negb (String.eqb newFileID "") then
           '(_, st', saved) <- deleteFile st newPath (Some []) ;;
           Some (st', match saved with Some v => v | None => [] end)
         else Some (st, [])) ;;
      npid <- stoi newParentFolderID ;;
      ofid <- stoi oldFileID ;;
      let st := RENAME_PATH_1 st newName npid ofid in
      st <- reattachTags st oldFileID savedTagIDs ;;
      Some (0%Z, st)
  else if negb (String.eqb oldFolderID "") && String.eqb newFolderID ""
          && String.eqb newFileID "" then
    npid <- stoi newParentFolderID ;;
    ofid <- stoi oldFolderID ;;
    Some (0%Z, RENAME_PATH_2 st newName npid ofid)
  else Some (1%Z, st).

(** *** Renaming in tag view *)

Definition renameTaggedPath (st : DB) (oldPath newPath : string)
  : option (Z * DB) :=
  oldParentTagID <- getParentTagIDFromPath st oldPath ;;
  newParentTagID <- getParentTagIDFromPath st newPath ;;
  if String.eqb oldParentTagID "" || String.eqb newParentTagID "" then
    Some (ENOENT, st)
  else
    let oldName := getFilename oldPath in
    let newName := getFilename newPath in
    oldTagID <- getTagID fuel st oldName ;;
    newTagID <- getTagID fuel st newName ;;
    oldFileID <- getTaggedFileID st oldParentTagID oldName ;;
    newFileID <- getTaggedFileID st newParentTagID newName ;;
    if negb (String.eqb oldFileID "") && String.eqb newTagID ""
       && String.eqb newFileID "" then
      if negb (String.eqb oldName newName) then Some (1%Z, st)
      else
        '(_, st) <- untagSingleFile st oldFileID oldParentTagID ;;
        '(_, st) <- tagSingleFile st oldFileID newParentTagID ;;
        Some (0%Z, st)
    else if negb (String.eqb oldTagID "") && String.eqb newFileID "" then
      if negb (String.eqb oldTagID newTagID)
         && negb (String.eqb newTagID "") then Some (1%Z, st)
      else
        st <-
          (if negb (String.eqb newParentTagID oldParentTagID) then
             '(_, st) <- unnestTag st oldTagID oldParentTagID ;;
             '(_, st) <- nestTag st oldTagID newParentTagID ;;
             Some st
           else Some st) ;;
        if String.eqb newTagID "" then
          tid <- stoi oldTagID ;;
          Some (0%Z, RENAME_TAGGED_PATH st newName tid)
        else Some (0%Z, st)
    else Some (1%Z, st).

(** *** Requests

    The operations that the dispatcher runs on behalf of the bridge and of
    the operator, as it calls them: [QH_NEST] and [QH_UNNEST] resolve both
    arguments with [getTagID] first. *)
Inductive Op :=
| OpCreateTag (tagPath : string)
| OpDeleteTag (tagPath : string)
| OpNestTag (tag parentTag : string)
| OpUnnestTag (tag parentTag : string)
| OpTagFiles (filePath tag : string)
| OpUntagFiles (filePath tag : string)
| OpRenameTaggedPath (oldPath newPath : string)
| OpAddTemporaryFile (tempFilePath : string)
| OpCreateFolder (folderPath : string)
| OpDeleteFolder (folderPath : string)
| OpDeleteFile (filePath : string)
| OpRenamePath (oldPath newPath : string).

(** One request: the return value of the method and the next state. *)
Definition step (st : DB) (op : Op) : option (Z * DB) :=
  match op with
  | OpCreateTag p => createTag st p
  | OpDeleteTag p => deleteTag st p
  | OpNestTag t p =>
      tagID <- getTagID fuel st t ;;
      parentTagID <- getTagID fuel st p ;;
      nestTag st tagID parentTagID
  | OpUnnestTag t p =>
      tagID <- getTagID fuel st t ;;
      parentTagID <- getTagID fuel st p ;;
      unnestTag st tagID parentTagID
  | OpTagFiles f t => tagFiles st f t
  | OpUntagFiles f t => untagFiles st f t
  | OpRenameTaggedPath o n => renameTaggedPath st o n
  | OpAddTemporaryFile a =>
      st <- addTemporaryFile st a ;;
      Some (0%Z, st)
  | OpCreateFolder p => createFolder st p
  | OpDeleteFolder p => deleteFolder st p
  | OpDeleteFile p =>
      '(r, st, _) <- deleteFile st p None ;;
      Some (r, st)
  | OpRenamePath o n => renamePath st o n
  end.

(** A sequence of requests, served in order. *)
Fixpoint run (st : DB) (ops : list Op) : option DB :=
  match ops with
  | [] => Some st
  | op :: rest =>
      '(_, st) <- step st op ;;
      run st rest
  end.

End Daemon.

(** *** The dispatcher *)

(** A message handed to [mq_send]: by [messageFUSEFileSystem] or by
    [messageQueryHandler], with its text and its [complete] flag. *)
Inductive Reply :=
| ToFUSE (m : string) (complete_ : bool)
| ToQuery (m : string) (complete_ : bool).

(** [LONG_MAX] of the platform: [loops] is a [static long]. *)
Definition LONG_MAX : Z := 9223372036854775807%Z.
Definition LONG_MIN : Z := (- 9223372036854775808)%Z.

(** [std::stol]: as [std::stoi], with the range of [long]. *)
Definition stol (str : string) : option Z :=
  let '(negative, s) := stoi_sign (skip_space str) in
  match digits_prefix s with
  | Decimal.Nil => None
  | d =>
      let v := Z.of_uint d in
      let v := if negative then (- v)%Z else v in
      if ((LONG_MIN <=? v) && (v <=? LONG_MAX))%Z then Some v else None
  end.

(** The loop that sends a vector as a multipart message: only the last
    part is marked complete. *)
Fixpoint sendParts (send : string -> bool -> Reply) (contents : list string)
  : list Reply :=
  match contents with
  | [] => []
  | [x] => [send x true]
  | x :: rest => send x false :: sendParts send rest
  end.

(** An empty vector is answered by one empty message. *)
Definition sendList (send : string -> bool -> Reply) (contents : list string)
  : list Reply :=
  match contents with
  | [] => [send "" true]
  | _ => sendParts send contents
  end.

(** [tokens[1]] and the like: reading past the end of the vector is
    undefined. *)
Definition at_ (v : list string) (i : nat) : option string := nth_error v i.

(** The answer to the bridge after a call that returns an [int]. *)
Definition ackOrCode (returnValue : Z) : list Reply :=
  if Z.eqb returnValue 0 then [ToFUSE "TM_ACK" true]
  else [ToFUSE (to_text returnValue) true].

(** The queries that [dispatch] knows. *)
Definition known_queries : list string :=
  [ "QH_TEST"; "QH_EXIT"; "FD_EXIT"; "FD_TEST"; "FD_LOG"; "FD_GET_PATH";
    "FD_GET_PATH_WRITE"; "FD_IF_DIR"; "FD_READ_DIR"; "FD_MKDIR"; "FD_RMDIR";
    "FD_UNLINK"; "FD_RENAME"; "FD_TRUNCATE"; "FD_UPDATE"; "FD_ADD_TEMP";
    "QH_TAG"; "QH_UNTAG"; "QH_NEST"; "QH_UNNEST"; "QH_STATS"; "QH_SEARCH";
    "QH_CREATE_TAG"; "QH_DELETE_TAG"; "QH_GET_TAGS" ].

Section Dispatcher.

(** [tagView] is the mode of the mount.  [truncateFile] and [updateFile]
    work on the blobs (contents, hashes, copies); the dispatcher hands its
    arguments to them and they are taken as given here. *)
Variable rootDirectory : string.
Variable fuel : nat.
Variable unlink : string -> Z * Z.
Variable tagView : bool.
Variable truncateFile : Z -> string -> DB -> option (Z * DB).
Variable updateFile : string -> DB -> option DB.

(** The branches of [dispatch], by query.  The result is what the method
    returns ([false] ends [run]), the store and the messages sent. *)
Definition dispatchQuery (loops : Z) (st : DB) (query : string)
    (tokens : list string) : option (bool * DB * list Reply) :=
  if String.eqb query "QH_TEST" then
    Some (true, st,
          [ToQuery ("TM_ACK (messages dispatched: " +s+ to_text loops +s+ ")")
                   true])
  else if String.eqb query "QH_EXIT" || String.eqb query "FD_EXIT" then
    Some (false, st, [])
  else if String.eqb query "FD_TEST" || String.eqb query "FD_LOG" then
    Some (true, st, [ToFUSE "TM_ACK" true])
  else if String.eqb query "FD_GET_PATH"
          || String.eqb query "FD_GET_PATH_WRITE" then
    realPath <-
      (if negb tagView then
         path <- at_ tokens 1 ;;
         getFilePath rootDirectory st path
       else if negb (String.eqb query "FD_GET_PATH_WRITE") then
         path <- at_ tokens 1 ;;
         getTaggedFilePath rootDirectory fuel st path
       else Some "") ;;
    Some (true, st, [ToFUSE realPath true])
  else if String.eqb query "FD_IF_DIR" then
    path <- at_ tokens 1 ;;
    id <- (if tagView then getTagID fuel st path
           else getFolderID st (splitPathIntoParts path)) ;;
    let isDirectory := negb (String.eqb id "") in
    Some (true, st,
          [ToFUSE (if isDirectory then "TM_TRUE" else "TM_FALSE") true])
  else if String.eqb query "FD_READ_DIR" then
    path <- at_ tokens 1 ;;
    contents <- (if negb tagView then listFolder st path
                 else listTagChildren fuel st path) ;;
    Some (true, st, sendList ToFUSE contents)
  else if String.eqb query "FD_MKDIR" then
    path <- at_ tokens 1 ;;
    '(returnValue, st) <- (if negb tagView then createFolder st path
                           else createTag fuel st path) ;;
    Some (true, st, ackOrCode returnValue)
  else if String.eqb query "FD_RMDIR" then
    path <- at_ tokens 1 ;;
    '(returnValue, st) <- (if negb tagView then deleteFolder st path
                           else deleteTag fuel st path) ;;
    Some (true, st, ackOrCode returnValue)
  else if String.eqb query "FD_UNLINK" then
    path <- at_ tokens 1 ;;
    '(returnValue, st) <-
      (if negb tagView then
         '(r, st, _) <- deleteFile rootDirectory unlink st path None ;;
         Some (r, st)
       else
         (* untag file, not delete *)
         tagID <- getParentTagIDFromPath fuel st path ;;
         fileID <- getTaggedFileID st tagID (getFilename path) ;;
         untagSingleFile st fileID tagID) ;;
    Some (true, st, ackOrCode returnValue)
  else if String.eqb query "FD_RENAME" then
    token <- at_ tokens 1 ;;
    let arguments := splitAtFirstOccurance token "," in
    a0 <- at_ arguments 0 ;;
    a1 <- at_ arguments 1 ;;
    '(returnValue, st) <- (if negb tagView
                           then renamePath rootDirectory fuel unlink st a0 a1
                           else renameTaggedPath fuel st a0 a1) ;;
    Some (true, st,
          [ToFUSE (if Z.eqb returnValue 0 then "TM_ACK" else "TM_FAIL") true])
  else if String.eqb query "FD_TRUNCATE" then
    token <- at_ tokens 1 ;;
    let arguments := splitAtFirstOccurance token "," in
    '(returnValue, st) <-
      (if negb tagView then
         (* tag view mode read only *)
         a0 <- at_ arguments 0 ;;
         length <- stol a0 ;;
         filePath <- at_ arguments 1 ;;
         truncateFile length filePath st
       else Some (1%Z, st)) ;;
    Some (true, st, ackOrCode returnValue)
  else if String.eqb query "FD_UPDATE" then
    st <- (if negb tagView then
             path <- at_ tokens 1 ;;
             updateFile path st
           else Some st) ;;
    Some (true, st, [ToFUSE "TM_ACK" true])
  else if String.eqb query "FD_ADD_TEMP" then
    token <- at_ tokens 1 ;;
    st <- addTemporaryFile st token ;;
    Some (true, st, [ToFUSE "TM_ACK" true])
  else if String.eqb query "QH_TAG" then
    token <- at_ tokens 1 ;;
    let arguments := splitAtFirstOccurance token "," in
    a0 <- at_ arguments 0 ;;
    a1 <- at_ arguments 1 ;;
    '(returnValue, st) <- tagFiles fuel st a0 a1 ;;
    Some (true, st,
          [ToQuery
             (if Z.eqb returnValue 0 then "File(s) successfully tagged."
              else if Z.eqb returnValue EEXIST then
                "Failed. Filename conflict with "
                +s+ "files already tagged with the same tag."
              else "Failed. Either file(s) path or tag is invalid.")
             true])
  else if String.eqb query "QH_UNTAG" then
    token <- at_ tokens 1 ;;
    let arguments := splitAtFirstOccurance token "," in
    a0 <- at_ arguments 0 ;;
    a1 <- at_ arguments 1 ;;
    '(returnValue, st) <- untagFiles fuel st a0 a1 ;;
    Some (true, st,
          [ToQuery
             (if Z.eqb returnValue 0 then "File(s) successfully untagged."
              else "Failed. Either file(s) path or tag is invalid.")
             true])
  else if String.eqb query "QH_NEST" then
    token <- at_ tokens 1 ;;
    let arguments := splitAtFirstOccurance token "," in
    a0 <- at_ arguments 0 ;;
    a1 <- at_ arguments 1 ;;
    tagID <- getTagID fuel st a0 ;;
    parentTagID <- getTagID fuel st a1 ;;
    '(returnValue, st) <- nestTag fuel st tagID parentTagID ;;
    Some (true, st,
          [ToQuery
             (if Z.eqb returnValue 0 then "Tag successfully nested."
              else if Z.eqb returnValue 1 then "Cyclic check error."
              else "Failed. Either tag is invalid.")
             true])
  else if String.eqb query "QH_UNNEST" then
    token <- at_ tokens 1 ;;
    let arguments := splitAtFirstOccurance token "," in
    a0 <- at_ arguments 0 ;;
    a1 <- at_ arguments 1 ;;
    tagID <- getTagID fuel st a0 ;;
    parentTagID <- getTagID fuel st a1 ;;
    '(returnValue, st) <- unnestTag st tagID parentTagID ;;
    Some (true, st,
          [ToQuery
             (if Z.eqb returnValue 0 then "Tag successfully unnested."
              else "Failed. Either tag is invalid.")
             true])
  else if String.eqb query "QH_STATS" then
    numberOfFiles <- stoi (QH_STATS_1 st) ;;
    numberOfTags <- stoi (QH_STATS_2 st) ;;
    Some (true, st,
          [ToQuery ("Files: " +s+ to_text numberOfFiles
                    +s+ ", Tags: " +s+ to_text numberOfTags) true])
  else if String.eqb query "QH_SEARCH" then
    token <- at_ tokens 1 ;;
    let arguments := splitAtFirstOccurance token "," in
    a1 <- at_ arguments 1 ;;
    let tags_ := deserializeStrings a1 ";" in
    a0 <- at_ arguments 0 ;;
    ids <- (if String.eqb a0 "1" then findFileIDsWithTags fuel st tags_
            else findFileIDsWithAnyOfTags fuel st tags_) ;;
    names <- filenamesOfIDs st ids ;;
    Some (true, st, sendList ToQuery names)
  else if String.eqb query "QH_CREATE_TAG" then
    path <- at_ tokens 1 ;;
    '(returnValue, st) <- createTag fuel st path ;;
    Some (true, st,
          [ToQuery
             (if Z.eqb returnValue 0 then "Tag successfully created."
              else if Z.eqb returnValue EEXIST then
                "Failed. Tag already exists."
              else "Failed. Given tag is invalid.")
             true])
  else if String.eqb query "QH_DELETE_TAG" then
    path <- at_ tokens 1 ;;
    '(returnValue, st) <- deleteTag fuel st path ;;
    Some (true, st,
          [ToQuery
             (if Z.eqb returnValue 0 then "Tag successfully deleted."
              else if Z.eqb returnValue ENOTEMPTY then
                "Failed. Tag is not empty and has tags and/or "
                +s+ "files nested under it."
              else "Failed. Given tag is invalid.")
             true])
  else if String.eqb query "QH_GET_TAGS" then
    path <- at_ tokens 1 ;;
    let parts := splitPathIntoParts path in
    let '(filename_, parts) := popBackAndRemove parts in
    folderID <- getFolderID st parts ;;
    if String.eqb folderID "" then Some (true, st, [ToQuery "Invalid" true])
    else
      fileID <- getFileID st filename_ folderID ;;
      if String.eqb fileID "" then Some (true, st, [ToQuery "Invalid" true])
      else
        tags_ <- getFileTags st fileID ;;
        Some (true, st, [ToQuery (serializeStrings tags_ ";") true])
  else Some (true, st, []).

(** [dispatch]: count the message, split its text at the first blank and
    branch on the query.  [loops] is the static counter; incrementing it at
    [LONG_MAX] is undefined. *)
Definition dispatch (loops : Z) (st : DB) (m : Message)
  : option (bool * Z * DB * list Reply) :=
  if Z.eqb loops LONG_MAX then None
  else
    let loops := (loops + 1)%Z in
    text <- string_of_chars (content m) ;;
    let tokens := splitAtFirstOccurance text " " in
    query <- at_ tokens 0 ;;
    '(continue, st, replies) <- dispatchQuery loops st query tokens ;;
    Some (continue, loops, st, replies).

End Dispatcher.

Definition reply_text (r : Reply) : string :=
  match r with ToFUSE m _ | ToQuery m _ => m end.

Definition reply_complete (r : Reply) : bool :=
  match r with ToFUSE _ c | ToQuery _ c => c end.

Definition to_fuse (r : Reply) : bool :=
  match r with ToFUSE _ _ => true | ToQuery _ _ => false end.

(** [messageFUSEFileSystem] and [messageQueryHandler], for the messages of
    one [dispatch] in their order: each is serialised into the buffer of
    the daemon, and the buffer is sent to the queue of its receiver.  The
    result is what the two queues get, [txFUSEMQ] first. *)
Fixpoint sendReplies (buffer : string) (replies : list Reply)
  : list string * list string :=
  match replies with
  | [] => ([], [])
  | ToFUSE m complete_ :: rest =>
      let buffer := serializeMessage m buffer complete_ in
      let '(fuseMQ, queryMQ) := sendReplies buffer rest in
      (buffer :: fuseMQ, queryMQ)
  | ToQuery m complete_ :: rest =>
      let buffer := serializeMessage m buffer complete_ in
      let '(fuseMQ, queryMQ) := sendReplies buffer rest in
      (fuseMQ, buffer :: queryMQ)
  end.

End TFSManager.

(** ** The clients of the daemon *)

Module Client.

Import Common.

(** The loop of [queryTFS] (the same in [QueryHandler] and in
    [FUSEFileSystem]) that receives the response: [rxMQ] holds the buffers
    in the queue, oldest first.  The result is the texts received and what
    is left in the queue; [None] when the queue is empty before a complete
    message was read ([mq_receive] waits), or when a buffer cannot be read
    as a message. *)
Fixpoint receiveResponse (rxMQ : list string) (results : list string)
  : option (list string * list string) :=
  match rxMQ with
  | [] => None
  | buffer :: rxMQ =>
      m <- deserializeMessage buffer ;;
      text <- string_of_chars (content m) ;;
      let results := results ++ [text] in
      if negb (complete m) then receiveResponse rxMQ results
      else Some (results, rxMQ)
  end.

End Client.

Import TFSManager.
Import Client.

(** ** Notions used to state the properties *)

(** The character [c] occurs in [s]. *)
Fixpoint occurs (c : ascii) (s : string) : bool :=
  match s with
  | EmptyString => false
  | String a r => Ascii.eqb a c || occurs c r
  end.

Definition nonempty (s : string) : bool := negb (String.eqb s "").

(** An id as the lists hold it: non-empty and free of the separator. *)
Definition good_id (s : string) : bool := nonempty s && negb (occurs ";" s).

(** The text of an id list column is there and splits into good ids. *)
Definition list_wf (text : option string) : bool :=
  match text with
  | Some s => forallb good_id (deserializeStrings s ";")
  | None => false
  end.

(** The row of table [tags] with key [k]. *)
Definition tag_row (st : DB) (k : Z) : option TagRow :=
  match filter (fun r => Z.eqb (tag_id r) k) (tags st) with
  | r :: _ => Some r
  | [] => None
  end.

(** [id] is the text of the key of a row of [tags] whose three id lists
    are well formed: what [getTagID] hands out for a tag of a store that
    this program wrote. *)
Definition tag_ok (st : DB) (id : string) : bool :=
  match stoi id with
  | Some k =>
      match tag_row st k with
      | Some r =>
          String.eqb id (to_text k)
          && list_wf (parent_tags r) && list_wf (child_tags r)
          && list_wf (files_ids r)
      | None => false
      end
  | None => false
  end.

(** The value fits the [int] that [sqlite3_bind_int] takes. *)
Definition fits_int (z : Z) : bool := ((INT_MIN <=? z) && (z <=? INT_MAX))%Z.

(** Every key of table [tags] can be bound as an [int]. *)
Definition tag_ids_fit (st : DB) : bool :=
  forallb (fun r => fits_int (tag_id r)) (tags st).

(** The rows of table [files] whose [parent_folder] is [folder]. *)
Definition files_in (st : DB) (folder : Z) : list FileRow :=
  filter (fun r => Z.eqb (file_parent_folder r) folder) (files st).

(** The components of a path, put together with a slash between two
    neighbours. *)
Fixpoint joinComponents (v : list string) : string :=
  match v with
  | [] => ""
  | [x] => x
  | x :: r => x +s+ "/" +s+ joinComponents r
  end.

(** The string holds no slash. *)
Definition slash_free (s : string) : Prop := occurs "/" s = false.

(** ** Ancestors *)

(** The ancestors of a tag as [getAncestorTagIDs] collects them: the tag
    itself and what is reached along [parent_tags]; the empty id and the
    reserved root ["0"] are neither members nor walked through. *)
Inductive ancestor (st : DB) : string -> string -> Prop :=
| ancestor_self (t : string) :
    t <> "" -> t <> "0" -> ancestor st t t
| ancestor_parent (t : string) (ps : list string) (p a : string) :
    t <> "" -> t <> "0" ->
    getParentTagIDs st t = Some ps -> In p ps ->
    ancestor st p a -> ancestor st t a.

(** The walk along [parent_tags] from a tag comes to an end: every branch
    reaches the empty id or the root. *)
Inductive walk_ends (st : DB) : string -> Prop :=
| walk_stop (t : string) :
    t = "" \/ t = "0" -> walk_ends st t
| walk_node (t : string) (ps : list string) :
    t <> "" -> t <> "0" ->
    getParentTagIDs st t = Some ps ->
    (forall p, In p ps -> walk_ends st p) ->
    walk_ends st t.

(** The plain reflexive and transitive closure of [parent_tags]: the tag
    itself and every tag reached along [parent_tags], the root included. *)
Inductive closure_ancestor (st : DB) : string -> string -> Prop :=
| closure_self (t : string) : closure_ancestor st t t
| closure_parent (t : string) (ps : list string) (p a : string) :
    getParentTagIDs st t = Some ps -> In p ps ->
    closure_ancestor st p a -> closure_ancestor st t a.

(** What the ancestor walk from [t] returns with [fuel]: the set it was
    given, grown by the ancestors of [t]. *)
Definition walk_result (st : DB) (t : string) (fuel : nat) : Prop :=
  forall acc, exists r,
    getAncestorTagIDs fuel st t acc = Some r /\
    forall x, In x r <-> In x acc \/ ancestor st t x.

(** ** The tag graph *)

(** [c] is listed in the [child_tags] of [t]. *)
Definition child_edge (st : DB) (t c : string) : Prop :=
  exists cs, getChildTagIDs st t = Some cs /\ In c cs.

(** [p] is listed in the [parent_tags] of [t]. *)
Definition parent_edge (st : DB) (t p : string) : Prop :=
  exists ps, getParentTagIDs st t = Some ps /\ In p ps.

(** A non-empty path along [child_tags]. *)
Inductive child_path (st : DB) : string -> string -> Prop :=
| child_path_edge (t c : string) :
    child_edge st t c -> child_path st t c
| child_path_step (t c d : string) :
    child_edge st t c -> child_path st c d -> child_path st t d.

(** P4: no tag reaches itself along [child_tags]. *)
Definition acyclic (st : DB) : Prop :=
  forall t, ~ child_path st t t.

(** The ids of the tags: the rows with [parent_folder = 0]. *)
Definition tag_ids (st : DB) : list string :=
  map (fun r => to_text (tag_id r)) (filter is_tag (tags st)).

(** P3: among tags, [child_tags] and [parent_tags] mirror each other. *)
Definition edge_symmetric (st : DB) : Prop :=
  forall t1 t2, In t1 (tag_ids st) -> In t2 (tag_ids st) ->
    (child_edge st t1 t2 <-> parent_edge st t2 t1).

(** The cycle check of [nestTag] as the specification words it: when both
    ids are resolved and the edge is on neither side, the call fails the
    check (returns [1]) exactly when the child is in the closure of
    [parent_tags] from the parent, a set that holds the parent itself. *)
Definition nestTag_cycle_check_as_stated : Prop :=
  forall (fuel : nat) (st : DB) (child parent : string) (r : Z) (st' : DB),
    child <> "" -> parent <> "" ->
    ~ child_edge st parent child -> ~ parent_edge st child parent ->
    nestTag fuel st child parent = Some (r, st') ->
    (r = 1%Z <-> closure_ancestor st parent child).

(** ** Searching *)

(** [a] comes strictly before [b] in the order of [std::string]. *)
Definition str_lt (a b : string) : Prop := String.compare a b = Lt.

(** [a] does not come after [b]. *)
Definition str_le (a b : string) : Prop := String.compare a b <> Gt.

(** [tag] resolves to the tag [id], whose files are [fs]. *)
Definition tagged_files (fuel : nat) (st : DB) (tag id : string)
    (fs : list string) : Prop :=
  getTagID fuel st tag = Some id /\ id <> "" /\
  getFileIDsUnderTagID st id = Some fs.

(** ** Folders, files and tags by name *)

(** The folder rows and the file rows that a name selects in a folder. *)
Definition folders_named (st : DB) (name : string) (pid : Z) : list TagRow :=
  filter (fun r => String.eqb (tag_name r) name
                   && Z.eqb (parent_folder r) pid) (tags st).

Definition files_named (st : DB) (name : string) (pid : Z) : list FileRow :=
  filter (fun r => String.eqb (filename r) name
                   && Z.eqb (file_parent_folder r) pid) (files st).

(** The tag rows that bear a name. *)
Definition tags_named (st : DB) (name : string) : list TagRow :=
  filter (fun r => String.eqb (tag_name r) name && is_tag r) (tags st).

(** Every file row names a row of [tags] as its folder: the FOREIGN KEY
    of table [files]. *)
Definition files_have_folders (st : DB) : bool :=
  forallb (fun f => existsb (fun t => Z.eqb (tag_id t) (file_parent_folder f))
                            (tags st))
          (files st).

(** The files of tag [t] bear pairwise different names. *)
Definition names_unique (st : DB) (t : string) : Prop :=
  exists l names,
    getFileIDsUnderTagID st t = Some l /\
    filenamesOfIDs st l = Some names /\ NoDup names.

(** [t] lies on a cycle of [parent_tags]: one of its parents has [t] among
    its ancestors. *)
Definition on_parent_cycle (st : DB) (t : string) : Prop :=
  exists ps p,
    getParentTagIDs st t = Some ps /\ In p ps /\ ancestor st p t.

(** The requests that work on tags. *)
Definition tag_op (op : Op) : bool :=
  match op with
  | OpCreateTag _ | OpDeleteTag _ | OpNestTag _ _ | OpUnnestTag _ _
  | OpTagFiles _ _ | OpUntagFiles _ _ | OpRenameTaggedPath _ _ => true
  | _ => false
  end.

(** The tags among [ids] whose list of files has the file. *)
Definition listing (st : DB) (fileID : string) (ids : list string)
  : list string :=
  filter (fun t => match getFileIDsUnderTagID st t with
                   | Some l => vec_mem fileID l
                   | None => false
                   end) ids.

(** ** The messages of one dispatch *)

(** The first word of a message, which [dispatch] takes as the query. *)
Definition query_of (text : string) : string :=
  hd "" (splitAtFirstOccurance text " ").

(** A framed answer: the last message is marked complete and no message
    before it is. *)
Definition framed (replies : list Reply) : Prop :=
  forall body last,
    replies = body ++ [last] ->
    reply_complete last = true /\
    forall r, In r body -> reply_complete r = false.

(** An answer to one side: at least one message, all of them to the bridge
    ([fuse = true]) or all to the query handler, framed. *)
Definition answer (fuse : bool) (replies : list Reply) : Prop :=
  replies <> [] /\
  (forall r, In r replies -> to_fuse r = fuse) /\
  framed replies.

(** ** Auxiliary definitions of the proofs *)

(** The recursive reading of [serializeStrings]. *)
Fixpoint serializeRec (ids : list string) (c : ascii) : string :=
  match ids with
  | [] => ""
  | id :: r => if String.eqb id "" then serializeRec r c
               else id +s+ String c (serializeRec r c)
  end.

(** The three column updates, on one row. *)
Definition set_child_tags (text : string) (r : TagRow) : TagRow :=
  mkTag (tag_id r) (tag_name r) (parent_folder r) (parent_tags r)
        (Some text) (files_ids r).

Definition set_parent_tags (text : string) (r : TagRow) : TagRow :=
  mkTag (tag_id r) (tag_name r) (parent_folder r) (Some text)
        (child_tags r) (files_ids r).

Definition set_files_ids (text : string) (r : TagRow) : TagRow :=
  mkTag (tag_id r) (tag_name r) (parent_folder r) (parent_tags r)
        (child_tags r) (Some text).

(** ** Example stores *)

Definition example_root : string := "/srv/tfs".
Definition example_fuel : nat := 8.

(** The blob directory answers every [unlink] with success. *)
Definition unlink_ok (path : string) : Z * Z := (0%Z, 0%Z).

(** The blob directory refuses every [unlink] with EACCES. *)
Definition EACCES : Z := 13%Z.
Definition unlink_denied (path : string) : Z * Z := ((-1)%Z, EACCES).

(** The store after a sequence of requests ([initDB] when a request
    aborts the daemon). *)
Definition store_after (ops : list Op) : DB :=
  match run example_root example_fuel unlink_ok initDB ops with
  | Some st => st
  | None => initDB
  end.

(** A store is reachable when a sequence of requests leads to it from the
    two rows of [initDB]. *)
Definition reachable (st : DB) : Prop :=
  exists rootDirectory fuel unlink ops,
    run rootDirectory fuel unlink initDB ops = Some st.

(** Files [/x] (id 1) and [/y] (id 2); tags [A] (id 2) and [B] (id 3) on
    both, tag [C] (id 4) on [/y] only. *)
Definition search_ops : list Op :=
  [ OpAddTemporaryFile "TEMP000000001,/x";
    OpAddTemporaryFile "TEMP000000002,/y";
    OpTagFiles "/x" "A"; OpTagFiles "/y" "A";
    OpTagFiles "/x" "B"; OpTagFiles "/y" "B";
    OpTagFiles "/y" "C" ].

Definition search_db : DB := Eval vm_compute in store_after search_ops.

(** Tag [b] (id 2), tag [a] (id 3) created under it, then a tag created
    at [/a/b]. *)
Definition cycle_ops : list Op :=
  [ OpCreateTag "b"; OpCreateTag "/b/a"; OpCreateTag "/a/b" ].

Definition cycle_db : DB := Eval vm_compute in store_after cycle_ops.

(** Tags [a] (id 2) and [b] (id 3) at top level, then a tag created at
    [/a/b]. *)
Definition twin_ops : list Op :=
  [ OpCreateTag "a"; OpCreateTag "b"; OpCreateTag "/a/b" ].

Definition twin_db : DB := Eval vm_compute in store_after twin_ops.

(** Files [/a] (id 1) and [/b] (id 2), tag [T] (id 2) on [/b]. *)
Definition rename_ops : list Op :=
  [ OpAddTemporaryFile "TEMP000000001,/a";
    OpAddTemporaryFile "TEMP000000002,/b";
    OpTagFiles "/b" "T" ].

Definition rename_db : DB := Eval vm_compute in store_after rename_ops.

(** Folder [/docs] (id 2) with file [/docs/a.txt], folder [/empty]
    (id 3). *)
Definition folder_ops : list Op :=
  [ OpCreateFolder "/docs";
    OpAddTemporaryFile "TEMP000000001,/docs/a.txt";
    OpCreateFolder "/empty" ].

Definition folder_db : DB := Eval vm_compute in store_after folder_ops.

(** Tags [A] (id 2), [B] (id 3) under [A], [C] (id 4) under [B]. *)
Definition chain_ops : list Op :=
  [ OpCreateTag "A"; OpCreateTag "/A/B"; OpCreateTag "/B/C" ].

Definition chain_db : DB := Eval vm_compute in store_after chain_ops.

(** Tag [A] (id 2) alone. *)
Definition single_db : DB := Eval vm_compute in store_after [OpCreateTag "A"].

(** File [/x] (id 1), tagged [R] (id 2); tag [G] (id 3) without files. *)
Definition tagview_ops : list Op :=
  [ OpAddTemporaryFile "TEMP000000001,/x";
    OpTagFiles "/x" "R"; OpCreateTag "G" ].

Definition tagview_db : DB := Eval vm_compute in store_after tagview_ops.

(** Tags [A], [B], [C] (ids 2, 3, 4) at top level, [B] nested under [A]
    and [C] under [B]. *)
Definition nested_ops : list Op :=
  [ OpCreateTag "A"; OpCreateTag "B"; OpCreateTag "C";
    OpNestTag "B" "A"; OpNestTag "C" "B" ].

Definition nested_db : DB := Eval vm_compute in store_after nested_ops.

(** Files [/x], [/y], [/z] (ids 1, 2, 3); tag [R] (id 2) on [/x] and
    [/y], tag [G] (id 3) on [/y] and [/z]. *)
Definition two_tags_ops : list Op :=
  [ OpAddTemporaryFile "TEMP000000001,/x";
    OpAddTemporaryFile "TEMP000000002,/y";
    OpAddTemporaryFile "TEMP000000003,/z";
    OpTagFiles "/x" "R"; OpTagFiles "/y" "R";
    OpTagFiles "/y" "G"; OpTagFiles "/z" "G" ].

Definition two_tags_db : DB := Eval vm_compute in store_after two_tags_ops.

(** Rows [a] (id 2) and [b] (id 3), each the parent of the other: a store
    as a database file can hold it. *)
Definition loop_db : DB :=
  mkDB [ mkTag 0 "__TaggableFS__//" (-1) (Some "") (Some "") (Some "");
         mkTag 1 "/" (-1) (Some "") (Some "") (Some "");
         mkTag 2 "a" 0 (Some "3;") (Some "3;") (Some "");
         mkTag 3 "b" 0 (Some "2;") (Some "2;") (Some "") ]
       [].

(** A buffer of [TFS_MQ_MESSAGE_SIZE] NULs. *)
Definition zeroed_buffer : string := strncpy "" TFS_MQ_MESSAGE_SIZE.

(** A text of [CONTENT_SIZE] letters. *)
Definition long_text : string :=
  Eval vm_compute in string_of_list_ascii (repeat "a"%char CONTENT_SIZE).

(** [folder_db] after [mkdir /docs/sub] (id 4). *)
Definition subfolder_db : DB :=
  Eval vm_compute in store_after (folder_ops ++ [OpCreateFolder "/docs/sub"]).

(** Tags [A], [B], [C] (ids 2, 3, 4) at top level. *)
Definition flat_db : DB :=
  Eval vm_compute in
    store_after [OpCreateTag "A"; OpCreateTag "B"; OpCreateTag "C"].

(** [flat_db] after [B] is nested under [A]. *)
Definition flat_nested_db : DB :=
  Eval vm_compute in
    store_after [OpCreateTag "A"; OpCreateTag "B"; OpCreateTag "C";
                 OpNestTag "B" "A"].

(** [tagview_db] after file [/x] is tagged [G] as well. *)
Definition tagview_both_db : DB :=
  Eval vm_compute in store_after (tagview_ops ++ [OpTagFiles "/x" "G"]).

(** [twin_db] after the first tag named [b] (id 3) is deleted: the second
    (id 4) has parent [a] (id 2), which does not list it. *)
Definition orphan_db : DB :=
  Eval vm_compute in store_after (twin_ops ++ [OpDeleteTag "b"]).

(** [tagview_db] after file [/x] lost tag [R]. *)
Definition untagged_db : DB :=
  Eval vm_compute in store_after (tagview_ops ++ [OpUntagFiles "/x" "R"]).

(** Blob operations that succeed and leave the tables alone. *)
Definition truncate_ok (length : Z) (filePath : string) (st : DB)
  : option (Z * DB) := Some (0%Z, st).
Definition update_ok (filePath : string) (st : DB) : option DB := Some st.

(** The message that [run] reads when a client sent [query]. *)
Definition received (query : string) : Message :=
  mkMessage true (strncpy query CONTENT_SIZE).

(** Tag [A] (id 2), then the root nested under it. *)
Definition root_nested_ops : list Op :=
  [ OpCreateTag "A"; OpNestTag "/" "A" ].

Definition root_nested_db : DB :=
  Eval vm_compute in store_after root_nested_ops.

(* ================================================================== *)
(** * Part II: properties                                             *)
(* ================================================================== *)

(** ** Strings *)

(** The string [s] is known not to be empty: decide the test [s =? ""]. *)
Ltac known_nonempty s :=
  let C := fresh "C" in
  destruct (String.eqb_spec s "") as [C|_]; [congruence|].

Lemma append_nil_r s : s +s+ "" = s.
Proof. induction s; simpl; congruence. Qed.

Lemma append_assoc s1 s2 s3 : (s1 +s+ s2) +s+ s3 = s1 +s+ (s2 +s+ s3).
Proof. induction s1; simpl; congruence. Qed.

Lemma length_append s1 s2 :
  String.length (s1 +s+ s2) = String.length s1 + String.length s2.
Proof. induction s1; simpl; congruence. Qed.

Lemma get_append_r s1 s2 n :
  String.get (String.length s1 + n) (s1 +s+ s2) = String.get n s2.
Proof. induction s1; simpl; auto. Qed.

Lemma substring_append_mid s1 s2 s3 :
  substring (String.length s1) (String.length s2) (s1 +s+ s2 +s+ s3) = s2.
Proof.
  induction s1; simpl; auto.
  induction s2; simpl.
  - destruct s3; reflexivity.
  - f_equal. exact IHs2.
Qed.

Lemma char_at_is_inside pre x rest c k :
  occurs c x = false -> k < String.length x ->
  char_at_is (pre +s+ x +s+ rest) (String.length pre + k) c = false.
Proof.
  intros Hx Hk. unfold char_at_is. rewrite get_append_r.
  revert k Hk. induction x as [|a x IH]; simpl in *; intros k Hk; [lia|].
  apply orb_false_iff in Hx. destruct Hx as [Ha Hx].
  destruct k; simpl; auto. apply IH; auto. lia.
Qed.

Lemma char_at_is_sep pre x rest c :
  char_at_is (pre +s+ x +s+ String c rest)
             (String.length pre + String.length x) c = true.
Proof.
  unfold char_at_is. rewrite get_append_r.
  replace (String.length x) with (String.length x + 0) by lia.
  rewrite get_append_r. simpl. apply Ascii.eqb_refl.
Qed.

(** ** The id encoding of [common.cpp] *)

(** One token: from [begin] at the start of [x], the loop runs to the
    separator that closes [x] and pushes [x]. *)
Lemma deserializeLoop_token c pre x rest ids d : forall k,
  occurs c x = false ->
  k + d = String.length x ->
  deserializeLoop (pre +s+ x +s+ String c rest) c
    (d + 1 + String.length rest) (String.length pre) (String.length pre + k)
    ids
  = deserializeLoop (pre +s+ x +s+ String c rest) c
      (String.length rest) (String.length pre + String.length x + 1)
      (String.length pre + String.length x + 1) (ids ++ [x]).
Proof.
  induction d as [|d IH]; intros k Hx Hk.
  - assert (k = String.length x) by lia. subst k. simpl.
    rewrite char_at_is_sep.
    replace (String.length pre + String.length x - String.length pre)
      with (String.length x) by lia.
    rewrite substring_append_mid. reflexivity.
  - simpl. rewrite char_at_is_inside by (auto; lia).
    replace (String.length pre + k + 1)
      with (String.length pre + (k + 1)) by lia.
    apply IH; auto. lia.
Qed.

Lemma serialize_fold_acc ids c : forall acc,
  fold_left (fun serializedIDs id =>
               if String.eqb id "" then serializedIDs
               else serializedIDs +s+ (id +s+ String c ""))
            ids acc
  = acc +s+ serializeRec ids c.
Proof.
  induction ids as [|id r IH]; intros acc; simpl.
  - now rewrite append_nil_r.
  - rewrite IH. destruct (String.eqb id ""); auto.
    rewrite !append_assoc. reflexivity.
Qed.

Lemma serializeStrings_rec ids c :
  serializeStrings ids c = serializeRec ids c.
Proof. unfold serializeStrings. now rewrite serialize_fold_acc. Qed.

Lemma deserializeLoop_tokens c v : forall pre ids,
  Forall (fun x => occurs c x = false) v ->
  deserializeLoop (pre +s+ serializeRec v c) c
    (String.length (serializeRec v c)) (String.length pre)
    (String.length pre) ids
  = ids ++ filter nonempty v.
Proof.
  induction v as [|x v IH]; intros pre ids Hv; simpl.
  - now rewrite app_nil_r.
  - inversion Hv as [|? ? Hx Hv']; subst.
    unfold nonempty at 1.
    destruct (String.eqb_spec x "") as [->|Hne]; simpl.
    + apply IH; auto.
    + rewrite length_append. simpl.
      replace (String.length x + S (String.length (serializeRec v c)))
        with (String.length x + 1 + String.length (serializeRec v c)) by lia.
      replace (String.length pre) with (String.length pre + 0) at 2 by lia.
      rewrite (deserializeLoop_token c pre x (serializeRec v c) ids
                 (String.length x) 0 Hx) by lia.
      replace (pre +s+ x +s+ String c (serializeRec v c))
        with ((pre +s+ x +s+ String c "") +s+ serializeRec v c)
        by (rewrite !append_assoc; reflexivity).
      replace (String.length pre + String.length x + 1)
        with (String.length (pre +s+ x +s+ String c ""))
        by (rewrite !length_append; simpl; lia).
      rewrite IH by auto. rewrite <- app_assoc. reflexivity.
Qed.

(** What comes back from the encoding: the non-empty elements, in order. *)
Lemma deserialize_serialize v c :
  Forall (fun x => occurs c x = false) v ->
  deserializeStrings (serializeStrings v c) c = filter nonempty v.
Proof.
  intros Hv. rewrite serializeStrings_rec. unfold deserializeStrings.
  induction Hv as [|x v Hx Hv IH]; simpl; auto.
  unfold nonempty at 1.
  destruct (String.eqb_spec x "") as [->|Hne]; simpl; auto.
  rewrite length_append. simpl.
  destruct x as [|a x]; [congruence|]. simpl.
  replace (String.length x + S (String.length (serializeRec v c)) - 0)
    with (String.length x + 1 + String.length (serializeRec v c)) by lia.
  pose proof (deserializeLoop_token c "" (String a x) (serializeRec v c) []
                (String.length x) 1 Hx) as T.
  simpl in T. rewrite T by lia. clear T.
  pose proof (deserializeLoop_tokens c v (String a x +s+ String c "")
                [String a x] Hv) as T.
  rewrite append_assoc in T. simpl in T. rewrite length_append in T.
  simpl in T.
  replace (S (String.length x + 1)) with (S (String.length x) + 1) in T
    by lia.
  exact T.
Qed.

Lemma filter_nonempty_id v :
  Forall (fun x => x <> "") v -> filter nonempty v = v.
Proof.
  induction 1 as [|x v Hx Hv IH]; simpl; auto.
  unfold nonempty at 1. destruct (String.eqb_spec x ""); [congruence|].
  simpl. now rewrite IH.
Qed.

(** C10 -- round trip of the separator-delimited id encoding.  For every
    vector [v] of strings none of which contains the separator,
    [deserializeStrings (serializeStrings v sep) sep] is [v] without its
    empty elements, in the same order; hence it is exactly [v] when every
    element is non-empty.  This holds for every separator, in particular
    for the [';'] of [parent_tags], [child_tags] and [files_ids]. *)
Theorem serialize_roundtrip (v : list string) (separator : ascii) :
  Forall (fun x => occurs separator x = false) v ->
  deserializeStrings (serializeStrings v separator) separator
  = filter nonempty v
  /\ (Forall (fun x => x <> "") v ->
      deserializeStrings (serializeStrings v separator) separator = v).
Proof.
  intros Hv. split.
  - now apply deserialize_serialize.
  - intros Hne. rewrite deserialize_serialize by exact Hv.
    now apply filter_nonempty_id.
Qed.

Lemma serialize_roundtrip_witness :
  deserializeStrings (serializeStrings ["12"; ""; "7"; "305"] ";") ";"
  = filter nonempty ["12"; ""; "7"; "305"]
  /\ (Forall (fun x => x <> "") ["12"; ""; "7"; "305"] ->
      deserializeStrings (serializeStrings ["12"; ""; "7"; "305"] ";") ";"
      = ["12"; ""; "7"; "305"]).
Proof.
  apply (serialize_roundtrip ["12"; ""; "7"; "305"] ";").
  repeat constructor.
Defined.

(** ** Integers as text *)

Lemma digits_prefix_string_of_uint d :
  digits_prefix (DecimalString.NilEmpty.string_of_uint d) = d.
Proof. induction d; simpl; congruence. Qed.

Lemma skip_space_string_of_uint d :
  skip_space (DecimalString.NilEmpty.string_of_uint d)
  = DecimalString.NilEmpty.string_of_uint d.
Proof. destruct d; reflexivity. Qed.

Lemma stoi_sign_string_of_uint d :
  stoi_sign (DecimalString.NilEmpty.string_of_uint d)
  = (false, DecimalString.NilEmpty.string_of_uint d).
Proof. destruct d; reflexivity. Qed.

Lemma fits_int_bounds z :
  fits_int z = true <-> (INT_MIN <= z <= INT_MAX)%Z.
Proof.
  unfold fits_int. rewrite andb_true_iff, !Z.leb_le. tauto.
Qed.

Lemma stoi_value_digits (d : Decimal.uint) (negative : bool) :
  d <> Decimal.Nil ->
  fits_int (if negative then - Z.of_uint d else Z.of_uint d)%Z = true ->
  stoi_value negative (DecimalString.NilEmpty.string_of_uint d)
  = Some (if negative then (- Z.of_uint d)%Z else Z.of_uint d).
Proof.
  intros Hd Hr. unfold stoi_value. rewrite digits_prefix_string_of_uint.
  cbv zeta. unfold fits_int in Hr.
  destruct d; try congruence; now rewrite Hr.
Qed.

Lemma string_of_uint_pos p :
  DecimalString.NilZero.string_of_uint (Pos.to_uint p)
  = DecimalString.NilEmpty.string_of_uint (Pos.to_uint p).
Proof.
  assert (Hn := DecimalPos.Unsigned.to_uint_nonnil p).
  unfold DecimalString.NilZero.string_of_uint.
  destruct (Pos.to_uint p); congruence.
Qed.

Lemma of_uint_to_uint p : Z.of_uint (Pos.to_uint p) = Z.pos p.
Proof. unfold Z.of_uint. now rewrite DecimalPos.Unsigned.of_to. Qed.

(** What SQLite prints for a key, [std::stoi] reads back. *)
Lemma stoi_to_text z : fits_int z = true -> stoi (to_text z) = Some z.
Proof.
  intros Hz. unfold stoi, to_text.
  destruct z as [|p|p]; [reflexivity| |].
  - change (DecimalString.NilZero.string_of_int (Z.to_int (Z.pos p)))
      with (DecimalString.NilZero.string_of_uint (Pos.to_uint p)).
    rewrite string_of_uint_pos, skip_space_string_of_uint,
      stoi_sign_string_of_uint.
    cbv beta iota. rewrite stoi_value_digits.
    + now rewrite of_uint_to_uint.
    + apply DecimalPos.Unsigned.to_uint_nonnil.
    + now rewrite of_uint_to_uint.
  - change (DecimalString.NilZero.string_of_int (Z.to_int (Z.neg p)))
      with (String "-"
              (DecimalString.NilZero.string_of_uint (Pos.to_uint p))).
    rewrite string_of_uint_pos.
    change (stoi_sign
              (skip_space
                 (String "-"
                    (DecimalString.NilEmpty.string_of_uint (Pos.to_uint p)))))
      with (true, DecimalString.NilEmpty.string_of_uint (Pos.to_uint p)).
    cbv beta iota. rewrite stoi_value_digits.
    + now rewrite of_uint_to_uint.
    + apply DecimalPos.Unsigned.to_uint_nonnil.
    + now rewrite of_uint_to_uint.
Qed.

Lemma to_text_nonempty z : to_text z <> "".
Proof.
  unfold to_text. destruct z as [|p|p]; simpl; try discriminate.
  unfold DecimalString.NilZero.string_of_uint.
  destruct (Pos.to_uint p) eqn:E; simpl; discriminate.
Qed.

(** ** Folders *)

Lemma tag_ids_fit_In st r :
  tag_ids_fit st = true -> In r (tags st) -> fits_int (tag_id r) = true.
Proof.
  unfold tag_ids_fit. rewrite forallb_forall. auto.
Qed.

Lemma GET_FOLDER_ID_cases st name pid :
  tag_ids_fit st = true ->
  GET_FOLDER_ID st name pid = Some "" \/
  exists k, fits_int k = true /\
            GET_FOLDER_ID st name pid = Some (to_text k).
Proof.
  intros Hfit. unfold GET_FOLDER_ID.
  destruct (filter _ (tags st)) as [|r l] eqn:E; simpl; auto.
  right. exists (tag_id r). split; auto.
  apply (tag_ids_fit_In st r Hfit).
  eapply proj1. apply filter_In with (f := fun r =>
    String.eqb (tag_name r) name && Z.eqb (parent_folder r) pid).
  rewrite E. now left.
Qed.

Lemma getFolderIDLoop_cases st parts : forall k,
  tag_ids_fit st = true -> fits_int k = true ->
  getFolderIDLoop st parts (to_text k) = Some "" \/
  exists k', fits_int k' = true /\
             getFolderIDLoop st parts (to_text k) = Some (to_text k').
Proof.
  induction parts as [|part rest IH]; intros k Hfit Hk; simpl.
  - right. eauto.
  - destruct (String.eqb_spec (to_text k) "") as [E|_];
      [now apply to_text_nonempty in E|].
    unfold getFolderID2. rewrite stoi_to_text by exact Hk.
    destruct (GET_FOLDER_ID_cases st part k Hfit) as [E|[k' [Hk' E]]];
      rewrite E.
    + left. destruct rest; reflexivity.
    + apply IH; auto.
Qed.

(** A path walk ends on [""] or on the text of a key. *)
Lemma getFolderID_cases st parts :
  tag_ids_fit st = true ->
  getFolderID st parts = Some "" \/
  exists k, fits_int k = true /\ getFolderID st parts = Some (to_text k).
Proof.
  intros Hfit. unfold getFolderID. change "1" with (to_text 1).
  apply getFolderIDLoop_cases; auto.
Qed.

Lemma isFolderEmpty_spec st k :
  fits_int k = true ->
  isFolderEmpty st (to_text k)
  = Some (match files_in st k with [] => true | _ => false end).
Proof.
  intros Hk. unfold isFolderEmpty, IS_FOLDER_EMPTY.
  rewrite stoi_to_text by exact Hk.
  fold (files_in st k). destruct (files_in st k); reflexivity.
Qed.

Lemma files_in_nonempty st k :
  files_in st k <> [] <->
  exists f, In f (files st) /\ file_parent_folder f = k.
Proof.
  unfold files_in. split.
  - destruct (filter _ (files st)) as [|f l] eqn:E; [congruence|]. intros _.
    assert (In f (filter (fun r => Z.eqb (file_parent_folder r) k)
                         (files st)))
      as Hin by (rewrite E; now left).
    apply filter_In in Hin. destruct Hin as [Hin Hk].
    exists f. split; auto. now apply Z.eqb_eq.
  - intros [f [Hin Hk]] E.
    assert (In f (filter (fun r => Z.eqb (file_parent_folder r) k)
                         (files st)))
      as Hin'.
    { apply filter_In. split; auto. now apply Z.eqb_eq. }
    rewrite E in Hin'. inversion Hin'.
Qed.

(** C7 -- [deleteFolder].  In a store whose keys fit an [int], for every
    path: the path walk returns an id; when that id is empty (the path does
    not resolve to a folder) the call fails with ENOENT and changes nothing;
    otherwise the id is the text of the folder's key [fid], the call fails
    with ENOTEMPTY exactly when a row of table [files] has [fid] as its
    [parent_folder] (no row of [tags] is consulted), leaving the store as it
    is, and in the other case it returns [0] and removes the row of key
    [fid] from table [tags], table [files] staying as it is. *)
Theorem deleteFolder_spec (st : DB) (folderPath : string) :
  tag_ids_fit st = true ->
  exists folderID,
    getFolderID st (splitPathIntoParts folderPath) = Some folderID /\
    (folderID = "" -> deleteFolder st folderPath = Some (ENOENT, st)) /\
    (folderID <> "" ->
     exists fid r st',
       folderID = to_text fid /\
       deleteFolder st folderPath = Some (r, st') /\
       (r = ENOTEMPTY <->
        exists f, In f (files st) /\ file_parent_folder f = fid) /\
       (r = ENOTEMPTY -> st' = st) /\
       (r <> ENOTEMPTY ->
        r = 0%Z /\
        tags st' = filter (fun t => negb (Z.eqb (tag_id t) fid)) (tags st) /\
        files st' = files st)).
Proof.
  intros Hfit. unfold deleteFolder.
  destruct (getFolderID_cases st (splitPathIntoParts folderPath) Hfit)
    as [E|[k [Hk E]]]; rewrite E.
  - exists "". split; auto. split; [reflexivity|congruence].
  - exists (to_text k). split; auto. split.
    + intros C. now apply to_text_nonempty in C.
    + intros _. destruct (String.eqb_spec (to_text k) "") as [C|_];
        [now apply to_text_nonempty in C|]. simpl.
      rewrite isFolderEmpty_spec by exact Hk.
      pose proof (files_in_nonempty st k) as Hne.
      destruct (files_in st k) as [|f l].
      * rewrite stoi_to_text by exact Hk.
        exists k, 0%Z, (DELETE_FOLDER st k).
        split; auto. split; auto. split; [|split].
        -- split; [discriminate|]. intros H. apply Hne in H. congruence.
        -- discriminate.
        -- intros _. split; auto.
      * exists k, ENOTEMPTY, st. split; auto. split; auto. split; [|split].
        -- split; auto. intros _. apply Hne. discriminate.
        -- auto.
        -- congruence.
Qed.

(** ** Deleting a file *)

Section DeleteFile.

Variable rootDirectory : string.
Variable unlink : string -> Z * Z.

(** C9 -- [deleteFile] when the blob cannot be unlinked.  Whenever the path
    resolves to an existing file (its parent folder and its hash are found),
    no other row of table [files] has the same hash, and [unlink] on the
    blob fails (it returns [-1] and leaves a non-zero [errno]), [deleteFile]
    returns that [errno] and the store is unchanged: no row of [files] is
    deleted and no [files_ids] list is touched; the vector behind
    [savedTagIDs] is left as it was. *)
Theorem deleteFile_unlink_failure (st : DB) (filePath : string)
    (savedTagIDs : option (list string))
    (parentFolderID hash_ : string) (errno : Z) :
  getFolderID st (snd (popBackAndRemove (splitPathIntoParts filePath)))
    = Some parentFolderID ->
  parentFolderID <> "" ->
  getHash st (fst (popBackAndRemove (splitPathIntoParts filePath)))
    parentFolderID = Some hash_ ->
  hash_ <> "" ->
  List.length (filter (fun r => String.eqb (hash r) hash_) (files st)) <= 1 ->
  unlink (rootDirectory +s+ "/" +s+ hash_) = ((-1)%Z, errno) ->
  errno <> 0%Z ->
  deleteFile rootDirectory unlink st filePath savedTagIDs
  = Some (errno, st, savedTagIDs).
Proof.
  intros Hfolder Hne Hhash Hhne Hlast Hunlink Herr.
  unfold deleteFile.
  destruct (popBackAndRemove (splitPathIntoParts filePath)) as [name parts].
  simpl in Hfolder, Hhash. rewrite Hfolder.
  known_nonempty parentFolderID.
  simpl. rewrite Hhash.
  known_nonempty hash_.
  simpl. unfold COUNT_HASH_GT_1.
  destruct (Nat.ltb_spec 1
              (List.length
                 (filter (fun r => String.eqb (hash r) hash_) (files st))))
    as [C|_]; [lia|].
  change (stoi "0") with (Some 0%Z). cbv beta iota.
  change (Z.eqb 0 0) with true. cbv iota.
  simpl in Hunlink. rewrite Hunlink.
  change (Z.eqb (-1) (-1)) with true. cbv iota.
  destruct (Z.eqb_spec errno 0) as [C|_]; [congruence|].
  reflexivity.
Qed.

End DeleteFile.

(** ** Containers *)

Lemma set_insert_In x y s : In x (set_insert y s) <-> x = y \/ In x s.
Proof.
  induction s as [|z s IH]; simpl.
  - intuition.
  - destruct (String.compare y z) eqn:E; simpl.
    + apply String.compare_eq_iff in E. subst. intuition.
    + intuition.
    + rewrite IH. intuition.
Qed.

Lemma vec_mem_In x v : vec_mem x v = true <-> In x v.
Proof.
  unfold vec_mem. rewrite existsb_exists. split.
  - intros [y [Hin E]]. apply String.eqb_eq in E. now subst.
  - intros Hin. exists x. split; auto. apply String.eqb_refl.
Qed.

Lemma set_mem_In x v : set_mem x v = true <-> In x v.
Proof. exact (vec_mem_In x v). Qed.

(** ** The ancestor walk *)

Lemma ancestor_stop st t a : t = "" \/ t = "0" -> ~ ancestor st t a.
Proof. intros [E|E] H; inversion H; congruence. Qed.

Lemma ancestor_node st t ps a :
  t <> "" -> t <> "0" -> getParentTagIDs st t = Some ps ->
  ancestor st t a <-> a = t \/ exists p, In p ps /\ ancestor st p a.
Proof.
  intros H1 H2 Hps. split.
  - intros H. inversion H; subst; auto.
    right. match goal with
           | E : getParentTagIDs st t = Some ?ps' |- _ =>
               rewrite Hps in E; injection E as <-
           end. eauto.
  - intros [->|[p [Hin Hp]]].
    + now constructor.
    + econstructor; eauto.
Qed.

Lemma bound_over_list (P : string -> nat -> Prop) (l : list string) :
  (forall p, In p l -> exists n, forall fuel, n <= fuel -> P p fuel) ->
  exists n, forall p, In p l -> forall fuel, n <= fuel -> P p fuel.
Proof.
  induction l as [|a l IH]; intros H.
  - exists 0. intros p [].
  - destruct (H a (or_introl eq_refl)) as [na Ha].
    destruct IH as [nl Hl]; [intros p Hp; apply H; now right|].
    exists (Nat.max na nl). intros p [<-|Hp] fuel Hf.
    + apply Ha. lia.
    + apply Hl; auto. lia.
Qed.

Lemma walk_fold st fuel (ps : list string) :
  (forall p, In p ps -> walk_result st p fuel) ->
  forall acc, exists r,
    fold_left
      (fun acc id =>
         match acc with
         | Some ancestors' => getAncestorTagIDs fuel st id ancestors'
         | None => None
         end)
      ps (Some acc) = Some r /\
    forall x, In x r <-> In x acc \/ exists p, In p ps /\ ancestor st p x.
Proof.
  induction ps as [|p ps IH]; intros H acc; simpl.
  - exists acc. split; auto. intros x. split; auto.
    intros [Hx|[p [[] _]]]. exact Hx.
  - destruct (H p (or_introl eq_refl) acc) as [r1 [E1 S1]]. rewrite E1.
    destruct (IH (fun q Hq => H q (or_intror Hq)) r1) as [r [E S]].
    exists r. split; auto. intros x. rewrite S, S1. split.
    + intros [[Hx|Hx]|[q [Hq Hx]]]; eauto.
    + intros [Hx|[q [[<-|Hq] Hx]]]; eauto.
Qed.

Lemma getAncestorTagIDs_total st t :
  walk_ends st t ->
  exists n, forall fuel, n <= fuel -> walk_result st t fuel.
Proof.
  induction 1 as [t Hstop|t ps H1 H2 Hps Hwalk IH].
  - exists 1. intros fuel Hf acc. destruct fuel as [|fuel]; [lia|].
    exists acc. simpl. split.
    + destruct Hstop as [-> | ->]; reflexivity.
    + intros x. split; auto. intros [Hx|Hx]; auto.
      now apply ancestor_stop in Hx.
  - destruct (bound_over_list (walk_result st) ps IH) as [n Hn].
    exists (S n). intros fuel Hf acc. destruct fuel as [|fuel]; [lia|].
    simpl.
    known_nonempty t.
    destruct (String.eqb_spec t "0") as [C|_]; [congruence|].
    simpl. rewrite Hps.
    destruct (walk_fold st fuel ps (fun p Hp => Hn p Hp fuel ltac:(lia))
                (set_insert t acc)) as [r [E S]].
    exists r. split; auto. intros x. rewrite S, set_insert_In.
    rewrite (ancestor_node st t ps x H1 H2 Hps). tauto.
Qed.

(** ** Rows and their updates *)

Lemma tag_row_key st k r : tag_row st k = Some r -> tag_id r = k.
Proof.
  unfold tag_row.
  destruct (filter _ (tags st)) as [|r' l] eqn:E; [discriminate|].
  intros [= <-].
  assert (In r' (filter (fun r => Z.eqb (tag_id r) k) (tags st))) as Hin
    by (rewrite E; now left).
  apply filter_In in Hin. now apply Z.eqb_eq.
Qed.

Lemma executeSV_tag_row (col : TagRow -> option string) st k :
  executeSV col (filter (fun r => Z.eqb (tag_id r) k) (tags st))
  = match tag_row st k with Some r => col r | None => Some "" end.
Proof.
  unfold tag_row. destruct (filter _ (tags st)); reflexivity.
Qed.

Lemma filter_key_map (f : TagRow -> TagRow) k k' rows :
  (forall r, tag_id (f r) = tag_id r) ->
  filter (fun r => Z.eqb (tag_id r) k')
         (map (fun r => if Z.eqb (tag_id r) k then f r else r) rows)
  = map (fun r => if Z.eqb (tag_id r) k then f r else r)
        (filter (fun r => Z.eqb (tag_id r) k') rows).
Proof.
  intros Hf. induction rows as [|r rows IH]; simpl; auto.
  destruct (Z.eqb (tag_id r) k) eqn:Ek.
  - rewrite Hf. destruct (Z.eqb (tag_id r) k'); simpl; rewrite ?Ek, IH; auto.
  - destruct (Z.eqb (tag_id r) k'); simpl; rewrite ?Ek, IH; auto.
Qed.

Lemma tag_row_map (f : TagRow -> TagRow) st k k' fs :
  (forall r, tag_id (f r) = tag_id r) ->
  tag_row
    (mkDB (map (fun r => if Z.eqb (tag_id r) k then f r else r) (tags st))
          fs) k'
  = option_map (fun r => if Z.eqb k' k then f r else r) (tag_row st k').
Proof.
  intros Hf. unfold tag_row at 1. simpl tags.
  rewrite filter_key_map by exact Hf.
  pose proof (tag_row_key st k') as Hk. unfold tag_row in *.
  destruct (filter _ (tags st)) as [|r l]; simpl; auto.
  now rewrite (Hk r eq_refl).
Qed.

Lemma tag_row_UPDATE_CHILD st text k k' :
  tag_row (UPDATE_CHILD_TAG_IDS st text k) k'
  = option_map (fun r => if Z.eqb k' k then set_child_tags text r else r)
               (tag_row st k').
Proof. apply (tag_row_map (set_child_tags text)). reflexivity. Qed.

Lemma tag_row_UPDATE_PARENT st text k k' :
  tag_row (UPDATE_PARENT_TAG_IDS st text k) k'
  = option_map (fun r => if Z.eqb k' k then set_parent_tags text r else r)
               (tag_row st k').
Proof. apply (tag_row_map (set_parent_tags text)). reflexivity. Qed.

Lemma tag_row_UPDATE_FILES st text k k' :
  tag_row (UPDATE_TAG_FILE_IDS st text k) k'
  = option_map (fun r => if Z.eqb k' k then set_files_ids text r else r)
               (tag_row st k').
Proof. apply (tag_row_map (set_files_ids text)). reflexivity. Qed.

(** What [tag_ok] provides. *)
Lemma tag_ok_inv st id :
  tag_ok st id = true ->
  exists k r ptext ctext ftext,
    stoi id = Some k /\ id = to_text k /\ tag_row st k = Some r /\
    parent_tags r = Some ptext /\ child_tags r = Some ctext /\
    files_ids r = Some ftext /\
    forallb good_id (deserializeStrings ptext ";") = true /\
    forallb good_id (deserializeStrings ctext ";") = true /\
    forallb good_id (deserializeStrings ftext ";") = true.
Proof.
  unfold tag_ok. destruct (stoi id) as [k|] eqn:Es; [|discriminate].
  destruct (tag_row st k) as [r|] eqn:Er; [|discriminate].
  rewrite !andb_true_iff. intros [[[E Hp] Hc] Hf].
  apply String.eqb_eq in E.
  unfold list_wf in *.
  destruct (parent_tags r) as [ptext|] eqn:Ep; [|discriminate].
  destruct (child_tags r) as [ctext|] eqn:Ec; [|discriminate].
  destruct (files_ids r) as [ftext|] eqn:Ef; [|discriminate].
  exists k, r, ptext, ctext, ftext. intuition.
Qed.

Lemma getChildTagIDs_row st id k r :
  stoi id = Some k -> tag_row st k = Some r ->
  getChildTagIDs st id
  = match child_tags r with
    | Some text => Some (deserializeStrings text ";")
    | None => None
    end.
Proof.
  intros Hs Hr. unfold getChildTagIDs, GET_CHILD_TAG_IDS.
  rewrite Hs, executeSV_tag_row, Hr. reflexivity.
Qed.

Lemma getParentTagIDs_row st id k r :
  stoi id = Some k -> tag_row st k = Some r ->
  getParentTagIDs st id
  = match parent_tags r with
    | Some text => Some (deserializeStrings text ";")
    | None => None
    end.
Proof.
  intros Hs Hr. unfold getParentTagIDs, GET_PARENT_TAG_IDS.
  rewrite Hs, executeSV_tag_row, Hr. reflexivity.
Qed.

Lemma getFileIDsUnderTagID_row st id k r :
  id <> "" -> stoi id = Some k -> tag_row st k = Some r ->
  getFileIDsUnderTagID st id
  = match files_ids r with
    | Some text => Some (deserializeStrings text ";")
    | None => None
    end.
Proof.
  intros Hne Hs Hr. unfold getFileIDsUnderTagID, GET_FILE_IDS_UNDER_TAG_ID.
  destruct (String.eqb_spec id ""); [congruence|].
  rewrite Hs, executeSV_tag_row, Hr. reflexivity.
Qed.

(** ** Nesting tags *)

Lemma occurs_string_of_uint d :
  occurs ";" (DecimalString.NilEmpty.string_of_uint d) = false.
Proof. induction d; simpl; auto. Qed.

Lemma occurs_to_text k : occurs ";" (to_text k) = false.
Proof.
  unfold to_text. destruct k as [|p|p]; [reflexivity| |].
  - change (DecimalString.NilZero.string_of_int (Z.to_int (Z.pos p)))
      with (DecimalString.NilZero.string_of_uint (Pos.to_uint p)).
    rewrite string_of_uint_pos. apply occurs_string_of_uint.
  - change (DecimalString.NilZero.string_of_int (Z.to_int (Z.neg p)))
      with (String "-"
              (DecimalString.NilZero.string_of_uint (Pos.to_uint p))).
    rewrite string_of_uint_pos. simpl. apply occurs_string_of_uint.
Qed.

Lemma good_id_to_text k : good_id (to_text k) = true.
Proof.
  unfold good_id, nonempty. rewrite occurs_to_text.
  destruct (String.eqb_spec (to_text k) "") as [E|_]; auto.
  now apply to_text_nonempty in E.
Qed.

Lemma good_id_inv x : good_id x = true -> x <> "" /\ occurs ";" x = false.
Proof.
  unfold good_id, nonempty. rewrite andb_true_iff, !negb_true_iff.
  intros [H1 H2]. split; auto. now apply String.eqb_neq.
Qed.

(** A list of good ids survives the encoding. *)
Lemma roundtrip_good (l : list string) :
  forallb good_id l = true ->
  deserializeStrings (serializeStrings l ";") ";" = l.
Proof.
  intros H. rewrite forallb_forall in H.
  rewrite deserialize_serialize.
  - apply filter_nonempty_id.
    apply Forall_forall. intros x Hx. now apply good_id_inv, H.
  - apply Forall_forall. intros x Hx. now apply good_id_inv, H.
Qed.

Lemma forallb_snoc (f : string -> bool) l x :
  forallb f l = true -> f x = true -> forallb f (l ++ [x]) = true.
Proof.
  intros Hl Hx. rewrite forallb_app, Hl. simpl. now rewrite Hx.
Qed.

(** For a child that is neither empty nor the root, in a store whose root
    has no parents, the ancestors that [getAncestorTagIDs] collects are the
    plain closure of [parent_tags]. *)
Lemma ancestor_closure st parent child :
  child <> "" -> child <> "0" ->
  getParentTagIDs st "0" = Some [] ->
  (ancestor st parent child <-> closure_ancestor st parent child).
Proof.
  intros Hne Hroot Hno. split.
  - induction 1 as [t H1 H2|t ps p a H1 H2 Hps Hin Hanc IH].
    + constructor.
    + econstructor; eauto.
  - induction 1 as [t|t ps p a Hps Hin Hc IH].
    + now constructor.
    + apply ancestor_parent with (ps := ps) (p := p); auto.
      * intros ->. discriminate Hps.
      * intros ->. rewrite Hno in Hps. injection Hps as <-. destruct Hin.
Qed.

(** What [nestTag] does, for every pair of ids.  Let [child] and [parent]
    each be empty (the tag did not resolve) or the id of a row of [tags]
    with well-formed id lists, and let the walk along [parent_tags] from
    [parent] come to an end.  Then with enough fuel [nestTag] returns, and:
    it fails with ENOENT when either id is empty; otherwise it fails with
    EEXIST when [child] is in [parent]'s [child_tags] or [parent] is in
    [child]'s [parent_tags]; otherwise it fails the cycle check (returns
    [1]) exactly when [child] is an ancestor of [parent], the ancestors
    being [parent] itself and what is reached along [parent_tags], where
    the empty id and the root ["0"] are neither members nor walked through;
    for a [child] other than the root, when the root has no parents, this
    is membership of [child] in the plain closure of [parent_tags] from
    [parent]; every failure leaves the store unchanged; on success [child]
    is appended to [parent]'s [child_tags] and [parent] to [child]'s
    [parent_tags]. *)
Theorem nestTag_spec (st : DB) (tagID parentTagID : string) :
  (tagID = "" \/ tag_ok st tagID = true) ->
  (parentTagID = "" \/ tag_ok st parentTagID = true) ->
  walk_ends st parentTagID ->
  exists n, forall fuel, n <= fuel ->
  exists r st',
    nestTag fuel st tagID parentTagID = Some (r, st') /\
    (tagID = "" \/ parentTagID = "" -> r = ENOENT) /\
    (tagID <> "" /\ parentTagID <> "" ->
     exists cs ps,
       getChildTagIDs st parentTagID = Some cs /\
       getParentTagIDs st tagID = Some ps /\
       (In tagID cs \/ In parentTagID ps -> r = EEXIST) /\
       (~ (In tagID cs \/ In parentTagID ps) ->
        (r = 1%Z <-> ancestor st parentTagID tagID) /\
        (tagID <> "0" -> getParentTagIDs st "0" = Some [] ->
         (r = 1%Z <-> closure_ancestor st parentTagID tagID)) /\
        (r = 1%Z \/ r = 0%Z)) /\
       (r = 0%Z ->
        getChildTagIDs st' parentTagID = Some (cs ++ [tagID]) /\
        getParentTagIDs st' tagID = Some (ps ++ [parentTagID]))) /\
    (r <> 0%Z -> st' = st).
Proof.
  intros Ht Hp Hwalk.
  destruct (getAncestorTagIDs_total st parentTagID Hwalk) as [n Hn].
  exists n. intros fuel Hfuel. unfold nestTag.
  destruct (String.eqb_spec tagID "") as [Et|Et].
  { exists ENOENT, st. simpl. split; auto. split; auto. split.
    - intros [C _]. congruence.
    - auto. }
  destruct (String.eqb_spec parentTagID "") as [Ep|Ep].
  { exists ENOENT, st. simpl. split; auto. split; auto. split.
    - intros [_ C]. congruence.
    - auto. }
  simpl.
  destruct Ht as [C|Ht]; [congruence|]. destruct Hp as [C|Hp]; [congruence|].
  destruct (tag_ok_inv st tagID Ht)
    as (kt & rt & ptext & ctext' & ftext' & Hst & Htt & Hrt & Hpt & _ & _
        & Hgp & _ & _).
  destruct (tag_ok_inv st parentTagID Hp)
    as (kp & rp & ptext' & ctext & ftext & Hsp & Htp & Hrp & _ & Hcp & _
        & _ & Hgc & _).
  assert (Hbridge : forall r : Z,
            (r = 1%Z <-> ancestor st parentTagID tagID) ->
            tagID <> "0" -> getParentTagIDs st "0" = Some [] ->
            (r = 1%Z <-> closure_ancestor st parentTagID tagID)).
  { intros r I Hroot Hno.
    rewrite <- (ancestor_closure st parentTagID tagID Et Hroot Hno).
    exact I. }
  rewrite (getChildTagIDs_row st parentTagID kp rp Hsp Hrp), Hcp.
  rewrite (getParentTagIDs_row st tagID kt rt Hst Hrt), Hpt.
  set (cs := deserializeStrings ctext ";") in *.
  set (ps := deserializeStrings ptext ";") in *.
  destruct (vec_mem tagID cs) eqn:Ec.
  { exists EEXIST, st. split; auto. split; [intros [C|C]; congruence|].
    split; [|auto]. intros _. exists cs, ps.
    split; [reflexivity|]. split; [reflexivity|]. split; [auto|].
    split; [|discriminate].
    intros C. exfalso. apply C. left. now apply vec_mem_In. }
  destruct (vec_mem parentTagID ps) eqn:Epm.
  { exists EEXIST, st. split; auto. split; [intros [C|C]; congruence|].
    split; [|auto]. intros _. exists cs, ps.
    split; [reflexivity|]. split; [reflexivity|]. split; [auto|].
    split; [|discriminate].
    intros C. exfalso. apply C. right. now apply vec_mem_In. }
  destruct (Hn fuel Hfuel []) as [A [EA SA]]. rewrite EA.
  assert (Hnot : ~ (In tagID cs \/ In parentTagID ps)).
  { intros [C|C]; apply vec_mem_In in C; congruence. }
  destruct (set_mem tagID A) eqn:Em.
  { assert (I : 1%Z = 1%Z <-> ancestor st parentTagID tagID).
    { split; auto. intros _. apply set_mem_In in Em. apply SA in Em.
      destruct Em as [[]|Em]; auto. }
    exists 1%Z, st. split; auto. split; [intros [C|C]; congruence|].
    split; [|auto]. intros _. exists cs, ps.
    split; [reflexivity|]. split; [reflexivity|]. split; [tauto|].
    split; [|discriminate].
    intros _. split; [exact I|]. split; [now apply Hbridge|now left]. }
  assert (I : 0%Z = 1%Z <-> ancestor st parentTagID tagID).
  { split; [discriminate|].
    intros Hanc. assert (In tagID A) as C by (apply SA; now right).
    apply set_mem_In in C. congruence. }
  unfold updateChildTagIDs, updateParentTagIDs. rewrite Hsp, Hst.
  eexists 0%Z, _. split; [reflexivity|]. split; [intros [C|C]; congruence|].
  split; [|congruence]. intros _. exists cs, ps.
  split; [reflexivity|]. split; [reflexivity|]. split; [tauto|]. split.
  - intros _. split; [exact I|]. split; [now apply Hbridge|now right].
  - intros _. split.
    + unfold getChildTagIDs, GET_CHILD_TAG_IDS.
      rewrite Hsp, executeSV_tag_row.
      rewrite tag_row_UPDATE_PARENT, tag_row_UPDATE_CHILD, Hrp. simpl.
      rewrite Z.eqb_refl.
      replace (child_tags
                 (if Z.eqb kp kt
                  then set_parent_tags
                         (serializeStrings (ps ++ [parentTagID]) ";")
                         (set_child_tags
                            (serializeStrings (cs ++ [tagID]) ";") rp)
                  else set_child_tags
                         (serializeStrings (cs ++ [tagID]) ";") rp))
        with (Some (serializeStrings (cs ++ [tagID]) ";"))
        by (destruct (Z.eqb kp kt); reflexivity).
      rewrite roundtrip_good; auto.
      apply forallb_snoc; auto. rewrite Htt. apply good_id_to_text.
    + unfold getParentTagIDs, GET_PARENT_TAG_IDS.
      rewrite Hst, executeSV_tag_row.
      rewrite tag_row_UPDATE_PARENT, tag_row_UPDATE_CHILD, Hrt. simpl.
      rewrite Z.eqb_refl. simpl.
      rewrite roundtrip_good; auto.
      apply forallb_snoc; auto. rewrite Htp. apply good_id_to_text.
Qed.

(** ** Renaming in tag view *)

Lemma vec_erase_In x y l : In y (vec_erase x l) -> In y l.
Proof.
  induction l as [|z l IH]; simpl; auto.
  destruct (String.eqb x z); simpl; intuition.
Qed.

Lemma vec_erase_NoDup x l : NoDup l -> ~ In x (vec_erase x l).
Proof.
  induction 1 as [|z l Hz Hl IH]; simpl; auto.
  destruct (String.eqb_spec x z) as [->|Hne]; auto.
  simpl. intros [C|C]; [congruence|auto].
Qed.

Lemma forallb_vec_erase (f : string -> bool) x l :
  forallb f l = true -> forallb f (vec_erase x l) = true.
Proof.
  rewrite !forallb_forall. intros H y Hy. apply H.
  now apply vec_erase_In in Hy.
Qed.

(** A file found by name under a tag is in the list of the tag and bears
    the name. *)
Lemma findTaggedFile_found st name l x :
  findTaggedFile st name l = Some x -> x <> "" ->
  In x l /\ getFilenameFromID st x = Some name.
Proof.
  induction l as [|y l IH]; simpl; [congruence|].
  destruct (getFilenameFromID st y) as [n|] eqn:E; [|discriminate].
  destruct (String.eqb_spec name n) as [->|Hne].
  - intros [= <-] _. auto.
  - intros H Hx. destruct (IH H Hx). auto.
Qed.


Lemma filenamesOfIDs_UPDATE_FILES st text k l :
  filenamesOfIDs (UPDATE_TAG_FILE_IDS st text k) l = filenamesOfIDs st l.
Proof. induction l as [|y l IH]; simpl; auto. now rewrite IH. Qed.

Section RenameTagged.

Variable fuel : nat.


End RenameTagged.

(** ** Searching by tags *)

Lemma str_lt_trans a b c : str_lt a b -> str_lt b c -> str_lt a c.
Proof.
  unfold str_lt. intros H1 H2.
  apply OrderedTypeEx.String_as_OT.cmp_lt in H1, H2.
  apply OrderedTypeEx.String_as_OT.cmp_lt.
  eapply OrderedTypeEx.String_as_OT.lt_trans; eauto.
Qed.

Lemma str_lt_irrefl a : ~ str_lt a a.
Proof.
  unfold str_lt. intros H.
  assert (String.compare a a = Eq)
    by now apply OrderedTypeEx.String_as_OT.cmp_eq.
  congruence.
Qed.

Lemma str_gt_lt a b : String.compare a b = Gt -> str_lt b a.
Proof.
  unfold str_lt. intros H. rewrite String.compare_antisym, H. reflexivity.
Qed.

Lemma set_insert_sorted x s :
  StronglySorted str_lt s -> StronglySorted str_lt (set_insert x s).
Proof.
  induction 1 as [|y s Hs IH Hy]; simpl.
  - repeat constructor.
  - destruct (String.compare x y) eqn:E.
    + now constructor.
    + constructor; [now constructor|]. constructor; auto.
      rewrite Forall_forall in *. intros z Hz.
      eapply str_lt_trans; [exact E|]. now apply Hy.
    + constructor; auto. rewrite Forall_forall in *. intros z Hz.
      apply set_insert_In in Hz. destruct Hz as [->|Hz]; auto.
      now apply str_gt_lt.
Qed.

(** A strictly increasing list is determined by its members. *)
Lemma sorted_ext l1 : forall l2,
  StronglySorted str_lt l1 -> StronglySorted str_lt l2 ->
  (forall x, In x l1 <-> In x l2) -> l1 = l2.
Proof.
  induction l1 as [|a l1 IH]; intros l2 S1 S2 H.
  - destruct l2 as [|b l2]; auto. destruct (proj2 (H b)); now left.
  - destruct l2 as [|b l2]; [destruct (proj1 (H a)); now left|].
    inversion S1 as [|? ? S1' F1]; subst.
    inversion S2 as [|? ? S2' F2]; subst.
    rewrite Forall_forall in F1, F2.
    assert (a = b) as ->.
    { destruct (proj1 (H a) (or_introl eq_refl)) as [E|Ha]; auto.
      destruct (proj2 (H b) (or_introl eq_refl)) as [E|Hb]; auto.
      exfalso. apply (str_lt_irrefl a).
      eapply str_lt_trans; [apply F1, Hb|apply F2, Ha]. }
    f_equal. apply IH; auto. intros x. split; intros Hx.
    + destruct (proj1 (H x) (or_intror Hx)) as [E|Hx']; auto.
      subst x. exfalso. apply (str_lt_irrefl b). now apply F1.
    + destruct (proj2 (H x) (or_intror Hx)) as [E|Hx']; auto.
      subst x. exfalso. apply (str_lt_irrefl b). now apply F2.
Qed.

Lemma fold_set_insert_In l : forall s x,
  In x (fold_left (fun m id => set_insert id m) l s) <-> In x s \/ In x l.
Proof.
  induction l as [|a l IH]; intros s x; simpl.
  - tauto.
  - rewrite IH, set_insert_In. intuition.
Qed.

Lemma fold_set_insert_sorted l : forall s,
  StronglySorted str_lt s ->
  StronglySorted str_lt (fold_left (fun m id => set_insert id m) l s).
Proof.
  induction l as [|a l IH]; intros s Hs; simpl; auto.
  apply IH. now apply set_insert_sorted.
Qed.

Section Search.

Variable fuel : nat.
Variable st : DB.

Lemma anyOfLoop_known tags_ : forall matches,
  (forall tag, In tag tags_ -> exists id fs, tagged_files fuel st tag id fs) ->
  exists r,
    findFileIDsWithAnyOfTagsLoop fuel st tags_ matches = Some r /\
    (StronglySorted str_lt matches -> StronglySorted str_lt r) /\
    (forall x, In x r <->
       In x matches \/
       exists tag id fs,
         In tag tags_ /\ tagged_files fuel st tag id fs /\ In x fs).
Proof.
  induction tags_ as [|tag rest IH]; intros matches H; simpl.
  - exists matches. split; auto. split; auto.
    intros x. split; auto. intros [Hx|(t & _ & _ & [] & _)]. exact Hx.
  - destruct (H tag (or_introl eq_refl)) as (id & fs & Hid & Hne & Hfs).
    rewrite Hid. known_nonempty id.
    rewrite Hfs.
    destruct (IH (fold_left (fun m id0 => set_insert id0 m) fs matches)
                 (fun t Ht => H t (or_intror Ht))) as (r & E & S & M).
    exists r. split; auto. split.
    + intros Hs. apply S. now apply fold_set_insert_sorted.
    + intros x. rewrite M, fold_set_insert_In. split.
      * intros [[Hx|Hx]|(t & i & f & Ht & Htf & Hx)]; auto.
        -- right. exists tag, id, fs. repeat split; auto.
        -- right. exists t, i, f. auto.
      * intros [Hx|(t & i & f & [<-|Ht] & Htf & Hx)]; auto.
        -- destruct Htf as (Hid' & _ & Hfs').
           rewrite Hid in Hid'. injection Hid' as <-.
           rewrite Hfs in Hfs'. injection Hfs' as <-. auto.
        -- right. exists t, i, f. auto.
Qed.

Lemma anyOfLoop_unknown tags_ : forall matches,
  (forall tag, In tag tags_ ->
     getTagID fuel st tag = Some "" \/
     exists id fs, tagged_files fuel st tag id fs) ->
  (exists tag, In tag tags_ /\ getTagID fuel st tag = Some "") ->
  findFileIDsWithAnyOfTagsLoop fuel st tags_ matches = Some [].
Proof.
  induction tags_ as [|tag rest IH]; intros matches H [t [Ht Hu]].
  - destruct Ht.
  - simpl.
    destruct (H tag (or_introl eq_refl))
      as [E|(id & fs & Hid & Hne & Hfs)].
    + rewrite E. reflexivity.
    + rewrite Hid. known_nonempty id.
      rewrite Hfs. apply IH.
      * intros t' Ht'. apply H. now right.
      * destruct Ht as [<-|Ht]; [congruence|]. eauto.
Qed.

End Search.

(** Non-strict search, when every lookup returns: the result is empty as
    soon as one name resolves to no tag; otherwise it is the strictly
    increasing list of the ids that occur in the [files_ids] of one of the
    tags, their union. *)
Lemma findFileIDsWithAnyOfTags_union fuel st tags_ :
  (forall tag, In tag tags_ ->
     getTagID fuel st tag = Some "" \/
     exists id fs, tagged_files fuel st tag id fs) ->
  exists r,
    findFileIDsWithAnyOfTags fuel st tags_ = Some r /\
    ((exists tag, In tag tags_ /\ getTagID fuel st tag = Some "") -> r = []) /\
    ((forall tag, In tag tags_ -> getTagID fuel st tag <> Some "") ->
     StronglySorted str_lt r /\
     forall x, In x r <->
       exists tag id fs,
         In tag tags_ /\ tagged_files fuel st tag id fs /\ In x fs).
Proof.
  intros H. unfold findFileIDsWithAnyOfTags.
  destruct tags_ as [|t0 rest].
  { exists []. split; auto. split; auto. intros _. split; [constructor|].
    intros x. split; [intros []|intros (t & _ & _ & [] & _)]. }
  set (tags_ := t0 :: rest) in *.
  assert (D : (exists tag, In tag tags_ /\ getTagID fuel st tag = Some "")
              \/ (forall tag, In tag tags_ -> getTagID fuel st tag <> Some "")).
  { clearbody tags_. clear -H. induction tags_ as [|t l IH].
    - right. intros t [].
    - destruct (H t (or_introl eq_refl)) as [E|(id & fs & E & Hne & _)].
      + left. exists t. split; auto. now left.
      + destruct IH as [(u & Hu & Eu)|N].
        * intros u Hu. apply H. now right.
        * left. exists u. split; auto. now right.
        * right. intros u [<-|Hu]; auto. rewrite E. congruence. }
  destruct D as [U|K].
  - exists []. split; [now apply anyOfLoop_unknown|]. split; auto.
    intros N. destruct U as (u & Hu & Eu). now apply N in Hu.
  - destruct (anyOfLoop_known fuel st tags_ []) as (r & E & S & M).
    { intros t Ht. destruct (H t Ht) as [C|T]; auto. now apply K in Ht. }
    exists r. split; auto. split.
    + intros (u & Hu & Eu). now apply K in Hu.
    + intros _. split; [apply S; constructor|].
      intros x. rewrite M. split; [intros [[]|Hx]|]; auto.
Qed.

(** The result of the non-strict search does not depend on the order of the
    tags. *)
Lemma findFileIDsWithAnyOfTags_permutation fuel st tags1 tags2 :
  Permutation tags1 tags2 ->
  (forall tag, In tag tags1 ->
     getTagID fuel st tag = Some "" \/
     exists id fs, tagged_files fuel st tag id fs) ->
  exists r,
    findFileIDsWithAnyOfTags fuel st tags1 = Some r /\
    findFileIDsWithAnyOfTags fuel st tags2 = Some r.
Proof.
  intros P H1.
  assert (H2 : forall tag, In tag tags2 ->
                 getTagID fuel st tag = Some "" \/
                 exists id fs, tagged_files fuel st tag id fs).
  { intros t Ht. apply H1.
    eapply Permutation_in; [symmetry; exact P|exact Ht]. }
  destruct (findFileIDsWithAnyOfTags_union fuel st tags1 H1)
    as (r1 & E1 & U1 & K1).
  destruct (findFileIDsWithAnyOfTags_union fuel st tags2 H2)
    as (r2 & E2 & U2 & K2).
  exists r1. split; auto. rewrite E2. f_equal.
  assert (D : (exists tag, In tag tags1 /\ getTagID fuel st tag = Some "")
              \/ (forall tag, In tag tags1 -> getTagID fuel st tag <> Some "")).
  { clear -H1. induction tags1 as [|t l IH].
    - right. intros t [].
    - destruct (H1 t (or_introl eq_refl)) as [E|(id & fs & E & Hne & _)].
      + left. exists t. split; auto. now left.
      + destruct IH as [(u & Hu & Eu)|N].
        * intros u Hu. apply H1. now right.
        * left. exists u. split; auto. now right.
        * right. intros u [<-|Hu]; auto. rewrite E. congruence. }
  destruct D as [(u & Hu & Eu)|K].
  - rewrite U1 by eauto. rewrite U2; auto.
    exists u. split; auto. exact (Permutation_in _ P Hu).
  - destruct (K1 K) as [S1 M1].
    destruct K2 as [S2 M2].
    { intros t Ht. apply K.
      eapply Permutation_in; [symmetry; exact P|exact Ht]. }
    apply sorted_ext; auto. intros x. rewrite M1, M2.
    split; intros (t & i & f & Ht & Htf & Hx); exists t, i, f;
      (split; [|split; assumption]).
    + exact (Permutation_in _ (Permutation_sym P) Ht).
    + exact (Permutation_in _ P Ht).
Qed.

Lemma str_le_leb a b : String.leb a b = true <-> str_le a b.
Proof.
  unfold String.leb, str_le. destruct (String.compare a b); split;
    intros; congruence.
Qed.

Lemma compare_refl a : String.compare a a = Eq.
Proof. now apply OrderedTypeEx.String_as_OT.cmp_eq. Qed.

Lemma str_le_cases a b : str_le a b <-> str_lt a b \/ a = b.
Proof.
  unfold str_le, str_lt. split.
  - destruct (String.compare a b) eqn:E; intros H; try congruence; auto.
    right. now apply OrderedTypeEx.String_as_OT.cmp_eq.
  - intros [H| ->]; [congruence|]. rewrite compare_refl. discriminate.
Qed.

Lemma str_lt_le_trans a b c : str_lt a b -> str_le b c -> str_lt a c.
Proof.
  intros H1 H2. apply str_le_cases in H2. destruct H2 as [H2| <-]; auto.
  eapply str_lt_trans; eauto.
Qed.

Lemma str_le_total a b : str_le a b \/ str_le b a.
Proof.
  unfold str_le. rewrite (String.compare_antisym b a).
  destruct (String.compare a b); simpl; [left|left|right]; discriminate.
Qed.

Lemma str_le_trans a b c : str_le a b -> str_le b c -> str_le a c.
Proof.
  intros H1 H2. apply str_le_cases in H1. destruct H1 as [H1| ->]; auto.
  apply str_le_cases. left. eapply str_lt_le_trans; eauto.
Qed.

Lemma sort_insert_In x y l : In y (sort_insert x l) <-> y = x \/ In y l.
Proof.
  induction l as [|z l IH]; simpl.
  - intuition.
  - destruct (String.leb x z); simpl; [intuition|]. rewrite IH. intuition.
Qed.

Lemma sort_insert_sorted x l :
  StronglySorted str_le l -> StronglySorted str_le (sort_insert x l).
Proof.
  induction 1 as [|z l Hl IH Hz]; simpl.
  - repeat constructor.
  - destruct (String.leb x z) eqn:E.
    + apply str_le_leb in E. constructor; [now constructor|].
      constructor; auto. rewrite Forall_forall in *. intros w Hw.
      eapply str_le_trans; [exact E|]. now apply Hz.
    + constructor; auto. rewrite Forall_forall in *. intros w Hw.
      apply sort_insert_In in Hw. destruct Hw as [->|Hw]; auto.
      destruct (str_le_total x z) as [C|C]; auto.
      apply str_le_leb in C. congruence.
Qed.

Lemma sort_In l x : In x (sort l) <-> In x l.
Proof.
  unfold sort. induction l as [|a l IH]; simpl; [tauto|].
  rewrite sort_insert_In, IH. intuition.
Qed.

Lemma sort_sorted l : StronglySorted str_le (sort l).
Proof.
  unfold sort. induction l as [|a l IH]; simpl; [constructor|].
  now apply sort_insert_sorted.
Qed.

(** On sorted ranges [std::set_intersection] writes the common members. *)
Lemma set_intersection_In l1 : forall l2 x,
  StronglySorted str_le l1 -> StronglySorted str_le l2 ->
  (In x (set_intersection l1 l2) <-> In x l1 /\ In x l2).
Proof.
  induction l1 as [|a r1 IH1]; intros l2 x S1 S2.
  - simpl. tauto.
  - inversion S1 as [|? ? S1' F1]; subst. rewrite Forall_forall in F1.
    induction l2 as [|b r2 IH2].
    + simpl. tauto.
    + inversion S2 as [|? ? S2' F2]; subst. rewrite Forall_forall in F2.
      change (set_intersection (a :: r1) (b :: r2))
        with (match String.compare a b with
              | Lt => set_intersection r1 (b :: r2)
              | Eq => a :: set_intersection r1 r2
              | Gt => set_intersection (a :: r1) r2
              end).
      destruct (String.compare a b) eqn:E.
      * apply OrderedTypeEx.String_as_OT.cmp_eq in E. subst b.
        simpl. rewrite (IH1 r2 x S1' S2'). intuition.
      * rewrite (IH1 (b :: r2) x S1' S2). simpl. split; [tauto|].
        intros [[<-|H1] H2]; auto. exfalso.
        destruct H2 as [<-|H2].
        -- unfold str_lt in *. rewrite compare_refl in E. discriminate.
        -- apply (str_lt_irrefl a).
           eapply str_lt_le_trans; [exact E|]. now apply F2.
      * rewrite (IH2 S2'). simpl. split; [tauto|].
        intros [H1 [<-|H2]]; auto. exfalso.
        apply str_gt_lt in E.
        destruct H1 as [<-|H1].
        -- now apply str_lt_irrefl in E.
        -- apply (str_lt_irrefl b).
           eapply str_lt_le_trans; [exact E|]. now apply F1.
Qed.

Section Strict.

Variable fuel : nat.
Variable st : DB.

(** From the second iteration on, what the loop returns has the members of
    [result]: every later intersection is taken with [result] itself and
    appended to it. *)
Lemma strictLoop_members tags_ : forall result,
  (forall tag, In tag tags_ -> exists id fs, tagged_files fuel st tag id fs) ->
  exists r,
    findFileIDsWithTagsLoop fuel st tags_ result result = Some r /\
    forall x, In x r <-> In x result.
Proof.
  induction tags_ as [|tag rest IH]; intros result H; simpl.
  - exists result. split; auto. tauto.
  - destruct (H tag (or_introl eq_refl)) as (id & fs & Hid & Hne & Hfs).
    rewrite Hid. known_nonempty id.
    rewrite Hfs.
    destruct (IH (result ++ set_intersection (sort result) (sort fs))
                 (fun t Ht => H t (or_intror Ht))) as (r & E & M).
    exists r. split; auto. intros x. rewrite M, in_app_iff.
    rewrite set_intersection_In by apply sort_sorted.
    rewrite !sort_In. tauto.
Qed.

(** Strict search over two or more tags that all resolve: as a set, the
    result is the intersection of the first two lists; the lists of the
    later tags do not narrow it. *)
Lemma findFileIDsWithTags_first_two tag0 tag1 rest id0 id1 fs0 fs1 :
  tagged_files fuel st tag0 id0 fs0 ->
  tagged_files fuel st tag1 id1 fs1 ->
  (forall tag, In tag rest -> exists id fs, tagged_files fuel st tag id fs) ->
  exists r,
    findFileIDsWithTags fuel st (tag0 :: tag1 :: rest) = Some r /\
    forall x, In x r <-> In x fs0 /\ In x fs1.
Proof.
  intros (H0 & N0 & F0) (H1 & N1 & F1) H.
  unfold findFileIDsWithTags. rewrite H0.
  known_nonempty id0.
  rewrite F0. simpl. rewrite H1.
  known_nonempty id1.
  rewrite F1.
  destruct (strictLoop_members rest (set_intersection (sort fs0) (sort fs1)) H)
    as (r & E & M).
  exists r. split; auto. intros x. rewrite M.
  rewrite set_intersection_In by apply sort_sorted.
  now rewrite !sort_In.
Qed.

End Strict.

(** ** The scenarios of the specification, run on the model *)

(** Tagging and search: the non-strict search over [R] and [G] finds the
    three files, the strict one file [/y]. *)
Lemma scenario_search :
  run example_root example_fuel unlink_ok initDB two_tags_ops
    = Some two_tags_db /\
  findFileIDsWithAnyOfTags example_fuel two_tags_db ["R"; "G"]
    = Some ["1"; "2"; "3"] /\
  findFileIDsWithTags example_fuel two_tags_db ["R"; "G"] = Some ["2"].
Proof. repeat split; reflexivity. Qed.

(** Nest cycle rejection: with [B] under [A] and [C] under [B], nesting [A]
    under [C] fails the cycle check and leaves the store as it is. *)
Lemma scenario_nest_cycle :
  run example_root example_fuel unlink_ok initDB nested_ops
    = Some nested_db /\
  step example_root example_fuel unlink_ok nested_db (OpNestTag "A" "C")
    = Some (1%Z, nested_db).
Proof. split; reflexivity. Qed.

(** Delete-tag guard: a tag with a tagged file is not deleted; once the
    file is untagged it is. *)
Lemma scenario_delete_tag :
  option_map fst
    (step example_root example_fuel unlink_ok tagview_db (OpDeleteTag "R"))
    = Some ENOTEMPTY /\
  exists st,
    step example_root example_fuel unlink_ok tagview_db
         (OpUntagFiles "/x" "R") = Some (0%Z, st) /\
    option_map fst
      (step example_root example_fuel unlink_ok st (OpDeleteTag "R"))
      = Some 0%Z.
Proof.
  split; [reflexivity|]. eexists. split; reflexivity.
Qed.

(** Tag-view rename: [/R/x] to [/G/x] moves the file from [R] to [G];
    [/R/x] to [/G/y] fails. *)
Lemma scenario_tagview_rename :
  (exists st,
     renameTaggedPath example_fuel tagview_db "/R/x" "/G/x"
       = Some (0%Z, st) /\
     getFileIDsUnderTagID st "2" = Some [] /\
     getFileIDsUnderTagID st "3" = Some ["1"]) /\
  renameTaggedPath example_fuel tagview_db "/R/x" "/G/y"
    = Some (1%Z, tagview_db).
Proof.
  split; [|reflexivity]. eexists. repeat split; reflexivity.
Qed.

(** ** The example stores are reachable *)

Lemma search_db_reachable : reachable search_db.
Proof.
  exists example_root, example_fuel, unlink_ok, search_ops. reflexivity.
Qed.

Lemma cycle_db_reachable : reachable cycle_db.
Proof.
  exists example_root, example_fuel, unlink_ok, cycle_ops. reflexivity.
Qed.

Lemma twin_db_reachable : reachable twin_db.
Proof.
  exists example_root, example_fuel, unlink_ok, twin_ops. reflexivity.
Qed.

Lemma rename_db_reachable : reachable rename_db.
Proof.
  exists example_root, example_fuel, unlink_ok, rename_ops. reflexivity.
Qed.

(** ** Witnesses *)

Lemma deleteFolder_spec_witness :
  tag_ids_fit folder_db = true /\
  exists folderID,
    getFolderID folder_db (splitPathIntoParts "/docs") = Some folderID /\
    (folderID <> "" ->
     exists fid r st',
       folderID = to_text fid /\
       deleteFolder folder_db "/docs" = Some (r, st') /\
       (r = ENOTEMPTY <->
        exists f, In f (files folder_db) /\ file_parent_folder f = fid)).
Proof.
  split; [reflexivity|].
  destruct (deleteFolder_spec folder_db "/docs" eq_refl)
    as (folderID & E & _ & H).
  exists folderID. split; [exact E|]. intros Hne.
  destruct (H Hne) as (fid & r & st' & E1 & E2 & E3 & _).
  exists fid, r, st'. auto.
Defined.

Lemma deleteFile_unlink_failure_witness :
  deleteFile example_root unlink_denied rename_db "/b" None
  = Some (EACCES, rename_db, None).
Proof.
  apply (deleteFile_unlink_failure example_root unlink_denied rename_db "/b"
           None "1" "TEMP000000002" EACCES).
  - reflexivity.
  - discriminate.
  - reflexivity.
  - discriminate.
  - vm_compute. lia.
  - reflexivity.
  - discriminate.
Defined.

Lemma nestTag_spec_witness :
  exists n, forall fuel, n <= fuel ->
  exists r st',
    nestTag fuel chain_db "2" "4" = Some (r, st') /\
    (r = 1%Z <-> ancestor chain_db "4" "2") /\
    (r <> 0%Z -> st' = chain_db).
Proof.
  destruct (nestTag_spec chain_db "2" "4") as [n Hn].
  - right. reflexivity.
  - right. reflexivity.
  - apply walk_node with (ps := ["3"]);
      [discriminate|discriminate|reflexivity|].
    intros p [<-|[]].
    apply walk_node with (ps := ["2"]);
      [discriminate|discriminate|reflexivity|].
    intros p [<-|[]].
    apply walk_node with (ps := ["0"]);
      [discriminate|discriminate|reflexivity|].
    intros p [<-|[]]. apply walk_stop. now right.
  - exists n. intros fuel Hfuel.
    destruct (Hn fuel Hfuel) as (r & st' & E & _ & H & U).
    exists r, st'. split; [exact E|]. split; [|exact U].
    destruct H as (cs & ps & Ec & Ep & _ & Hcyc & _);
      [split; discriminate|].
    apply Hcyc.
    vm_compute in Ec. vm_compute in Ep.
    injection Ec as <-. injection Ep as <-.
    intros [[]|[C|[]]]; discriminate.
Defined.


(** ** The rename that replaces a file, when the delete succeeds *)

(** With [unlink] succeeding, the tag that listed the overwritten file 2
    lists the renamed file 1 afterwards, and one row named [b] is left. *)
Lemma renamePath_reattaches_saved_tags :
  exists st',
    renamePath example_root example_fuel unlink_ok rename_db "/a" "/b"
      = Some (0%Z, st') /\
    getFileIDsUnderTagID st' "2" = Some ["1"] /\
    map filename (files st') = ["b"].
Proof.
  eexists. split; [reflexivity|]. split; reflexivity.
Qed.

(** ** Where the code departs from the specification *)

(** C3 -- the cycle check of [nestTag], evaluated on the reserved root.
    From the initial store, [createTag A] and then the request to nest [/]
    under [A] (the query [QH_NEST /,A]): both names resolve, to the root
    ["0"] and to ["2"]; the edge is on neither side; the root is reached
    from [A] along [parent_tags], so it is in the closure that includes the
    parent itself, while the set that [getAncestorTagIDs] collects for [A]
    is [A] alone.  [nestTag "0" "2"] passes the cycle check and returns
    [0], the query is answered with the text of success, and in the store
    that results tag 2 lists 0 in its [child_tags] and the root lists 2: a
    cycle.  On the initial store [nestTag "0" "0"] returns [0] as well and
    makes the root its own child.  So the check does not fail exactly when
    the child is in the closure of [parent_tags] from the parent. *)
Theorem nestTag_accepts_root_as_child :
  run example_root example_fuel unlink_ok initDB [OpCreateTag "A"]
    = Some single_db /\
  run example_root example_fuel unlink_ok initDB root_nested_ops
    = Some root_nested_db /\
  getTagID example_fuel single_db "/" = Some "0" /\
  getTagID example_fuel single_db "A" = Some "2" /\
  ~ child_edge single_db "2" "0" /\
  ~ parent_edge single_db "0" "2" /\
  closure_ancestor single_db "2" "0" /\
  getAncestorTagIDs example_fuel single_db "2" [] = Some ["2"] /\
  nestTag example_fuel single_db "0" "2" = Some (0%Z, root_nested_db) /\
  dispatch example_root example_fuel unlink_ok false truncate_ok update_ok
    0%Z single_db (received "QH_NEST /,A")
    = Some (true, 1%Z, root_nested_db,
            [ToQuery "Tag successfully nested." true]) /\
  child_edge root_nested_db "2" "0" /\
  child_edge root_nested_db "0" "2" /\
  ~ acyclic root_nested_db /\
  (closure_ancestor initDB "0" "0" /\
   exists st',
     nestTag example_fuel initDB "0" "0" = Some (0%Z, st') /\
     child_edge st' "0" "0" /\ parent_edge st' "0" "0") /\
  ~ nestTag_cycle_check_as_stated.
Proof.
  assert (Hc : ~ child_edge single_db "2" "0").
  { intros [cs [Hcs Hin]]. vm_compute in Hcs.
    injection Hcs as <-. destruct Hin. }
  assert (Hp : ~ parent_edge single_db "0" "2").
  { intros [ps [Hps Hin]]. vm_compute in Hps.
    injection Hps as <-. destruct Hin. }
  assert (Hcl : closure_ancestor single_db "2" "0").
  { apply closure_parent with (ps := ["0"]) (p := "0");
      [reflexivity|now left|constructor]. }
  assert (Hn : nestTag example_fuel single_db "0" "2"
               = Some (0%Z, root_nested_db)) by reflexivity.
  assert (E20 : child_edge root_nested_db "2" "0")
    by (exists ["0"]; split; [reflexivity|now left]).
  assert (E02 : child_edge root_nested_db "0" "2")
    by (exists ["2"]; split; [reflexivity|now left]).
  split; [reflexivity|]. split; [reflexivity|].
  split; [reflexivity|]. split; [reflexivity|].
  split; [exact Hc|]. split; [exact Hp|]. split; [exact Hcl|].
  split; [reflexivity|]. split; [exact Hn|].
  split; [vm_compute; reflexivity|].
  split; [exact E20|]. split; [exact E02|]. split; [|split].
  - intros H. apply (H "2").
    apply child_path_step with (c := "0"); [exact E20|].
    apply child_path_edge. exact E02.
  - split; [constructor|].
    eexists. split; [reflexivity|]. split.
    + exists ["0"]. split; [reflexivity|now left].
    + exists ["0"]. split; [reflexivity|now left].
  - intros Claim.
    assert (0%Z = 1%Z) as C.
    { apply (Claim example_fuel single_db "0" "2" 0%Z root_nested_db);
        try discriminate; assumption. }
    discriminate C.
Qed.


(** C1 -- strict search, evaluated.  In a store reached by tagging [/x]
    and [/y] with [A] and [B] and [/y] alone with [C], all three names
    resolve and the [files_ids] lists are [1;2], [1;2] and [2], so the
    intersection is the single file 2; [findFileIDsWithTags] on
    [A; B; C] returns [1; 2; 2]: file 1, which [C] does not tag, and
    file 2 twice.  The vector [result] is never cleared between
    iterations. *)
Theorem findFileIDsWithTags_keeps_earlier_matches :
  reachable search_db /\
  getTagID example_fuel search_db "A" = Some "2" /\
  getTagID example_fuel search_db "B" = Some "3" /\
  getTagID example_fuel search_db "C" = Some "4" /\
  getFileIDsUnderTagID search_db "2" = Some ["1"; "2"] /\
  getFileIDsUnderTagID search_db "3" = Some ["1"; "2"] /\
  getFileIDsUnderTagID search_db "4" = Some ["2"] /\
  findFileIDsWithTags example_fuel search_db ["A"; "B"; "C"]
    = Some ["1"; "2"; "2"] /\
  ~ (forall x, In x ["1"; "2"; "2"] <->
               In x ["1"; "2"] /\ In x ["1"; "2"] /\ In x ["2"]).
Proof.
  split; [exact search_db_reachable|].
  repeat (split; [reflexivity|]).
  intros H. destruct (H "1") as [H1 _].
  destruct H1 as (_ & _ & [C|[]]); [now left|discriminate].
Qed.

(** C2 -- strict search under a permutation, evaluated.  In the same
    store, [A; C; B] is a permutation of [A; B; C], and
    [findFileIDsWithTags] returns [1; 2; 2] for the one and [2; 2] for the
    other: not the same multiset. *)
Theorem findFileIDsWithTags_depends_on_order :
  reachable search_db /\
  Permutation ["A"; "B"; "C"] ["A"; "C"; "B"] /\
  findFileIDsWithTags example_fuel search_db ["A"; "B"; "C"]
    = Some ["1"; "2"; "2"] /\
  findFileIDsWithTags example_fuel search_db ["A"; "C"; "B"]
    = Some ["2"; "2"] /\
  ~ Permutation ["1"; "2"; "2"] ["2"; "2"].
Proof.
  split; [exact search_db_reachable|].
  split; [apply perm_skip, perm_swap|].
  split; [reflexivity|]. split; [reflexivity|].
  intros P. apply Permutation_length in P. discriminate.
Qed.

(** C4 -- acyclicity, evaluated.  Three [createTag] requests from the
    initial store ([b], then [/b/a], then [/a/b]) lead to a store where tag
    2 lists 3 in its [child_tags] and tag 3 lists 2: the graph of
    [child_tags] has a cycle. *)
Theorem createTag_closes_cycle :
  run example_root example_fuel unlink_ok initDB cycle_ops = Some cycle_db /\
  child_edge cycle_db "2" "3" /\
  child_edge cycle_db "3" "2" /\
  ~ acyclic cycle_db.
Proof.
  assert (E23 : child_edge cycle_db "2" "3")
    by (exists ["3"]; split; [reflexivity|now left]).
  assert (E32 : child_edge cycle_db "3" "2")
    by (exists ["2"]; split; [reflexivity|now left]).
  split; [reflexivity|]. split; [exact E23|]. split; [exact E32|].
  intros H. apply (H "2").
  apply child_path_step with (c := "3"); [exact E23|].
  apply child_path_edge. exact E32.
Qed.

(** C5 -- edge symmetry, evaluated.  Three [createTag] requests from the
    initial store ([a], then [b], then [/a/b]) lead to a store where tag 2
    lists tag 3 in its [child_tags] while tag 3 does not list tag 2 in its
    [parent_tags]. *)
Theorem createTag_breaks_edge_symmetry :
  run example_root example_fuel unlink_ok initDB twin_ops = Some twin_db /\
  In "2" (tag_ids twin_db) /\ In "3" (tag_ids twin_db) /\
  child_edge twin_db "2" "3" /\
  ~ parent_edge twin_db "3" "2" /\
  ~ edge_symmetric twin_db.
Proof.
  assert (I2 : In "2" (tag_ids twin_db)) by (vm_compute; tauto).
  assert (I3 : In "3" (tag_ids twin_db)) by (vm_compute; tauto).
  assert (E : child_edge twin_db "2" "3")
    by (exists ["3"]; split; [reflexivity|now left]).
  assert (N : ~ parent_edge twin_db "3" "2").
  { intros [ps [Hps Hin]]. vm_compute in Hps. injection Hps as <-.
    destruct Hin as [C|[]]. discriminate. }
  split; [reflexivity|]. split; [exact I2|]. split; [exact I3|].
  split; [exact E|]. split; [exact N|].
  intros S. apply N. now apply (S "2" "3" I2 I3).
Qed.

(** C6 -- rename over an existing file, evaluated.  In a store with files
    [/a] (id 1) and [/b] (id 2) and a tag (id 2) whose [files_ids] is [2],
    let [unlink] fail.  [deleteFile "/b"] then returns the error and deletes
    nothing, [renamePath "/a" "/b"] drops that value, renames and returns
    [0]: afterwards the tag still lists the overwritten file 2 and does not
    list the renamed file 1, and two rows of [files] are named [b]. *)
Theorem renamePath_drops_failed_delete :
  reachable rename_db /\
  getFileID rename_db "a" "1" = Some "1" /\
  getFileID rename_db "b" "1" = Some "2" /\
  getFileIDsUnderTagID rename_db "2" = Some ["2"] /\
  deleteFile example_root unlink_denied rename_db "/b" (Some [])
    = Some (EACCES, rename_db, Some []) /\
  exists st',
    renamePath example_root example_fuel unlink_denied rename_db "/a" "/b"
      = Some (0%Z, st') /\
    getFileIDsUnderTagID st' "2" = Some ["2"] /\
    map filename (files st') = ["b"; "b"].
Proof.
  split; [exact rename_db_reachable|].
  repeat (split; [reflexivity|]).
  eexists. split; [reflexivity|]. split; reflexivity.
Qed.

(* ================================================================== *)
(** * Part III: further properties of the code                         *)
(* ================================================================== *)

(** ** Paths *)

Lemma occurs_append c s1 s2 :
  occurs c (s1 +s+ s2) = occurs c s1 || occurs c s2.
Proof.
  induction s1 as [|a s1 IH]; simpl; auto.
  rewrite IH. now rewrite orb_assoc.
Qed.

Lemma find_first_of_none s c :
  find_first_of s c = None <-> occurs c s = false.
Proof.
  induction s as [|a s IH]; simpl; [tauto|].
  destruct (Ascii.eqb a c); simpl; [split; discriminate|].
  destruct (find_first_of s c); [split; [discriminate|]|tauto].
  intros H. apply IH in H. discriminate.
Qed.

Lemma find_first_of_some s c p :
  find_first_of s c = Some p ->
  exists a b, s = a +s+ String c b /\ occurs c a = false /\
              String.length a = p.
Proof.
  revert p. induction s as [|x s IH]; simpl; intros p H; [discriminate|].
  destruct (Ascii.eqb_spec x c) as [->|Hne].
  - injection H as <-. exists "", s. auto.
  - destruct (find_first_of s c) as [q|]; [|discriminate].
    injection H as <-. destruct (IH q eq_refl) as (a & b & -> & Ha & Hl).
    exists (String x a), b. simpl.
    destruct (Ascii.eqb_spec x c); [congruence|]. simpl. auto.
Qed.

Lemma find_first_of_append a b c :
  occurs c a = false ->
  find_first_of (a +s+ String c b) c = Some (String.length a).
Proof.
  induction a as [|x a IH]; simpl; intros H.
  - now rewrite Ascii.eqb_refl.
  - apply orb_false_iff in H. destruct H as [Hx Ha].
    rewrite Hx, IH by exact Ha. reflexivity.
Qed.

Lemma find_last_of_none s c :
  find_last_of s c = None <-> occurs c s = false.
Proof.
  induction s as [|a s IH]; simpl; [tauto|].
  destruct (find_last_of s c).
  - split; [discriminate|]. intros H. apply orb_false_iff in H.
    destruct H as [_ H]. apply IH in H. discriminate.
  - destruct (Ascii.eqb a c); simpl; [split; discriminate|]. tauto.
Qed.

Lemma find_last_of_append a b c :
  occurs c b = false ->
  find_last_of (a +s+ String c b) c = Some (String.length a).
Proof.
  intros Hb. induction a as [|x a IH]; simpl.
  - apply find_last_of_none in Hb. rewrite Hb.
    now rewrite Ascii.eqb_refl.
  - now rewrite IH.
Qed.

Lemma find_last_of_some s c p :
  find_last_of s c = Some p ->
  exists a b, s = a +s+ String c b /\ occurs c b = false /\
              String.length a = p.
Proof.
  revert p. induction s as [|x s IH]; simpl; intros p H; [discriminate|].
  destruct (find_last_of s c) as [q|] eqn:E.
  - injection H as <-. destruct (IH q eq_refl) as (a & b & -> & Hb & Hl).
    exists (String x a), b. simpl. auto.
  - destruct (Ascii.eqb_spec x c) as [->|Hne]; [|discriminate].
    injection H as <-. exists "", s. split; auto. split; auto.
    now apply find_last_of_none.
Qed.

Lemma substring_all s : substring 0 (String.length s) s = s.
Proof. induction s; simpl; congruence. Qed.

Lemma substring_prefix a b : substring 0 (String.length a) (a +s+ b) = a.
Proof.
  induction a as [|x a IH]; simpl.
  - destruct b; reflexivity.
  - now rewrite IH.
Qed.

Lemma substring_skip a b n :
  substring (String.length a) n (a +s+ b) = substring 0 n b.
Proof. induction a as [|x a IH]; simpl; auto. Qed.

Lemma substr_from_0 s : substr_from s 0 = s.
Proof.
  unfold substr_from. rewrite Nat.sub_0_r. apply substring_all.
Qed.

Lemma substr_from_append a c b :
  substr_from (a +s+ String c b) (String.length a + 1) = b.
Proof.
  unfold substr_from. rewrite length_append. simpl.
  replace (String.length a + S (String.length b) - (String.length a + 1))
    with (String.length b) by lia.
  replace (a +s+ String c b) with ((a +s+ String c "") +s+ b)
    by (rewrite append_assoc; reflexivity).
  replace (String.length a + 1) with (String.length (a +s+ String c ""))
    by (rewrite length_append; simpl; lia).
  rewrite substring_skip. apply substring_all.
Qed.

Lemma getFilename_append dir name :
  occurs "/" name = false -> getFilename (dir +s+ "/" +s+ name) = name.
Proof.
  intros Hn. unfold getFilename.
  change (dir +s+ "/" +s+ name) with (dir +s+ String "/" name).
  rewrite find_last_of_append by exact Hn.
  apply substr_from_append.
Qed.

(** X1 -- [getFilename].  For every path the result holds no slash; a path
    without a slash is returned whole; when a slash is found at [p] (the
    last one), the path is the text before [p], a slash and the result; and
    for every [dir] and every slash-free [name] the file name of
    [dir/name] is [name]. *)
Theorem getFilename_spec (path : string) :
  occurs "/" (getFilename path) = false /\
  (occurs "/" path = false -> getFilename path = path) /\
  (forall p, find_last_of path "/" = Some p ->
     path = substring 0 p path +s+ "/" +s+ getFilename path) /\
  (forall dir name, path = dir +s+ "/" +s+ name ->
     occurs "/" name = false -> getFilename path = name).
Proof.
  unfold getFilename. split; [|split; [|split]].
  - destruct (find_last_of path "/") as [p|] eqn:E.
    + destruct (find_last_of_some _ _ _ E) as (a & b & -> & Hb & <-).
      now rewrite substr_from_append.
    + rewrite substr_from_0. now apply find_last_of_none.
  - intros H. apply find_last_of_none in H. rewrite H.
    apply substr_from_0.
  - intros p E. rewrite E.
    destruct (find_last_of_some _ _ _ E) as (a & b & -> & Hb & <-).
    now rewrite substr_from_append, substring_prefix.
  - intros dir name -> Hn. now apply getFilename_append.
Qed.

(** X2 -- [splitAtFirstOccurance].  For every source and character:
    either the character does not occur and the result is the source alone,
    or the result has exactly two elements [a] and [b] with
    [source = a + character + b] and no occurrence of the character in
    [a]. *)
Theorem splitAtFirstOccurance_spec (source : string) (character : ascii) :
  (occurs character source = false /\
   splitAtFirstOccurance source character = [source]) \/
  (exists a b,
     source = a +s+ String character b /\
     occurs character a = false /\
     splitAtFirstOccurance source character = [a; b]).
Proof.
  unfold splitAtFirstOccurance.
  destruct (find_first_of source character) as [p|] eqn:E.
  - right. destruct (find_first_of_some _ _ _ E) as (a & b & -> & Ha & <-).
    exists a, b. split; auto. split; auto.
    now rewrite substring_prefix, substr_from_append.
  - left. split; auto. now apply find_first_of_none.
Qed.

Theorem splitAtFirstOccurance_join (a b : string) (character : ascii) :
  occurs character a = false ->
  splitAtFirstOccurance (a +s+ String character b) character = [a; b].
Proof.
  intros Ha. unfold splitAtFirstOccurance.
  rewrite find_first_of_append by exact Ha.
  now rewrite substring_prefix, substr_from_append.
Qed.

Lemma joinComponents_cons x y r :
  joinComponents (x :: y :: r) = x +s+ String "/" (joinComponents (y :: r)).
Proof. reflexivity. Qed.

Lemma joinComponents_snoc v x :
  v <> [] -> joinComponents (v ++ [x]) = joinComponents v +s+ "/" +s+ x.
Proof.
  induction v as [|a v IH]; [congruence|]. intros _.
  destruct v as [|b v]; [reflexivity|].
  change (joinComponents ((a :: b :: v) ++ [x]))
    with (a +s+ String "/" (joinComponents ((b :: v) ++ [x]))).
  rewrite IH by discriminate. rewrite joinComponents_cons.
  rewrite append_assoc. reflexivity.
Qed.

(** Every string is a sequence of slash-free components. *)
Lemma components_exist s :
  exists v, v <> [] /\ Forall slash_free v /\ s = joinComponents v.
Proof.
  induction s as [|a s (v & Hne & Hv & ->)].
  - exists [""]. repeat split; [discriminate|repeat constructor].
  - destruct (Ascii.eqb_spec a "/") as [->|Ha].
    + exists ("" :: v). split; [discriminate|]. split.
      * constructor; [reflexivity|exact Hv].
      * destruct v; [congruence|reflexivity].
    + destruct v as [|x r]; [congruence|].
      exists (String a x :: r). split; [discriminate|]. split.
      * inversion Hv; subst. constructor; auto.
        unfold slash_free in *. simpl.
        destruct (Ascii.eqb_spec a "/"); [congruence|]. auto.
      * destruct r; reflexivity.
Qed.

Lemma splitPathLoop_components v : forall fuel parts,
  Forall slash_free v ->
  String.length (joinComponents v) <= fuel ->
  splitPathLoop fuel (joinComponents v) parts = parts ++ filter nonempty v.
Proof.
  induction v as [|x v IH]; intros fuel parts Hv Hfuel.
  - simpl. destruct fuel; simpl; now rewrite app_nil_r.
  - inversion Hv as [|? ? Hx Hv']; subst.
    destruct v as [|y r].
    + simpl joinComponents in *. simpl filter. unfold nonempty.
      destruct (String.eqb_spec x "") as [->|Hne]; simpl.
      * destruct fuel; simpl; now rewrite app_nil_r.
      * destruct fuel as [|fuel].
        { destruct x; [congruence|]. cbn in Hfuel. lia. }
        simpl. destruct (String.eqb_spec x ""); [congruence|].
        apply find_first_of_none in Hx. now rewrite Hx.
    + rewrite joinComponents_cons in *.
      rewrite length_append in Hfuel.
      change (String.length (String "/" (joinComponents (y :: r))))
        with (S (String.length (joinComponents (y :: r)))) in Hfuel.
      destruct fuel as [|fuel]; [lia|].
      cbn [splitPathLoop].
      destruct (String.eqb_spec (x +s+ String "/" (joinComponents (y :: r))) "")
        as [C|_]; [destruct x; discriminate|].
      rewrite find_first_of_append by exact Hx.
      rewrite substring_prefix, substr_from_append.
      rewrite IH by (auto; lia).
      change (filter nonempty (x :: y :: r))
        with (if negb (String.eqb x "") then x :: filter nonempty (y :: r)
              else filter nonempty (y :: r)).
      destruct (String.eqb x ""); cbn [negb]; auto.
      now rewrite <- app_assoc.
Qed.

Lemma substr_from_1 c s : substr_from (String c s) 1 = s.
Proof. unfold substr_from. simpl. rewrite Nat.sub_0_r. apply substring_all. Qed.

Lemma splitPathIntoParts_absolute s :
  splitPathIntoParts (String "/" s)
  = splitPathLoop (String.length s) s [].
Proof.
  unfold splitPathIntoParts. change (char_at_is (String "/" s) 0 "/") with true.
  cbv iota zeta. now rewrite substr_from_1.
Qed.

Lemma splitPathIntoParts_join (v : list string) :
  Forall slash_free v ->
  splitPathIntoParts ("/" +s+ joinComponents v) = filter nonempty v.
Proof.
  intros Hv. change ("/" +s+ joinComponents v)
    with (String "/" (joinComponents v)).
  rewrite splitPathIntoParts_absolute.
  now rewrite splitPathLoop_components by auto.
Qed.

Lemma absolute_cases path :
  char_at_is path 0 "/" = true -> exists s, path = String "/" s.
Proof.
  unfold char_at_is. destruct path as [|a s]; simpl; [discriminate|].
  destruct (Ascii.eqb_spec a "/") as [->|]; [eauto|discriminate].
Qed.

Lemma nonempty_true x : nonempty x = true <-> x <> "".
Proof.
  unfold nonempty. destruct (String.eqb_spec x ""); simpl; split;
    congruence.
Qed.

(** X3 -- [splitPathIntoParts], shape of the result.  For every path,
    each part returned is non-empty and holds no slash; a path whose first
    character is not a slash has no parts. *)
Theorem splitPathIntoParts_wf (path : string) :
  Forall (fun part => part <> "" /\ occurs "/" part = false)
         (splitPathIntoParts path)
  /\ (char_at_is path 0 "/" = false -> splitPathIntoParts path = []).
Proof.
  split.
  - destruct (char_at_is path 0 "/") eqn:E.
    + destruct (absolute_cases path E) as [s ->].
      destruct (components_exist s) as (v & _ & Hv & ->).
      change (String "/" (joinComponents v))
        with ("/" +s+ joinComponents v).
      rewrite splitPathIntoParts_join by exact Hv.
      apply Forall_forall. intros x Hx. apply filter_In in Hx.
      destruct Hx as [Hin Hne]. split; [now apply nonempty_true|].
      rewrite Forall_forall in Hv. now apply Hv.
    + unfold splitPathIntoParts. rewrite E. constructor.
  - intros E. unfold splitPathIntoParts. now rewrite E.
Qed.

Lemma popBackAndRemove_snoc l x : popBackAndRemove (l ++ [x]) = (x, l).
Proof.
  unfold popBackAndRemove. rewrite rev_app_distr. simpl.
  now rewrite rev_involutive.
Qed.

Lemma filter_nonempty_snoc v x :
  x <> "" -> filter nonempty (v ++ [x]) = filter nonempty v ++ [x].
Proof.
  intros Hx. rewrite filter_app. simpl.
  apply nonempty_true in Hx. now rewrite Hx.
Qed.

(** X4 -- [splitPathIntoParts] undoes the joining of components.  For
    every list [v] of slash-free strings, the path made of a slash and the
    elements of [v] with a slash between neighbours splits into the
    non-empty elements of [v], in order (empty elements are doubled or
    trailing slashes); when no element of [v] is empty the parts are [v]
    itself, also for the path with a slash appended. *)
Theorem splitPathIntoParts_components (v : list string) :
  Forall slash_free v ->
  splitPathIntoParts ("/" +s+ joinComponents v) = filter nonempty v /\
  (Forall (fun x => x <> "") v ->
   splitPathIntoParts ("/" +s+ joinComponents v) = v /\
   splitPathIntoParts ("/" +s+ joinComponents v +s+ "/") = v).
Proof.
  intros Hv. split; [now apply splitPathIntoParts_join|].
  intros Hne. split.
  - rewrite splitPathIntoParts_join by exact Hv.
    now apply filter_nonempty_id.
  - destruct v as [|x r]; [reflexivity|].
    assert (joinComponents (x :: r) +s+ "/"
            = joinComponents ((x :: r) ++ [""])) as ->.
    { rewrite joinComponents_snoc by discriminate. reflexivity. }
    rewrite splitPathIntoParts_join.
    + rewrite filter_app. simpl (filter nonempty [""]).
      rewrite app_nil_r. now apply filter_nonempty_id.
    + apply Forall_app. split; [exact Hv|].
      constructor; [reflexivity|constructor].
Qed.

Lemma splitPathIntoParts_snoc dir name :
  char_at_is (dir +s+ "/" +s+ name) 0 "/" = true ->
  name <> "" -> occurs "/" name = false ->
  splitPathIntoParts (dir +s+ "/" +s+ name)
  = splitPathIntoParts dir ++ [name].
Proof.
  intros Habs Hne Hn. destruct dir as [|a s].
  - change ("" +s+ "/" +s+ name) with ("/" +s+ joinComponents [name]).
    rewrite splitPathIntoParts_join by (constructor; [exact Hn|constructor]).
    simpl. apply nonempty_true in Hne. now rewrite Hne.
  - destruct (absolute_cases _ Habs) as [s' E]. simpl in E.
    injection E as -> _.
    destruct (components_exist s) as (v & Hv0 & Hv & ->).
    change (String "/" (joinComponents v) +s+ "/" +s+ name)
      with ("/" +s+ (joinComponents v +s+ "/" +s+ name)).
    rewrite <- joinComponents_snoc by exact Hv0.
    rewrite splitPathIntoParts_join.
    + change (String "/" (joinComponents v))
        with ("/" +s+ joinComponents v).
      rewrite splitPathIntoParts_join by exact Hv.
      now apply filter_nonempty_snoc.
    + apply Forall_app. split; [exact Hv|].
      constructor; [exact Hn|constructor].
Qed.

Lemma popBack_split_leaf dir name :
  char_at_is (dir +s+ "/" +s+ name) 0 "/" = true ->
  name <> "" -> occurs "/" name = false ->
  popBackAndRemove (splitPathIntoParts (dir +s+ "/" +s+ name))
  = (name, splitPathIntoParts dir).
Proof.
  intros Habs Hne Hn. rewrite splitPathIntoParts_snoc by assumption.
  apply popBackAndRemove_snoc.
Qed.

(** X5 -- parent and leaf of a path.  For an absolute path [dir/name]
    whose [name] is non-empty and slash-free, [popBackAndRemove] on the
    parts of the path returns [name] and leaves the parts of [dir], and
    [getFilename] of the path is [name] too. *)
Theorem path_parent_and_leaf (dir name : string) :
  char_at_is (dir +s+ "/" +s+ name) 0 "/" = true ->
  name <> "" -> occurs "/" name = false ->
  popBackAndRemove (splitPathIntoParts (dir +s+ "/" +s+ name))
  = (name, splitPathIntoParts dir)
  /\ getFilename (dir +s+ "/" +s+ name) = name.
Proof.
  intros Habs Hne Hn. split.
  - now apply popBack_split_leaf.
  - now apply getFilename_append.
Qed.

(** ** Messages *)

Lemma strncpy_length src : forall n, String.length (strncpy src n) = n.
Proof.
  intros n. revert src. induction n as [|n IH]; intros src; simpl; auto.
  destruct src as [|a r]; simpl; [now rewrite IH|].
  destruct (Ascii.eqb a Ascii.zero); simpl; now rewrite IH.
Qed.

Lemma string_of_chars_short src : forall n,
  occurs Ascii.zero src = false -> String.length src < n ->
  string_of_chars (strncpy src n) = Some src.
Proof.
  induction src as [|a r IH]; intros n Hz Hn.
  - destruct n; [lia|]. reflexivity.
  - destruct n as [|n]; [simpl in Hn; lia|].
    simpl in Hz. apply orb_false_iff in Hz. destruct Hz as [Ha Hr].
    simpl. rewrite Ha. simpl. rewrite Ha.
    rewrite IH; auto. simpl in Hn. lia.
Qed.

Lemma string_of_chars_long src : forall n,
  occurs Ascii.zero src = false -> n <= String.length src ->
  string_of_chars (strncpy src n) = None.
Proof.
  induction src as [|a r IH]; intros n Hz Hn.
  - simpl in Hn. assert (n = 0) as -> by lia. reflexivity.
  - destruct n as [|n]; [reflexivity|].
    simpl in Hz. apply orb_false_iff in Hz. destruct Hz as [Ha Hr].
    simpl. rewrite Ha. simpl. rewrite Ha.
    rewrite IH; auto. simpl in Hn. lia.
Qed.

Lemma substring_prefix_length a b n :
  String.length a = n -> substring 0 n (a +s+ b) = a.
Proof. intros <-. apply substring_prefix. Qed.

Lemma length_substr_from s p :
  String.length (substr_from s p) = String.length s - p.
Proof.
  unfold substr_from. revert p. induction s as [|a s IH]; intros p.
  - destruct p; reflexivity.
  - destruct p as [|p].
    + rewrite Nat.sub_0_r. now rewrite substring_all.
    + simpl. apply IH.
Qed.

Lemma deserialize_serialize_message content_ data complete_ :
  deserializeMessage (serializeMessage content_ data complete_)
  = Some (mkMessage complete_ (strncpy content_ CONTENT_SIZE)).
Proof.
  unfold serializeMessage, deserializeMessage. cbn [complete content].
  generalize CONTENT_SIZE. intros n.
  destruct complete_; cbn [append]; cbv beta iota.
  - change (Ascii.eqb "001" Ascii.zero) with false.
    change (Ascii.eqb "001" "001") with true. cbv iota.
    now rewrite substring_prefix_length by apply strncpy_length.
  - change (Ascii.eqb Ascii.zero Ascii.zero) with true. cbv iota.
    now rewrite substring_prefix_length by apply strncpy_length.
Qed.

Lemma content_fits_buffer : 1 + CONTENT_SIZE <= TFS_MQ_MESSAGE_SIZE.
Proof. apply Nat.leb_le. vm_compute. reflexivity. Qed.

Lemma serializeMessage_length content_ data complete_ :
  String.length data = TFS_MQ_MESSAGE_SIZE ->
  String.length (serializeMessage content_ data complete_)
  = TFS_MQ_MESSAGE_SIZE.
Proof.
  intros Hdata. pose proof content_fits_buffer as Hsize.
  unfold serializeMessage. revert Hsize. generalize CONTENT_SIZE.
  intros n Hsize. cbn [complete content append String.length].
  rewrite length_append, strncpy_length, length_substr_from, Hdata. lia.
Qed.

(** X6 -- round trip of a queue message.  For a text without NUL that
    is shorter than [CONTENT_SIZE] and a buffer of [TFS_MQ_MESSAGE_SIZE]
    bytes: [serializeMessage] leaves a buffer of the same size, and
    [deserializeMessage] reads back a [Message] whose flag is the one given
    and whose [content], read as a C string, is the text. *)
Theorem message_roundtrip (content_ data : string) (complete_ : bool) :
  occurs Ascii.zero content_ = false ->
  String.length content_ < CONTENT_SIZE ->
  String.length data = TFS_MQ_MESSAGE_SIZE ->
  String.length (serializeMessage content_ data complete_)
  = TFS_MQ_MESSAGE_SIZE /\
  exists m,
    deserializeMessage (serializeMessage content_ data complete_) = Some m /\
    complete m = complete_ /\
    string_of_chars (content m) = Some content_.
Proof.
  intros Hz Hlen Hdata. split.
  - now apply serializeMessage_length.
  - rewrite deserialize_serialize_message. eexists. split; [reflexivity|].
    split; [reflexivity|]. cbn [content].
    now apply string_of_chars_short.
Qed.

(** X7 -- a message that does not fit.  For a text without NUL of
    [CONTENT_SIZE] characters or more, the [content] that comes back from
    [deserializeMessage] is the first [CONTENT_SIZE] characters of the text
    and holds no NUL: read as a C string it is read past its end. *)
Theorem message_overflow (content_ data : string) (complete_ : bool) :
  occurs Ascii.zero content_ = false ->
  CONTENT_SIZE <= String.length content_ ->
  exists m,
    deserializeMessage (serializeMessage content_ data complete_) = Some m /\
    content m = substring 0 CONTENT_SIZE content_ /\
    string_of_chars (content m) = None.
Proof.
  intros Hz Hlen. rewrite deserialize_serialize_message.
  eexists. split; [reflexivity|]. cbn [content]. split.
  - revert Hz Hlen. generalize CONTENT_SIZE. intros n. revert n.
    induction content_ as [|a r IH]; intros n Hz Hn.
    + simpl in Hn. assert (n = 0) as -> by lia. reflexivity.
    + destruct n as [|n]; [reflexivity|].
      simpl in Hz. apply orb_false_iff in Hz. destruct Hz as [Ha Hr].
      simpl. rewrite Ha. f_equal. apply IH; auto. simpl in Hn. lia.
  - now apply string_of_chars_long.
Qed.

Lemma message_roundtrip_witness :
  String.length (serializeMessage "QH_TAG /x,A" zeroed_buffer true)
  = TFS_MQ_MESSAGE_SIZE /\
  exists m,
    deserializeMessage (serializeMessage "QH_TAG /x,A" zeroed_buffer true)
    = Some m /\
    complete m = true /\
    string_of_chars (content m) = Some "QH_TAG /x,A".
Proof.
  apply (message_roundtrip "QH_TAG /x,A" zeroed_buffer true).
  - reflexivity.
  - apply Nat.ltb_lt. vm_compute. reflexivity.
  - apply strncpy_length.
Defined.

Lemma message_overflow_witness :
  exists m,
    deserializeMessage (serializeMessage long_text zeroed_buffer true)
    = Some m /\
    content m = substring 0 CONTENT_SIZE long_text /\
    string_of_chars (content m) = None.
Proof.
  apply (message_overflow long_text zeroed_buffer true).
  - vm_compute. reflexivity.
  - apply Nat.leb_le. vm_compute. reflexivity.
Defined.

(** ** Creating folders and files *)

Lemma fold_max_le (l : list Z) : forall i x,
  (x = i \/ In x l) -> (x <= fold_left Z.max l i)%Z.
Proof.
  induction l as [|y l IH]; intros i x H; simpl.
  - destruct H as [->|[]]. lia.
  - pose proof (IH (Z.max i y) (Z.max i y) (or_introl eq_refl)) as M.
    destruct H as [E|[E|H]]; [lia|lia|].
    apply IH. now right.
Qed.

(** The rowid of an inserted row is above every rowid in use. *)
Lemma next_rowid_fresh (ids : list Z) x :
  In x ids -> (x < next_rowid ids)%Z.
Proof.
  destruct ids as [|i r]; [intros []|]. intros H. unfold next_rowid.
  assert (x <= fold_left Z.max r i)%Z; [|lia].
  apply fold_max_le. destruct H; auto.
Qed.

Lemma filter_none {A} (f : A -> bool) l :
  (forall x, In x l -> f x = false) -> filter f l = [].
Proof.
  induction l as [|a l IH]; intros H; simpl; auto.
  rewrite (H a (or_introl eq_refl)). apply IH. intros x Hx. apply H.
  now right.
Qed.

Lemma filter_all {A} (f : A -> bool) l :
  (forall x, In x l -> f x = true) -> filter f l = l.
Proof.
  induction l as [|a l IH]; intros H; simpl; auto.
  rewrite (H a (or_introl eq_refl)). f_equal. apply IH. intros x Hx.
  apply H. now right.
Qed.

Lemma filter_empty_none {A} (f : A -> bool) l x :
  filter f l = [] -> In x l -> f x = false.
Proof.
  intros E Hx. destruct (f x) eqn:F; auto.
  assert (In x (filter f l)) as H by (apply filter_In; auto).
  rewrite E in H. inversion H.
Qed.

Lemma getFolderID2_text st name k :
  fits_int k = true ->
  getFolderID2 st name (to_text k) = GET_FOLDER_ID st name k.
Proof. intros Hk. unfold getFolderID2. now rewrite stoi_to_text. Qed.

Lemma getFileID_text st name k :
  fits_int k = true ->
  getFileID st name (to_text k) = GET_FILE_ID st name k.
Proof. intros Hk. unfold getFileID. now rewrite stoi_to_text. Qed.

Lemma getHash_text st name k :
  fits_int k = true ->
  getHash st name (to_text k) = GET_HASH st name k.
Proof. intros Hk. unfold getHash. now rewrite stoi_to_text. Qed.

Lemma GET_FOLDER_ID_empty st name pid :
  GET_FOLDER_ID st name pid = Some "" <-> folders_named st name pid = [].
Proof.
  unfold GET_FOLDER_ID, folders_named.
  destruct (filter _ (tags st)) as [|r l]; simpl; [tauto|].
  split; [|discriminate]. intros H. injection H as H.
  now apply to_text_nonempty in H.
Qed.

Lemma GET_FILE_ID_empty st name pid :
  GET_FILE_ID st name pid = Some "" <-> files_named st name pid = [].
Proof.
  unfold GET_FILE_ID, files_named.
  destruct (filter _ (files st)) as [|r l]; simpl; [tauto|].
  split; [|discriminate]. intros H. injection H as H.
  now apply to_text_nonempty in H.
Qed.

Lemma GET_FILE_ID_some st name pid :
  exists x, GET_FILE_ID st name pid = Some x.
Proof.
  unfold GET_FILE_ID. destruct (filter _ (files st)); simpl; eauto.
Qed.

Lemma GET_FOLDER_ID_some st name pid :
  exists x, GET_FOLDER_ID st name pid = Some x.
Proof.
  unfold GET_FOLDER_ID. destruct (filter _ (tags st)); simpl; eauto.
Qed.

(** X8 -- [createFolder].  In a store whose keys fit an [int], for every
    path: the walk over the parent's parts returns an id; when it is empty
    the call fails with ENOENT and changes nothing; otherwise it is the
    text of the parent's key [pid], the call fails with EEXIST exactly when
    a file row or a folder row with the leaf name has [pid] as its
    [parent_folder], leaving the store as it is, and in the other case it
    returns [0] and appends to [tags] one row with the next rowid, the
    leaf name, [pid] and NULL lists, [files] staying as it is. *)
Theorem createFolder_spec (st : DB) (folderPath : string) :
  tag_ids_fit st = true ->
  exists parentFolderID,
    getFolderID st (snd (popBackAndRemove (splitPathIntoParts folderPath)))
    = Some parentFolderID /\
    (parentFolderID = "" ->
     createFolder st folderPath = Some (ENOENT, st)) /\
    (parentFolderID <> "" ->
     exists pid r st',
       parentFolderID = to_text pid /\
       createFolder st folderPath = Some (r, st') /\
       let name := fst (popBackAndRemove (splitPathIntoParts folderPath)) in
       (r = EEXIST <->
        files_named st name pid <> [] \/ folders_named st name pid <> []) /\
       (r = EEXIST -> st' = st) /\
       (r <> EEXIST ->
        r = 0%Z /\
        tags st' = tags st ++
                   [mkTag (next_rowid (map tag_id (tags st))) name pid
                          None None None] /\
        files st' = files st)).
Proof.
  intros Hfit. unfold createFolder.
  destruct (popBackAndRemove (splitPathIntoParts folderPath))
    as [name parts]. cbn [fst snd].
  destruct (getFolderID_cases st parts Hfit) as [E|[k [Hk E]]]; rewrite E.
  - exists "". split; auto. split; [reflexivity|congruence].
  - exists (to_text k). split; auto. split.
    + intros C. now apply to_text_nonempty in C.
    + intros _. destruct (String.eqb_spec (to_text k) "") as [C|_];
        [now apply to_text_nonempty in C|].
      cbn [negb]. rewrite getFileID_text, getFolderID2_text by exact Hk.
      pose proof (GET_FILE_ID_empty st name k) as Hf.
      pose proof (GET_FOLDER_ID_empty st name k) as Hd.
      destruct (GET_FILE_ID_some st name k) as [fileID Ef].
      destruct (GET_FOLDER_ID_some st name k) as [folderID Ed].
      rewrite Ef, Ed in *.
      destruct (String.eqb_spec fileID "") as [->|Hfne].
      * destruct (String.eqb_spec folderID "") as [->|Hdne].
        -- cbn [andb]. rewrite stoi_to_text by exact Hk.
           exists k, 0%Z, (CREATE_FOLDER st name k).
           split; auto. split; auto. split; [|split].
           ++ split; [discriminate|].
              intros [C|C]; exfalso; [apply C, Hf|apply C, Hd];
                reflexivity.
           ++ discriminate.
           ++ intros _. split; auto.
        -- cbn [andb]. exists k, EEXIST, st.
           split; auto. split; auto. split; [|split]; auto.
           ++ split; auto. intros _. right. intros C. apply Hd in C.
              congruence.
           ++ congruence.
      * cbn [andb]. exists k, EEXIST, st.
        split; auto. split; auto. split; [|split]; auto.
        -- split; auto. intros _. left. intros C. apply Hf in C.
           congruence.
        -- congruence.
Qed.

Lemma popBackAndRemove_inv l x l' :
  l <> [] -> popBackAndRemove l = (x, l') -> l = l' ++ [x].
Proof.
  intros Hne. destruct (exists_last Hne) as (l0 & a & ->).
  rewrite popBackAndRemove_snoc. congruence.
Qed.

Lemma getFolderIDLoop_app st a : forall b k,
  getFolderIDLoop st (a ++ b) k
  = match getFolderIDLoop st a k with
    | Some k' => getFolderIDLoop st b k'
    | None => None
    end.
Proof.
  induction a as [|part a IH]; intros b k; simpl; auto.
  destruct (String.eqb_spec k "") as [->|Hk].
  - destruct b; reflexivity.
  - destruct (getFolderID2 st part k); auto.
Qed.

Lemma getFolderIDLoop_empty st parts :
  parts <> [] -> getFolderIDLoop st parts "" = Some "".
Proof. destruct parts; [congruence|reflexivity]. Qed.

Section CreateFolder.

Variable st : DB.
Variable name : string.
Variable pid : Z.

Let st' := CREATE_FOLDER st name pid.
Let newid := next_rowid (map tag_id (tags st)).

Lemma GET_FOLDER_ID_CREATE_FOLDER n p x :
  GET_FOLDER_ID st n p = Some x -> x <> "" ->
  GET_FOLDER_ID st' n p = Some x.
Proof.
  unfold GET_FOLDER_ID, st', CREATE_FOLDER. cbn [tags].
  rewrite filter_app.
  destruct (filter _ (tags st)) as [|r l]; simpl; [congruence|auto].
Qed.

Lemma getFolderIDLoop_CREATE_FOLDER parts : forall k x,
  getFolderIDLoop st parts k = Some x -> x <> "" ->
  getFolderIDLoop st' parts k = Some x.
Proof.
  induction parts as [|part rest IH]; intros k x H Hx; simpl in *; auto.
  destruct (String.eqb_spec k "") as [->|Hk]; [congruence|].
  unfold getFolderID2 in *.
  destruct (stoi k) as [kz|]; [|discriminate].
  destruct (GET_FOLDER_ID st part kz) as [k'|] eqn:E; [|discriminate].
  destruct (String.eqb_spec k' "") as [->|Hk'].
  - destruct rest; simpl in H; congruence.
  - rewrite (GET_FOLDER_ID_CREATE_FOLDER _ _ _ E Hk'). now apply IH.
Qed.

Lemma GET_FOLDER_ID_new :
  folders_named st name pid = [] ->
  GET_FOLDER_ID st' name pid = Some (to_text newid).
Proof.
  unfold folders_named, GET_FOLDER_ID, st', CREATE_FOLDER. cbn [tags].
  intros E. rewrite filter_app, E. simpl.
  now rewrite String.eqb_refl, Z.eqb_refl.
Qed.

Lemma tag_ids_fit_CREATE_FOLDER :
  tag_ids_fit st = true -> fits_int newid = true ->
  tag_ids_fit st' = true.
Proof.
  unfold tag_ids_fit, st', CREATE_FOLDER, newid. cbn [tags]. intros H1 H2.
  rewrite forallb_app, H1. cbn [forallb tag_id]. now rewrite H2.
Qed.

Lemma DELETE_FOLDER_CREATE_FOLDER : DELETE_FOLDER st' newid = st.
Proof.
  unfold DELETE_FOLDER, st', CREATE_FOLDER. cbn [tags files].
  rewrite filter_app. simpl. rewrite Z.eqb_refl. simpl.
  rewrite app_nil_r, filter_all; [destruct st; reflexivity|].
  intros r Hr. apply negb_true_iff. apply Z.eqb_neq.
  assert (tag_id r < newid)%Z; [|lia].
  apply next_rowid_fresh. now apply in_map.
Qed.

Lemma files_in_new :
  files_have_folders st = true -> files_in st' newid = [].
Proof.
  unfold files_have_folders, files_in, st', CREATE_FOLDER. cbn [files].
  intros H. apply filter_none. intros f Hf.
  rewrite forallb_forall in H. specialize (H f Hf).
  apply existsb_exists in H. destruct H as (t & Ht & E).
  apply Z.eqb_eq in E. apply Z.eqb_neq.
  assert (tag_id t < newid)%Z; [|lia].
  apply next_rowid_fresh. now apply in_map.
Qed.

End CreateFolder.

Lemma createFolder_success st folderPath st' :
  tag_ids_fit st = true ->
  createFolder st folderPath = Some (0%Z, st') ->
  exists pid,
    fits_int pid = true /\
    getFolderID st (snd (popBackAndRemove (splitPathIntoParts folderPath)))
    = Some (to_text pid) /\
    folders_named st
      (fst (popBackAndRemove (splitPathIntoParts folderPath))) pid = [] /\
    files_named st
      (fst (popBackAndRemove (splitPathIntoParts folderPath))) pid = [] /\
    st' = CREATE_FOLDER st
            (fst (popBackAndRemove (splitPathIntoParts folderPath))) pid.
Proof.
  intros Hfit. unfold createFolder.
  destruct (popBackAndRemove (splitPathIntoParts folderPath))
    as [name parts]. cbn [fst snd].
  destruct (getFolderID_cases st parts Hfit) as [E|[k [Hk E]]]; rewrite E.
  - simpl. discriminate.
  - destruct (String.eqb_spec (to_text k) "") as [C|_];
      [now apply to_text_nonempty in C|].
    cbn [negb]. rewrite getFileID_text, getFolderID2_text by exact Hk.
    pose proof (GET_FILE_ID_empty st name k) as Hf.
    pose proof (GET_FOLDER_ID_empty st name k) as Hd.
    destruct (GET_FILE_ID_some st name k) as [fileID Ef].
    destruct (GET_FOLDER_ID_some st name k) as [folderID Ed].
    rewrite Ef, Ed in *.
    destruct (String.eqb_spec fileID "") as [->|Hfne];
      [|cbn [andb]; discriminate].
    destruct (String.eqb_spec folderID "") as [->|Hdne];
      [|cbn [andb]; discriminate].
    cbn [andb]. rewrite stoi_to_text by exact Hk. intros H.
    injection H as <-. exists k. repeat split; auto.
    + now apply Hd.
    + now apply Hf.
Qed.

(** X9 -- [createFolder] then [deleteFolder].  Let the keys fit an
    [int], the next rowid too, every file row have a row of [tags] as its
    folder, and the path have at least one part.  If [createFolder]
    succeeds, then in the new store the path resolves to the text of the
    new rowid, creating it again fails with EEXIST, and [deleteFolder]
    returns [0] and the store from before the creation. *)
Theorem createFolder_then_deleteFolder (st : DB) (folderPath : string)
    (st' : DB) :
  tag_ids_fit st = true ->
  fits_int (next_rowid (map tag_id (tags st))) = true ->
  files_have_folders st = true ->
  splitPathIntoParts folderPath <> [] ->
  createFolder st folderPath = Some (0%Z, st') ->
  getFolderID st' (splitPathIntoParts folderPath)
  = Some (to_text (next_rowid (map tag_id (tags st)))) /\
  createFolder st' folderPath = Some (EEXIST, st') /\
  deleteFolder st' folderPath = Some (0%Z, st).
Proof.
  intros Hfit Hnew Hfk Hparts Hcreate.
  destruct (createFolder_success st folderPath st' Hfit Hcreate)
    as (pid & Hpid & Hparent & Hnone & _ & ->).
  destruct (popBackAndRemove (splitPathIntoParts folderPath))
    as [name parts] eqn:Epop. cbn [fst snd] in *.
  pose proof (popBackAndRemove_inv _ _ _ Hparts Epop) as Esplit.
  assert (getFolderID (CREATE_FOLDER st name pid)
            (splitPathIntoParts folderPath)
          = Some (to_text (next_rowid (map tag_id (tags st))))) as Hres.
  { rewrite Esplit. unfold getFolderID in *. rewrite getFolderIDLoop_app.
    rewrite (getFolderIDLoop_CREATE_FOLDER st name pid parts "1"
               (to_text pid) Hparent) by apply to_text_nonempty.
    simpl. destruct (String.eqb_spec (to_text pid) "") as [C|_];
      [now apply to_text_nonempty in C|].
    rewrite getFolderID2_text by exact Hpid.
    now rewrite GET_FOLDER_ID_new. }
  split; [exact Hres|]. split.
  - unfold createFolder. rewrite Epop.
    unfold getFolderID in *.
    rewrite (getFolderIDLoop_CREATE_FOLDER st name pid parts "1"
               (to_text pid) Hparent) by apply to_text_nonempty.
    destruct (String.eqb_spec (to_text pid) "") as [C|_];
      [now apply to_text_nonempty in C|].
    cbn [negb]. rewrite getFileID_text, getFolderID2_text by exact Hpid.
    rewrite GET_FOLDER_ID_new by exact Hnone.
    destruct (GET_FILE_ID_some (CREATE_FOLDER st name pid) name pid)
      as [x ->].
    destruct (String.eqb_spec (to_text (next_rowid (map tag_id (tags st))))
                "") as [C|_]; [now apply to_text_nonempty in C|].
    now rewrite andb_false_r.
  - unfold deleteFolder. rewrite Hres.
    destruct (String.eqb_spec (to_text (next_rowid (map tag_id (tags st))))
                "") as [C|_]; [now apply to_text_nonempty in C|].
    cbn [negb]. rewrite isFolderEmpty_spec by exact Hnew.
    rewrite files_in_new by exact Hfk.
    rewrite stoi_to_text by exact Hnew.
    now rewrite DELETE_FOLDER_CREATE_FOLDER.
Qed.

Lemma executeMV_total {R : Type} (f : R -> string) (rows : list R) :
  executeMV (fun r => Some (f r)) rows = Some (map f rows).
Proof. induction rows as [|r l IH]; simpl; [|rewrite IH]; reflexivity. Qed.

(** X10 -- a created folder is listed.  For an absolute path [dir/name]
    with a non-empty slash-free [name], in a store whose keys fit an [int]:
    after a successful [createFolder] of the path, [listFolder] of [dir]
    returns a list that holds [name]. *)
Theorem createFolder_listed (st : DB) (dir name : string) (st' : DB) :
  tag_ids_fit st = true ->
  char_at_is (dir +s+ "/" +s+ name) 0 "/" = true ->
  name <> "" -> occurs "/" name = false ->
  createFolder st (dir +s+ "/" +s+ name) = Some (0%Z, st') ->
  exists contents,
    listFolder st' dir = Some contents /\ In name contents.
Proof.
  intros Hfit Habs Hne Hslash Hcreate.
  destruct (createFolder_success st _ st' Hfit Hcreate)
    as (pid & Hpid & Hparent & _ & _ & ->).
  pose proof (popBack_split_leaf dir name Habs Hne Hslash) as Epop.
  rewrite Epop in *. cbn [fst snd] in *.
  unfold listFolder, getFolderID in *.
  rewrite (getFolderIDLoop_CREATE_FOLDER st name pid _ "1"
             (to_text pid) Hparent) by apply to_text_nonempty.
  destruct (String.eqb_spec (to_text pid) "") as [C|_];
    [now apply to_text_nonempty in C|].
  cbn [negb]. rewrite stoi_to_text by exact Hpid.
  unfold LIST_FOLDER_1, LIST_FOLDER_2. rewrite !executeMV_total.
  eexists. split; [reflexivity|].
  apply in_or_app. left. apply in_map_iff.
  exists (mkTag (next_rowid (map tag_id (tags st))) name pid None None None).
  split; [reflexivity|]. apply filter_In. split.
  - unfold CREATE_FOLDER. cbn [tags]. apply in_or_app. right. now left.
  - cbn [parent_folder]. apply Z.eqb_refl.
Qed.

Lemma getFolderIDLoop_tags st1 st2 parts : forall k,
  tags st1 = tags st2 ->
  getFolderIDLoop st1 parts k = getFolderIDLoop st2 parts k.
Proof.
  induction parts as [|part rest IH]; intros k E; simpl; auto.
  destruct (String.eqb k ""); auto.
  unfold getFolderID2, GET_FOLDER_ID. rewrite E.
  destruct (stoi k); auto.
  destruct (executeSV _ _); auto.
Qed.

Section AddTemporaryFile.

Variable rootDirectory : string.

(** X11 -- [addTemporaryFile].  For a message [temp,path] whose [temp]
    holds no comma, in a store whose keys fit an [int]: when the parent of
    [path] does not resolve the call has no result (the empty id makes
    [std::stoi] throw); otherwise it appends to [files] one row with the
    next rowid, the leaf name, [temp] as hash and the parent's key, [tags]
    staying as it is, and if the folder held no file of that name,
    [getFileID] then returns the new rowid and [getFilePath] of the path
    is [rootDirectory/temp]. *)
Theorem addTemporaryFile_spec (st : DB) (tempFilename path : string) :
  tag_ids_fit st = true ->
  occurs "," tempFilename = false ->
  exists parentFolderID,
    getFolderID st (snd (popBackAndRemove (splitPathIntoParts path)))
    = Some parentFolderID /\
    (parentFolderID = "" ->
     addTemporaryFile st (tempFilename +s+ "," +s+ path) = None) /\
    (parentFolderID <> "" ->
     exists pid st',
       let name := fst (popBackAndRemove (splitPathIntoParts path)) in
       parentFolderID = to_text pid /\
       addTemporaryFile st (tempFilename +s+ "," +s+ path) = Some st' /\
       tags st' = tags st /\
       files st' = files st ++
                   [mkFile (next_rowid (map file_id (files st))) name
                           tempFilename pid] /\
       (files_named st name pid = [] ->
        getFileID st' name parentFolderID
        = Some (to_text (next_rowid (map file_id (files st)))) /\
        getFilePath rootDirectory st' path
        = Some (rootDirectory +s+ "/" +s+ tempFilename))).
Proof.
  intros Hfit Hcomma. unfold addTemporaryFile.
  change (tempFilename +s+ "," +s+ path)
    with (tempFilename +s+ String "," path).
  rewrite splitAtFirstOccurance_join by exact Hcomma.
  unfold getFilePath.
  destruct (popBackAndRemove (splitPathIntoParts path)) as [name parts].
  cbn [fst snd].
  destruct (getFolderID_cases st parts Hfit) as [E|[k [Hk E]]]; rewrite E.
  - exists "". split; auto. split; [reflexivity|congruence].
  - exists (to_text k). split; auto. split.
    + intros C. now apply to_text_nonempty in C.
    + intros _. rewrite stoi_to_text by exact Hk.
      exists k, (ADD_TEMPORARY_FILE st name tempFilename k).
      cbv zeta. split; auto. split; auto. split; auto. split; auto.
      intros Hnone. unfold getFolderID in *.
      rewrite (getFolderIDLoop_tags _ st parts "1") by reflexivity.
      rewrite E.
      destruct (String.eqb_spec (to_text k) "") as [C|_];
        [now apply to_text_nonempty in C|].
      cbn [negb]. rewrite getFileID_text, getHash_text by exact Hk.
      unfold GET_FILE_ID, GET_HASH, ADD_TEMPORARY_FILE. cbn [files].
      rewrite filter_app. unfold files_named in Hnone. rewrite Hnone.
      cbn [filter app filename file_parent_folder].
      rewrite String.eqb_refl, Z.eqb_refl. cbn [andb executeSV].
      split; reflexivity.
Qed.

End AddTemporaryFile.

Section RenamePath.

Variable rootDirectory : string.
Variable fuel : nat.
Variable unlink : string -> Z * Z.

Lemma lookups_total st name parts :
  tag_ids_fit st = true ->
  exists parentID,
    getFolderID st parts = Some parentID /\
    exists folderID fileID,
      (if negb (String.eqb parentID "") then
         a <- getFolderID2 st name parentID ;;
         b <- getFileID st name parentID ;;
         Some (a, b)
       else Some ("", "")) = Some (folderID, fileID) /\
      (parentID = "" -> folderID = "" /\ fileID = "") /\
      (parentID <> "" ->
       getFolderID2 st name parentID = Some folderID /\
       getFileID st name parentID = Some fileID).
Proof.
  intros Hfit.
  destruct (getFolderID_cases st parts Hfit) as [E|[k [Hk E]]]; rewrite E.
  - exists "". split; auto. exists "", "". simpl. repeat split; congruence.
  - exists (to_text k). split; auto.
    destruct (String.eqb_spec (to_text k) "") as [C|_];
      [now apply to_text_nonempty in C|].
    cbn [negb]. rewrite getFileID_text, getFolderID2_text by exact Hk.
    destruct (GET_FILE_ID_some st name k) as [fileID ->].
    destruct (GET_FOLDER_ID_some st name k) as [folderID ->].
    exists folderID, fileID. split; [reflexivity|]. split.
    + intros C. now apply to_text_nonempty in C.
    + intros _. split; reflexivity.
Qed.

(** X12 -- what [renamePath] refuses.  In a store whose keys fit an
    [int], both parent walks return an id, and the call returns [1] with
    the store unchanged in each of these cases: the parent of [oldPath]
    does not resolve; it resolves but the leaf of [oldPath] names neither a
    folder nor a file in it; the parent of [newPath] resolves and the leaf
    of [newPath] names a folder in it. *)
Theorem renamePath_refusals (st : DB) (oldPath newPath : string) :
  tag_ids_fit st = true ->
  exists oldParent newParent,
    let oldName := fst (popBackAndRemove (splitPathIntoParts oldPath)) in
    let newName := fst (popBackAndRemove (splitPathIntoParts newPath)) in
    getFolderID st (snd (popBackAndRemove (splitPathIntoParts oldPath)))
    = Some oldParent /\
    getFolderID st (snd (popBackAndRemove (splitPathIntoParts newPath)))
    = Some newParent /\
    (oldParent = "" ->
     renamePath rootDirectory fuel unlink st oldPath newPath
     = Some (1%Z, st)) /\
    (oldParent <> "" ->
     getFolderID2 st oldName oldParent = Some "" ->
     getFileID st oldName oldParent = Some "" ->
     renamePath rootDirectory fuel unlink st oldPath newPath
     = Some (1%Z, st)) /\
    (newParent <> "" ->
     forall newFolderID,
       getFolderID2 st newName newParent = Some newFolderID ->
       newFolderID <> "" ->
       renamePath rootDirectory fuel unlink st oldPath newPath
       = Some (1%Z, st)).
Proof.
  intros Hfit. unfold renamePath.
  destruct (popBackAndRemove (splitPathIntoParts oldPath))
    as [oldName oldParts].
  destruct (popBackAndRemove (splitPathIntoParts newPath))
    as [newName newParts]. cbn [fst snd].
  destruct (lookups_total st oldName oldParts Hfit)
    as (oldParent & Eo & oldFolderID & oldFileID & Eo2 & Ho1 & Ho2).
  destruct (lookups_total st newName newParts Hfit)
    as (newParent & En & newFolderID & newFileID & En2 & Hn1 & Hn2).
  exists oldParent, newParent. cbv zeta.
  rewrite Eo, Eo2, En, En2. split; auto. split; auto.
  split; [|split].
  - intros C. destruct (Ho1 C) as [-> ->]. reflexivity.
  - intros C E1 E2. destruct (Ho2 C) as [F1 F2].
    assert (oldFolderID = "") as -> by congruence.
    assert (oldFileID = "") as -> by congruence. reflexivity.
  - intros C nf E Hnf. destruct (Hn2 C) as [F1 _].
    assert (newFolderID = nf) as -> by congruence.
    destruct (String.eqb_spec nf "") as [C'|_]; [congruence|].
    now rewrite !andb_false_r.
Qed.

End RenamePath.

(** ** Nesting and unnesting *)

(** The row of key [k] after the two updates of [nestTag] and of
    [unnestTag]: [child_tags] of row [kp], then [parent_tags] of row
    [kt]. *)
Lemma tag_row_two_updates st ctext kp ptext kt k :
  tag_row (UPDATE_PARENT_TAG_IDS (UPDATE_CHILD_TAG_IDS st ctext kp) ptext kt)
          k
  = option_map
      (fun r =>
         let r := if Z.eqb k kp then set_child_tags ctext r else r in
         if Z.eqb k kt then set_parent_tags ptext r else r)
      (tag_row st k).
Proof.
  rewrite tag_row_UPDATE_PARENT, tag_row_UPDATE_CHILD.
  destruct (tag_row st k); reflexivity.
Qed.

Lemma child_after_updates st ctext kp ptext kt id rp :
  stoi id = Some kp -> tag_row st kp = Some rp ->
  getChildTagIDs
    (UPDATE_PARENT_TAG_IDS (UPDATE_CHILD_TAG_IDS st ctext kp) ptext kt) id
  = Some (deserializeStrings ctext ";").
Proof.
  intros Hs Hr. unfold getChildTagIDs, GET_CHILD_TAG_IDS.
  rewrite Hs, executeSV_tag_row, tag_row_two_updates, Hr. simpl.
  rewrite Z.eqb_refl. destruct (Z.eqb kp kt); reflexivity.
Qed.

Lemma parent_after_updates st ctext kp ptext kt id rt :
  stoi id = Some kt -> tag_row st kt = Some rt ->
  getParentTagIDs
    (UPDATE_PARENT_TAG_IDS (UPDATE_CHILD_TAG_IDS st ctext kp) ptext kt) id
  = Some (deserializeStrings ptext ";").
Proof.
  intros Hs Hr. unfold getParentTagIDs, GET_PARENT_TAG_IDS.
  rewrite Hs, executeSV_tag_row, tag_row_two_updates, Hr. simpl.
  rewrite Z.eqb_refl. destruct (Z.eqb kt kp); reflexivity.
Qed.

Lemma vec_mem_false x v : vec_mem x v = false <-> ~ In x v.
Proof.
  rewrite <- vec_mem_In. destruct (vec_mem x v); split; congruence.
Qed.

Lemma vec_erase_snoc x l : ~ In x l -> vec_erase x (l ++ [x]) = l.
Proof.
  induction l as [|y l IH]; simpl; intros H.
  - now rewrite String.eqb_refl.
  - destruct (String.eqb_spec x y) as [->|Hne]; [tauto|].
    rewrite IH; auto.
Qed.

(** X13 -- [unnestTag].  Let [tagID] and [parentTagID] each be empty or
    the id of a row of [tags] with well-formed id lists.  The call returns
    ENOENT or [0]; ENOENT leaves the store unchanged and is the answer when
    either id is empty; for two non-empty ids it returns [0] exactly when
    [tagID] is in the parent's [child_tags] and [parentTagID] in the tag's
    [parent_tags], and then the first occurrence of each is erased from
    the other's list and [files] stays as it is. *)
Theorem unnestTag_spec (st : DB) (tagID parentTagID : string) :
  (tagID = "" \/ tag_ok st tagID = true) ->
  (parentTagID = "" \/ tag_ok st parentTagID = true) ->
  exists r st',
    unnestTag st tagID parentTagID = Some (r, st') /\
    (r = ENOENT \/ r = 0%Z) /\
    (r = ENOENT -> st' = st) /\
    (tagID = "" \/ parentTagID = "" -> r = ENOENT) /\
    (tagID <> "" /\ parentTagID <> "" ->
     exists cs ps,
       getChildTagIDs st parentTagID = Some cs /\
       getParentTagIDs st tagID = Some ps /\
       (r = 0%Z <-> In tagID cs /\ In parentTagID ps) /\
       (r = 0%Z ->
        getChildTagIDs st' parentTagID = Some (vec_erase tagID cs) /\
        getParentTagIDs st' tagID = Some (vec_erase parentTagID ps) /\
        files st' = files st)).
Proof.
  intros Ht Hp. unfold unnestTag.
  destruct (String.eqb_spec tagID "") as [Et|Et].
  { exists ENOENT, st. simpl. split; auto. split; auto. split; auto.
    split; auto. intros [C _]. congruence. }
  destruct (String.eqb_spec parentTagID "") as [Ep|Ep].
  { exists ENOENT, st. simpl. split; auto. split; auto. split; auto.
    split; auto. intros [_ C]. congruence. }
  simpl.
  destruct Ht as [C|Ht]; [congruence|]. destruct Hp as [C|Hp]; [congruence|].
  destruct (tag_ok_inv st tagID Ht)
    as (kt & rt & ptext & ctext' & ftext' & Hst & Htt & Hrt & Hpt & _ & _
        & Hgp & _ & _).
  destruct (tag_ok_inv st parentTagID Hp)
    as (kp & rp & ptext' & ctext & ftext & Hsp & Htp & Hrp & _ & Hcp & _
        & _ & Hgc & _).
  rewrite (getChildTagIDs_row st parentTagID kp rp Hsp Hrp), Hcp.
  rewrite (getParentTagIDs_row st tagID kt rt Hst Hrt), Hpt.
  set (cs := deserializeStrings ctext ";") in *.
  set (ps := deserializeStrings ptext ";") in *.
  destruct (vec_mem tagID cs) eqn:Ec; cbn [negb].
  2:{ exists ENOENT, st. split; auto. split; auto. split; auto.
      split; auto. intros _. exists cs, ps.
      split; [reflexivity|]. split; [reflexivity|].
      split; [|discriminate]. split; [discriminate|].
      intros [C _]. apply vec_mem_In in C. congruence. }
  destruct (vec_mem parentTagID ps) eqn:Epm; cbn [negb].
  2:{ exists ENOENT, st. split; auto. split; auto. split; auto.
      split; auto. intros _. exists cs, ps.
      split; [reflexivity|]. split; [reflexivity|].
      split; [|discriminate]. split; [discriminate|].
      intros [_ C]. apply vec_mem_In in C. congruence. }
  unfold updateChildTagIDs, updateParentTagIDs. rewrite Hsp, Hst.
  eexists 0%Z, _. split; [reflexivity|]. split; auto.
  split; [discriminate|]. split; [intros [C|C]; congruence|].
  intros _. exists cs, ps.
  split; [reflexivity|]. split; [reflexivity|]. split.
  - split; auto. intros _. split; now apply vec_mem_In.
  - intros _. split; [|split].
    + rewrite (child_after_updates st _ kp _ kt parentTagID rp Hsp Hrp).
      rewrite roundtrip_good; auto. now apply forallb_vec_erase.
    + rewrite (parent_after_updates st _ kp _ kt tagID rt Hst Hrt).
      rewrite roundtrip_good; auto. now apply forallb_vec_erase.
    + reflexivity.
Qed.

Section NestUnnest.

Variable fuel : nat.

(** X14 -- [nestTag] then [unnestTag].  For two rows of [tags] with
    well-formed id lists: if [nestTag] returns [0], then [unnestTag] of the
    same pair on the new store returns [0], and afterwards the parent's
    [child_tags] and the tag's [parent_tags] read as before the nesting,
    [files] staying as it is. *)
Theorem nestTag_then_unnestTag (st st1 : DB) (tagID parentTagID : string) :
  tag_ok st tagID = true ->
  tag_ok st parentTagID = true ->
  nestTag fuel st tagID parentTagID = Some (0%Z, st1) ->
  exists st2,
    unnestTag st1 tagID parentTagID = Some (0%Z, st2) /\
    getChildTagIDs st2 parentTagID = getChildTagIDs st parentTagID /\
    getParentTagIDs st2 tagID = getParentTagIDs st tagID /\
    files st2 = files st.
Proof.
  intros Ht Hp.
  destruct (tag_ok_inv st tagID Ht)
    as (kt & rt & ptext & ctext' & ftext' & Hst & Htt & Hrt & Hpt & _ & _
        & Hgp & _ & _).
  destruct (tag_ok_inv st parentTagID Hp)
    as (kp & rp & ptext' & ctext & ftext & Hsp & Htp & Hrp & _ & Hcp & _
        & _ & Hgc & _).
  assert (Et : tagID <> "") by (rewrite Htt; apply to_text_nonempty).
  assert (Ep : parentTagID <> "") by (rewrite Htp; apply to_text_nonempty).
  unfold nestTag.
  destruct (String.eqb_spec tagID "") as [C|_]; [congruence|].
  destruct (String.eqb_spec parentTagID "") as [C|_]; [congruence|].
  cbn [orb].
  rewrite (getChildTagIDs_row st parentTagID kp rp Hsp Hrp), Hcp.
  rewrite (getParentTagIDs_row st tagID kt rt Hst Hrt), Hpt.
  set (cs := deserializeStrings ctext ";") in *.
  set (ps := deserializeStrings ptext ";") in *.
  destruct (vec_mem tagID cs) eqn:Ec; [discriminate|].
  destruct (vec_mem parentTagID ps) eqn:Epm; [discriminate|].
  destruct (getAncestorTagIDs fuel st parentTagID []) as [A|];
    [|discriminate].
  destruct (set_mem tagID A); [discriminate|].
  unfold updateChildTagIDs, updateParentTagIDs. rewrite Hsp, Hst.
  intros H. injection H as <-.
  apply vec_mem_false in Ec. apply vec_mem_false in Epm.
  assert (Hgc1 : forallb good_id (cs ++ [tagID]) = true).
  { apply forallb_snoc; auto. rewrite Htt. apply good_id_to_text. }
  assert (Hgp1 : forallb good_id (ps ++ [parentTagID]) = true).
  { apply forallb_snoc; auto. rewrite Htp. apply good_id_to_text. }
  unfold unnestTag.
  destruct (String.eqb_spec tagID "") as [C|_]; [congruence|].
  destruct (String.eqb_spec parentTagID "") as [C|_]; [congruence|].
  cbn [orb].
  rewrite (child_after_updates st _ kp _ kt parentTagID rp Hsp Hrp).
  rewrite (parent_after_updates st _ kp _ kt tagID rt Hst Hrt).
  rewrite !roundtrip_good by assumption.
  assert (vec_mem tagID (cs ++ [tagID]) = true) as ->
    by (apply vec_mem_In, in_or_app; right; now left).
  assert (vec_mem parentTagID (ps ++ [parentTagID]) = true) as ->
    by (apply vec_mem_In, in_or_app; right; now left).
  cbn [negb]. rewrite !vec_erase_snoc by assumption.
  unfold updateChildTagIDs, updateParentTagIDs. rewrite Hsp, Hst.
  eexists. split; [reflexivity|].
  set (st1 := UPDATE_PARENT_TAG_IDS (UPDATE_CHILD_TAG_IDS st _ kp) _ kt).
  assert (exists rp1, tag_row st1 kp = Some rp1) as [rp1 Hrp1].
  { unfold st1. rewrite tag_row_two_updates, Hrp. simpl. eauto. }
  assert (exists rt1, tag_row st1 kt = Some rt1) as [rt1 Hrt1].
  { unfold st1. rewrite tag_row_two_updates, Hrt. simpl. eauto. }
  split; [|split].
  - rewrite (child_after_updates st1 _ kp _ kt parentTagID rp1 Hsp Hrp1).
    now rewrite roundtrip_good by assumption.
  - rewrite (parent_after_updates st1 _ kp _ kt tagID rt1 Hst Hrt1).
    now rewrite roundtrip_good by assumption.
  - reflexivity.
Qed.

End NestUnnest.

(** ** Tagging files *)

Lemma filenamesOfIDs_app st l1 : forall l2 n1 n2,
  filenamesOfIDs st l1 = Some n1 -> filenamesOfIDs st l2 = Some n2 ->
  filenamesOfIDs st (l1 ++ l2) = Some (n1 ++ n2).
Proof.
  induction l1 as [|x l1 IH]; simpl; intros l2 n1 n2 H1 H2.
  - injection H1 as <-. exact H2.
  - destruct (getFilenameFromID st x) as [n|]; [|discriminate].
    destruct (filenamesOfIDs st l1) as [ns|]; [|discriminate].
    injection H1 as <-. now rewrite (IH l2 ns n2 eq_refl H2).
Qed.

Lemma filenamesOfIDs_In st l : forall names x n,
  filenamesOfIDs st l = Some names -> In x l ->
  getFilenameFromID st x = Some n -> In n names.
Proof.
  induction l as [|y l IH]; simpl; intros names x n H Hx Hn; [tauto|].
  destruct (getFilenameFromID st y) as [m|] eqn:Ey; [|discriminate].
  destruct (filenamesOfIDs st l) as [ns|]; [|discriminate].
  injection H as <-. destruct Hx as [->|Hx].
  - left. congruence.
  - right. eapply IH; eauto.
Qed.

Lemma getFilenamesUnderTagID_names st t l names :
  getFileIDsUnderTagID st t = Some l ->
  filenamesOfIDs st l = Some names ->
  getFilenamesUnderTagID st t = Some names.
Proof.
  intros Hl Hn. unfold getFilenamesUnderTagID. rewrite Hl.
  destruct l; [simpl in Hn; congruence|exact Hn].
Qed.

Lemma files_after_update st text k id r :
  id <> "" -> stoi id = Some k -> tag_row st k = Some r ->
  getFileIDsUnderTagID (UPDATE_TAG_FILE_IDS st text k) id
  = Some (deserializeStrings text ";").
Proof.
  intros Hne Hs Hr.
  rewrite (getFileIDsUnderTagID_row _ id k (set_files_ids text r) Hne Hs).
  - reflexivity.
  - rewrite tag_row_UPDATE_FILES, Hr. simpl. now rewrite Z.eqb_refl.
Qed.

Lemma NoDup_snoc {A} (l : list A) x : NoDup l -> ~ In x l -> NoDup (l ++ [x]).
Proof.
  intros Hl Hx. apply NoDup_rev in Hl.
  rewrite <- (rev_involutive (l ++ [x])). apply NoDup_rev.
  rewrite rev_app_distr. simpl. constructor; auto.
  now rewrite <- in_rev.
Qed.

(** X15 -- [tagSingleFile] keeps file names unique under a tag.  Let
    [tagID] be a row of [tags] with well-formed id lists whose files bear
    pairwise different names, and [fileID] a well-formed id whose file name
    is read.  The call fails with EEXIST, changing nothing, when that name
    is among the names of the tag's files, and otherwise returns [0] with
    [fileID] appended to the tag's [files_ids], [files] staying as it is;
    either way the names of the tag's files are pairwise different in the
    resulting store. *)
Theorem tagSingleFile_spec (st : DB) (fileID tagID filename_ : string) :
  tag_ok st tagID = true ->
  good_id fileID = true ->
  getFilenameFromID st fileID = Some filename_ ->
  names_unique st tagID ->
  exists l names r st',
    getFileIDsUnderTagID st tagID = Some l /\
    filenamesOfIDs st l = Some names /\
    tagSingleFile st fileID tagID = Some (r, st') /\
    (In filename_ names -> r = EEXIST /\ st' = st) /\
    (~ In filename_ names ->
     r = 0%Z /\
     getFileIDsUnderTagID st' tagID = Some (l ++ [fileID]) /\
     files st' = files st) /\
    names_unique st' tagID.
Proof.
  intros Hok Hgood Hname (l & names & Hl & Hnames & Hnd).
  destruct (tag_ok_inv st tagID Hok)
    as (k & r & _ & _ & ftext & Hs & Ht & Hr & _ & _ & Hf & _ & _ & Hg).
  assert (Hne : tagID <> "") by (rewrite Ht; apply to_text_nonempty).
  pose proof Hl as Hl'.
  rewrite (getFileIDsUnderTagID_row st _ k r Hne Hs Hr), Hf in Hl'.
  injection Hl' as Hl'. rewrite Hl' in Hg.
  exists l, names. unfold tagSingleFile.
  rewrite (getFilenamesUnderTagID_names st tagID l names Hl Hnames), Hname.
  destruct (vec_mem filename_ names) eqn:Em.
  - exists EEXIST, st. apply vec_mem_In in Em.
    split; auto. split; auto. split; auto. split; auto.
    split; [tauto|]. exists l, names. auto.
  - apply vec_mem_false in Em. rewrite Hl.
    unfold updateTagFileIDs. rewrite Hs.
    eexists 0%Z, _. split; auto. split; auto. split; [reflexivity|].
    assert (Hgood' : forallb good_id (l ++ [fileID]) = true)
      by (apply forallb_snoc; auto).
    assert (Hread : getFileIDsUnderTagID
                      (UPDATE_TAG_FILE_IDS st
                         (serializeStrings (l ++ [fileID]) ";") k) tagID
                    = Some (l ++ [fileID])).
    { rewrite (files_after_update st _ k tagID r Hne Hs Hr).
      now rewrite roundtrip_good. }
    split; [tauto|]. split; [auto|].
    exists (l ++ [fileID]), (names ++ [filename_]).
    split; [exact Hread|]. split.
    + rewrite filenamesOfIDs_UPDATE_FILES.
      apply filenamesOfIDs_app; auto. simpl.
      now rewrite Hname.
    + now apply NoDup_snoc.
Qed.

(** X16 -- [tagSingleFile] then [untagSingleFile].  For a row of [tags]
    with well-formed id lists and a well-formed file id: if [tagSingleFile]
    returns [0], then [untagSingleFile] of the same pair on the new store
    returns [0], and afterwards the tag's [files_ids] read as before the
    tagging, [files] staying as it is. *)
Theorem tagSingleFile_then_untagSingleFile (st st1 : DB)
    (fileID tagID : string) :
  tag_ok st tagID = true ->
  good_id fileID = true ->
  tagSingleFile st fileID tagID = Some (0%Z, st1) ->
  exists st2,
    untagSingleFile st1 fileID tagID = Some (0%Z, st2) /\
    getFileIDsUnderTagID st2 tagID = getFileIDsUnderTagID st tagID /\
    files st2 = files st.
Proof.
  intros Hok Hgood.
  destruct (tag_ok_inv st tagID Hok)
    as (k & r & _ & _ & ftext & Hs & Ht & Hr & _ & _ & Hf & _ & _ & Hg).
  assert (Hne : tagID <> "") by (rewrite Ht; apply to_text_nonempty).
  unfold tagSingleFile, getFilenamesUnderTagID.
  rewrite (getFileIDsUnderTagID_row st _ k r Hne Hs Hr), Hf.
  set (l := deserializeStrings ftext ";") in *.
  destruct (match l with [] => Some l | _ :: _ => filenamesOfIDs st l end)
    as [names|] eqn:En; [|discriminate].
  destruct (getFilenameFromID st fileID) as [name|] eqn:Ename;
    [|discriminate].
  destruct (vec_mem name names) eqn:Em; [discriminate|].
  unfold updateTagFileIDs. rewrite Hs. intros H. injection H as <-.
  apply vec_mem_false in Em.
  assert (Hnot : ~ In fileID l).
  { intros C. apply Em. destruct l as [|y l']; [destruct C|].
    eapply filenamesOfIDs_In; eauto. }
  assert (Hgood' : forallb good_id (l ++ [fileID]) = true)
    by (apply forallb_snoc; auto).
  unfold untagSingleFile.
  rewrite (files_after_update st _ k tagID r Hne Hs Hr).
  rewrite roundtrip_good by assumption.
  assert (vec_mem fileID (l ++ [fileID]) = true) as ->
    by (apply vec_mem_In, in_or_app; right; now left).
  cbn [negb]. rewrite vec_erase_snoc by assumption.
  unfold updateTagFileIDs. rewrite Hs. eexists. split; [reflexivity|].
  split; [|reflexivity].
  set (st1 := UPDATE_TAG_FILE_IDS st _ k).
  assert (exists r1, tag_row st1 k = Some r1) as [r1 Hr1].
  { unfold st1. rewrite tag_row_UPDATE_FILES, Hr. simpl. eauto. }
  rewrite (files_after_update st1 _ k tagID r1 Hne Hs Hr1).
  now rewrite roundtrip_good.
Qed.

(** ** The ancestor walk on a cycle *)

Lemma ancestor_target st s t : ancestor st s t -> t <> "" /\ t <> "0".
Proof. induction 1; auto. Qed.

Lemma ancestor_source st s t : ancestor st s t -> s <> "" /\ s <> "0".
Proof. destruct 1; auto. Qed.

Lemma ancestor_cases st p t :
  ancestor st p t ->
  p = t \/
  exists ps' p',
    getParentTagIDs st p = Some ps' /\ In p' ps' /\ ancestor st p' t.
Proof.
  destruct 1 as [t H1 H2|t ps p a H1 H2 Hps Hin Hanc]; [now left|].
  right. exists ps, p. auto.
Qed.

Lemma ancestor_trans st a b c :
  ancestor st a b -> ancestor st b c -> ancestor st a c.
Proof.
  induction 1 as [t H1 H2|t ps p x H1 H2 Hps Hin Hanc IH]; auto.
  intros Hc. econstructor; eauto.
Qed.

Lemma fold_walk_none fuel st (ps : list string) p :
  In p ps ->
  (forall acc, getAncestorTagIDs fuel st p acc = None) ->
  forall init,
    fold_left
      (fun acc id =>
         match acc with
         | Some ancestors' => getAncestorTagIDs fuel st id ancestors'
         | None => None
         end)
      ps init = None.
Proof.
  intros Hin Hp. induction ps as [|q ps IH]; [destruct Hin|].
  intros init. simpl. destruct Hin as [->|Hin].
  - assert (match init with
            | Some ancestors' => getAncestorTagIDs fuel st p ancestors'
            | None => None
            end = None) as -> by (destruct init; auto).
    clear. induction ps as [|x ps IH]; simpl; auto.
  - now apply IH.
Qed.

Lemma walk_on_cycle st : forall fuel t acc,
  on_parent_cycle st t -> getAncestorTagIDs fuel st t acc = None.
Proof.
  induction fuel as [|fuel IH]; intros t acc (ps & p & Hps & Hin & Hanc);
    [reflexivity|].
  destruct (ancestor_target _ _ _ Hanc) as [H1 H2].
  simpl. destruct (String.eqb_spec t "") as [C|_]; [congruence|].
  destruct (String.eqb_spec t "0") as [C|_]; [congruence|].
  cbn [orb]. rewrite Hps.
  apply fold_walk_none with (p := p); auto.
  intros acc'. apply IH.
  destruct (ancestor_cases _ _ _ Hanc) as [E|(ps' & p' & Hps' & Hin' & Hanc')].
  - subst p. exists ps, t. auto.
  - destruct (ancestor_source _ _ _ Hanc) as [Hp1 Hp2].
    exists ps', p'. split; auto. split; auto.
    apply ancestor_trans with (b := t); auto.
    apply ancestor_parent with (ps := ps) (p := p); auto.
    now constructor.
Qed.

(** X17 -- the ancestor walk on a cycle.  If the walk from [tagID]
    reaches a tag [t] that lies on a cycle of [parent_tags] (a parent of
    [t] has [t] among its ancestors), then [getAncestorTagIDs] returns for
    no bound on the depth of the recursion, whatever set it is given. *)
Theorem getAncestorTagIDs_cycle (st : DB) (tagID t : string) (fuel : nat)
    (ancestors : list string) :
  ancestor st tagID t -> on_parent_cycle st t ->
  getAncestorTagIDs fuel st tagID ancestors = None.
Proof.
  intros Hanc Hcycle. revert fuel ancestors.
  induction Hanc as [t H1 H2|s ps p t H1 H2 Hps Hin Hanc IH];
    intros fuel acc.
  - now apply walk_on_cycle.
  - destruct fuel as [|fuel]; [reflexivity|].
    simpl. destruct (String.eqb_spec s "") as [C|_]; [congruence|].
    destruct (String.eqb_spec s "0") as [C|_]; [congruence|].
    cbn [orb]. rewrite Hps.
    apply fold_walk_none with (p := p); auto.
Qed.

Lemma getAncestorTagIDs_cycle_witness :
  getAncestorTagIDs 1000 loop_db "2" [] = None.
Proof.
  apply (getAncestorTagIDs_cycle loop_db "2" "2" 1000 []).
  - constructor; discriminate.
  - exists ["3"], "3". split; [reflexivity|]. split; [now left|].
    apply ancestor_parent with (ps := ["2"]) (p := "2");
      [discriminate|discriminate|reflexivity|now left|].
    constructor; discriminate.
Defined.

(** ** Creating a tag *)

Lemma getTagID_plain fuel st name :
  name <> "" -> occurs "/" name = false ->
  getTagID (S fuel) st name = GET_TAG_ID st name.
Proof.
  intros Hne Hs. simpl.
  destruct (String.eqb_spec name "") as [C|_]; [congruence|].
  destruct (String.eqb_spec name "/") as [C|_];
    [rewrite C in Hs; discriminate|].
  destruct name as [|a name]; [congruence|].
  unfold char_at_is. simpl in *.
  apply orb_false_iff in Hs. destruct Hs as [Ha _]. now rewrite Ha.
Qed.

Lemma tag_row_fresh st k :
  (forall r, In r (tags st) -> tag_id r <> k) -> tag_row st k = None.
Proof.
  intros H. unfold tag_row. rewrite filter_none; auto.
  intros r Hr. apply Z.eqb_neq. now apply H.
Qed.

Lemma tag_row_In st k r : tag_row st k = Some r -> In r (tags st).
Proof.
  unfold tag_row.
  destruct (filter _ (tags st)) as [|r' l] eqn:E; [discriminate|].
  intros [= <-].
  assert (In r' (filter (fun r => Z.eqb (tag_id r) k) (tags st))) as Hin
    by (rewrite E; now left).
  now apply filter_In in Hin.
Qed.

Lemma tag_row_CREATE_TAG st name ptext k :
  tag_row (CREATE_TAG st name ptext) k
  = match tag_row st k with
    | Some r => Some r
    | None =>
        if Z.eqb (next_rowid (map tag_id (tags st))) k
        then Some (mkTag (next_rowid (map tag_id (tags st))) name 0
                         (Some ptext) (Some "") (Some ""))
        else None
    end.
Proof.
  unfold tag_row, CREATE_TAG. cbn [tags]. rewrite filter_app.
  destruct (filter _ (tags st)); simpl; auto.
  destruct (Z.eqb _ k); reflexivity.
Qed.

Lemma GET_TAG_ID_CREATE_TAG st name ptext :
  tags_named st name = [] ->
  GET_TAG_ID (CREATE_TAG st name ptext) name
  = Some (to_text (next_rowid (map tag_id (tags st)))).
Proof.
  unfold tags_named, GET_TAG_ID, CREATE_TAG. cbn [tags]. intros E.
  rewrite filter_app, E. simpl. now rewrite String.eqb_refl.
Qed.

Lemma filter_map_pres {A} (f : A -> bool) (g : A -> A) l :
  (forall r, f (g r) = f r) -> filter f (map g l) = map g (filter f l).
Proof.
  intros H. induction l as [|r l IH]; simpl; auto.
  rewrite H. destruct (f r); simpl; now rewrite IH.
Qed.

Lemma executeSV_map {A} (col : A -> option string) (g : A -> A) rows :
  (forall r, col (g r) = col r) ->
  executeSV col (map g rows) = executeSV col rows.
Proof. intros H. destruct rows; simpl; auto. Qed.

Lemma GET_TAG_ID_UPDATE_CHILD st text k name :
  GET_TAG_ID (UPDATE_CHILD_TAG_IDS st text k) name = GET_TAG_ID st name.
Proof.
  unfold GET_TAG_ID, UPDATE_CHILD_TAG_IDS. cbn [tags].
  rewrite filter_map_pres.
  - apply executeSV_map. intros r. destruct (Z.eqb (tag_id r) k); auto.
  - intros r. destruct (Z.eqb (tag_id r) k); auto.
Qed.

Section CreateTag.

Variable fuel : nat.

(** X18 -- [createTag] with a plain name.  Let [tag] be non-empty and
    slash-free and borne by no tag row, the root row have well-formed
    lists and the next rowid fit an [int].  Then [createTag] returns [0];
    in the new store [getTagID] of the name is the text of the new rowid,
    the root's [child_tags] is the old list with the new id appended, the
    new tag has [parent_tags] [0], no child and no file, [files] is as
    before, and creating the tag again fails with EEXIST. *)
Theorem createTag_plain (st : DB) (tag : string) :
  tag <> "" -> occurs "/" tag = false ->
  tag_ok st "0" = true ->
  fits_int (next_rowid (map tag_id (tags st))) = true ->
  tags_named st tag = [] ->
  exists st' cs,
    let tagID := to_text (next_rowid (map tag_id (tags st))) in
    createTag (S fuel) st tag = Some (0%Z, st') /\
    getTagID (S fuel) st' tag = Some tagID /\
    getChildTagIDs st "0" = Some cs /\
    getChildTagIDs st' "0" = Some (cs ++ [tagID]) /\
    getParentTagIDs st' tagID = Some ["0"] /\
    getChildTagIDs st' tagID = Some [] /\
    getFileIDsUnderTagID st' tagID = Some [] /\
    files st' = files st /\
    createTag (S fuel) st' tag = Some (EEXIST, st').
Proof.
  intros Hne Hslash Hroot Hfit Hnone.
  destruct (tag_ok_inv st "0" Hroot)
    as (k0 & r0 & _ & ctext & _ & Hs0 & _ & Hr0 & _ & Hc0 & _ & _ & Hg0 & _).
  change (stoi "0") with (Some 0%Z) in Hs0. injection Hs0 as <-.
  set (newid := next_rowid (map tag_id (tags st))) in *.
  assert (Hpos : (0 < newid)%Z).
  { pose proof (tag_row_key st 0 r0 Hr0) as Hk.
    pose proof (tag_row_In st 0 r0 Hr0) as Hin.
    rewrite <- Hk. apply next_rowid_fresh. now apply in_map. }
  assert (Hfresh : tag_row st newid = None).
  { apply tag_row_fresh. intros r Hr.
    assert (tag_id r < newid)%Z; [|lia].
    apply next_rowid_fresh. now apply in_map. }
  set (st1 := CREATE_TAG st tag "0;").
  set (cs := deserializeStrings ctext ";") in *.
  set (st2 := UPDATE_CHILD_TAG_IDS st1
                (serializeStrings (cs ++ [to_text newid]) ";") 0).
  assert (Hr01 : tag_row st1 0 = Some r0).
  { unfold st1. now rewrite tag_row_CREATE_TAG, Hr0. }
  assert (Hchild0 : getChildTagIDs st "0" = Some cs).
  { now rewrite (getChildTagIDs_row st "0" 0 r0 eq_refl Hr0), Hc0. }
  assert (Hchild1 : getChildTagIDs st1 "0" = Some cs).
  { now rewrite (getChildTagIDs_row st1 "0" 0 r0 eq_refl Hr01), Hc0. }
  assert (Hid1 : GET_TAG_ID st1 tag = Some (to_text newid)).
  { unfold st1. now apply GET_TAG_ID_CREATE_TAG. }
  assert (Hid2 : GET_TAG_ID st2 tag = Some (to_text newid)).
  { unfold st2. now rewrite GET_TAG_ID_UPDATE_CHILD. }
  assert (Hnew2 : tag_row st2 newid
                  = Some (mkTag newid tag 0 (Some "0;") (Some "")
                                (Some ""))).
  { unfold st2. rewrite tag_row_UPDATE_CHILD. unfold st1.
    rewrite tag_row_CREATE_TAG, Hfresh. fold newid.
    rewrite Z.eqb_refl. simpl.
    destruct (Z.eqb_spec newid 0); [lia|reflexivity]. }
  assert (Hcreate : createTag (S fuel) st tag = Some (0%Z, st2)).
  { unfold createTag. rewrite getTagID_plain by assumption.
    assert (GET_TAG_ID st tag = Some "") as ->.
    { unfold GET_TAG_ID. unfold tags_named in Hnone. now rewrite Hnone. }
    cbn [String.eqb negb].
    rewrite (proj2 (find_first_of_none tag "/") Hslash).
    unfold createTagUnder. change ("0" +s+ ";") with "0;". fold st1.
    rewrite getTagID_plain by assumption. rewrite Hid1.
    destruct (String.eqb_spec (to_text newid) "") as [C|_];
      [now apply to_text_nonempty in C|].
    rewrite Hchild1. reflexivity. }
  exists st2, cs. cbv zeta.
  split; [exact Hcreate|].
  split; [now rewrite getTagID_plain|].
  split; [exact Hchild0|].
  assert (Hsn : stoi (to_text newid) = Some newid)
    by now apply stoi_to_text.
  split; [|split; [|split; [|split; [|split]]]].
  - rewrite (getChildTagIDs_row st2 "0" 0
               (set_child_tags
                  (serializeStrings (cs ++ [to_text newid]) ";") r0)
               eq_refl).
    + simpl. rewrite roundtrip_good; auto.
      apply forallb_snoc; auto. apply good_id_to_text.
    + unfold st2. rewrite tag_row_UPDATE_CHILD, Hr01. reflexivity.
  - now rewrite (getParentTagIDs_row st2 _ newid _ Hsn Hnew2).
  - now rewrite (getChildTagIDs_row st2 _ newid _ Hsn Hnew2).
  - rewrite (getFileIDsUnderTagID_row st2 _ newid _
               (to_text_nonempty newid) Hsn Hnew2). reflexivity.
  - reflexivity.
  - unfold createTag. rewrite getTagID_plain by assumption. rewrite Hid2.
    destruct (String.eqb_spec (to_text newid) "") as [C|_];
      [now apply to_text_nonempty in C|]. reflexivity.
Qed.

End CreateTag.

(** ** Deleting a tag *)

Lemma tag_ok_same_row st1 st2 id :
  (forall k, stoi id = Some k -> tag_row st1 k = tag_row st2 k) ->
  tag_ok st1 id = tag_ok st2 id.
Proof.
  intros H. unfold tag_ok. destruct (stoi id) as [k|]; auto.
  now rewrite (H k eq_refl).
Qed.

Lemma getChildTagIDs_same_row st1 st2 id :
  (forall k, stoi id = Some k -> tag_row st1 k = tag_row st2 k) ->
  getChildTagIDs st1 id = getChildTagIDs st2 id.
Proof.
  intros H. unfold getChildTagIDs, GET_CHILD_TAG_IDS.
  destruct (stoi id) as [k|]; auto.
  now rewrite !executeSV_tag_row, (H k eq_refl).
Qed.

Lemma tag_row_DELETE_TAG st k k' :
  tag_row (DELETE_TAG st k) k'
  = if Z.eqb k' k then None else tag_row st k'.
Proof.
  unfold tag_row, DELETE_TAG. cbn [tags].
  destruct (Z.eqb_spec k' k) as [->|Hne].
  - rewrite filter_none; auto. intros r Hr. apply filter_In in Hr.
    destruct Hr as [_ Hr]. apply negb_true_iff in Hr. exact Hr.
  - assert (filter (fun r => Z.eqb (tag_id r) k')
              (filter (fun r => negb (Z.eqb (tag_id r) k)) (tags st))
            = filter (fun r => Z.eqb (tag_id r) k') (tags st)) as ->;
      [|reflexivity].
    induction (tags st) as [|r l IH]; simpl; auto.
    destruct (Z.eqb_spec (tag_id r) k) as [E|E]; simpl.
    + destruct (Z.eqb_spec (tag_id r) k'); [congruence|]. exact IH.
    + destruct (Z.eqb (tag_id r) k'); simpl; now rewrite IH.
Qed.

Lemma tag_ok_key st id :
  tag_ok st id = true -> exists k, stoi id = Some k /\ id = to_text k.
Proof.
  intros H. destruct (tag_ok_inv st id H) as (k & _ & _ & _ & _ & Hs & Ht & _).
  eauto.
Qed.

Lemma tag_ok_children st id :
  tag_ok st id = true ->
  exists k r cs,
    stoi id = Some k /\ id = to_text k /\ tag_row st k = Some r /\
    getChildTagIDs st id = Some cs /\ forallb good_id cs = true.
Proof.
  intros H.
  destruct (tag_ok_inv st id H)
    as (k & r & _ & ctext & _ & Hs & Ht & Hr & _ & Hc & _ & _ & Hg & _).
  exists k, r, (deserializeStrings ctext ";").
  repeat split; auto.
  now rewrite (getChildTagIDs_row st id k r Hs Hr), Hc.
Qed.

(** The loop over the parents: every parent loses the first occurrence of
    the tag in its [child_tags]; the other rows stay. *)
Lemma deleteTagLoop_spec tagID : forall ps st,
  NoDup ps ->
  (forall p, In p ps -> tag_ok st p = true /\ child_edge st p tagID) ->
  exists st',
    deleteTagLoop st tagID ps = Some st' /\
    files st' = files st /\
    (forall k, (forall p, In p ps -> stoi p <> Some k) ->
               tag_row st' k = tag_row st k) /\
    (forall p cs, In p ps -> getChildTagIDs st p = Some cs ->
                  getChildTagIDs st' p = Some (vec_erase tagID cs)).
Proof.
  induction ps as [|p ps IH]; intros st Hnd Hps.
  - exists st. simpl. repeat split; auto. intros p cs [].
  - inversion Hnd as [|? ? Hp Hnd']; subst.
    destruct (Hps p (or_introl eq_refl)) as [Hok (cs0 & Hcs0 & Hin0)].
    destruct (tag_ok_children st p Hok)
      as (kp & rp & cs & Hsp & Htp & Hrp & Hcs & Hg).
    assert (cs0 = cs) as -> by congruence.
    simpl. rewrite Hcs.
    apply vec_mem_In in Hin0. rewrite Hin0.
    unfold updateChildTagIDs. rewrite Hsp.
    set (st1 := UPDATE_CHILD_TAG_IDS st
                  (serializeStrings (vec_erase tagID cs) ";") kp).
    assert (Hother : forall q k, In q ps -> tag_ok st q = true ->
                                 stoi q = Some k ->
                                 tag_row st1 k = tag_row st k).
    { intros q k Hq Hokq Hsq. unfold st1. rewrite tag_row_UPDATE_CHILD.
      destruct (Z.eqb_spec k kp) as [->|Hne].
      - exfalso. destruct (tag_ok_key st q Hokq) as (k' & Hs' & Ht').
        assert (k' = kp) by congruence. subst k'.
        apply Hp. congruence.
      - destruct (tag_row st k); reflexivity. }
    destruct (IH st1 Hnd') as (st' & Eloop & Hfiles & Hrows & Hchild).
    { intros q Hq. destruct (Hps q (or_intror Hq)) as [Hokq Hedge].
      assert (Hsame : forall k, stoi q = Some k ->
                                tag_row st1 k = tag_row st k)
        by (intros k Hk; now apply (Hother q k)).
      split.
      - now rewrite (tag_ok_same_row st1 st q Hsame).
      - unfold child_edge.
        now rewrite (getChildTagIDs_same_row st1 st q Hsame). }
    exists st'. split; [exact Eloop|]. split; [exact Hfiles|]. split.
    + intros k Hk. rewrite Hrows.
      * unfold st1. rewrite tag_row_UPDATE_CHILD.
        destruct (Z.eqb_spec k kp) as [->|Hne].
        -- exfalso. apply (Hk p (or_introl eq_refl)). exact Hsp.
        -- destruct (tag_row st k); reflexivity.
      * intros q Hq. apply Hk. now right.
    + intros q cq [<-|Hq] Hcq.
      * assert (cq = cs) as -> by congruence.
        assert (getChildTagIDs st' p = getChildTagIDs st1 p) as ->.
        { apply getChildTagIDs_same_row. intros k Hk.
          apply Hrows. intros q Hq Hsq.
          destruct (Hps q (or_intror Hq)) as [Hokq _].
          destruct (tag_ok_key st q Hokq) as (k' & Hs' & Ht').
          apply Hp. congruence. }
        rewrite (getChildTagIDs_row st1 p kp
                   (set_child_tags
                      (serializeStrings (vec_erase tagID cs) ";") rp) Hsp).
        -- simpl. rewrite roundtrip_good; auto.
           now apply forallb_vec_erase.
        -- unfold st1. rewrite tag_row_UPDATE_CHILD, Hrp. simpl.
           now rewrite Z.eqb_refl.
      * apply Hchild; auto.
        destruct (Hps q (or_intror Hq)) as [Hokq _].
        rewrite <- Hcq. apply getChildTagIDs_same_row.
        intros k Hk. now apply (Hother q k).
Qed.

Section DeleteTag.

Variable fuel : nat.

(** X19 -- [deleteTag].  Let the path resolve to [tagID], empty or the
    id of a row of [tags] with well-formed id lists, whose parents are
    pairwise different rows with well-formed lists that each hold [tagID]
    in their [child_tags].  Then the call returns: ENOENT with the store
    unchanged when [tagID] is empty; ENOTEMPTY with the store unchanged
    when the tag has a file or a child tag; and otherwise [0], after which
    no row has the tag's key, every parent's [child_tags] is its old list
    without the first occurrence of [tagID], and [files] is as before. *)
Theorem deleteTag_spec (st : DB) (tagPath tagID : string) :
  getTagID fuel st tagPath = Some tagID ->
  (tagID = "" \/ tag_ok st tagID = true) ->
  (forall ps, getParentTagIDs st tagID = Some ps ->
     NoDup ps /\
     forall p, In p ps -> tag_ok st p = true /\ child_edge st p tagID) ->
  exists r st',
    deleteTag fuel st tagPath = Some (r, st') /\
    (tagID = "" -> r = ENOENT /\ st' = st) /\
    (tagID <> "" ->
     exists k fs cs ps,
       stoi tagID = Some k /\
       getFileIDsUnderTagID st tagID = Some fs /\
       getChildTagIDs st tagID = Some cs /\
       getParentTagIDs st tagID = Some ps /\
       (fs <> [] \/ cs <> [] -> r = ENOTEMPTY /\ st' = st) /\
       (fs = [] /\ cs = [] ->
        r = 0%Z /\ tag_row st' k = None /\ files st' = files st /\
        forall p cp, In p ps -> getChildTagIDs st p = Some cp ->
                     getChildTagIDs st' p = Some (vec_erase tagID cp))).
Proof.
  intros Hid Hok Hparents. unfold deleteTag. rewrite Hid.
  destruct (String.eqb_spec tagID "") as [Et|Et].
  { exists ENOENT, st. split; auto. split; auto. congruence. }
  destruct Hok as [C|Hok]; [congruence|].
  destruct (tag_ok_inv st tagID Hok)
    as (k & r & ptext & ctext & ftext & Hs & Ht & Hr & Hp & Hc & Hf
        & Hgp & Hgc & Hgf).
  rewrite (getFileIDsUnderTagID_row st _ k r Et Hs Hr), Hf.
  rewrite (getChildTagIDs_row st tagID k r Hs Hr), Hc.
  rewrite (getParentTagIDs_row st tagID k r Hs Hr), Hp in *.
  set (fs := deserializeStrings ftext ";") in *.
  set (cs := deserializeStrings ctext ";") in *.
  set (ps := deserializeStrings ptext ";") in *.
  destruct (Hparents ps eq_refl) as [Hnd Hps].
  destruct fs as [|f fs'] eqn:Efs.
  2:{ exists ENOTEMPTY, st. cbn [List.length Nat.eqb negb orb].
      split; auto. split; [congruence|]. intros _.
      exists k, (f :: fs'), cs, ps.
      split; auto. split; auto. split; auto. split; auto.
      split; [auto|]. intros [C _]. discriminate. }
  destruct cs as [|c cs'] eqn:Ecs.
  2:{ exists ENOTEMPTY, st. cbn [List.length Nat.eqb negb orb].
      split; auto. split; [congruence|]. intros _.
      exists k, [], (c :: cs'), ps.
      split; auto. split; auto. split; auto. split; auto.
      split; [auto|]. intros [_ C]. discriminate. }
  cbn [List.length Nat.eqb negb orb].
  destruct (deleteTagLoop_spec tagID ps st Hnd Hps)
    as (st1 & Eloop & Hfiles & Hrows & Hchild).
  rewrite Eloop, Hs. eexists 0%Z, _. split; [reflexivity|].
  split; [congruence|]. intros _. exists k, [], [], ps.
  split; auto. split; auto. split; auto. split; auto.
  split; [intros [C|C]; congruence|]. intros _.
  split; auto. split; [|split].
  - rewrite tag_row_DELETE_TAG. now rewrite Z.eqb_refl.
  - exact Hfiles.
  - intros p cp Hin Hcp. rewrite <- (Hchild p cp Hin Hcp).
    apply getChildTagIDs_same_row. intros kp Hkp.
    rewrite tag_row_DELETE_TAG.
    destruct (Z.eqb_spec kp k) as [->|Hne]; auto.
    exfalso. destruct (Hps p Hin) as [Hokp (cp' & Hcp' & Hedge)].
    destruct (tag_ok_key st p Hokp) as (k' & Hs' & Ht').
    assert (p = tagID) as Ep by congruence. rewrite Ep in Hcp'.
    rewrite (getChildTagIDs_row st tagID k r Hs Hr), Hc in Hcp'.
    fold cs in Hcp'. rewrite Ecs in Hcp'. injection Hcp' as <-.
    destruct Hedge.
Qed.

(** X20 -- [deleteTag] when a parent does not list the tag.  If the
    path resolves to a tag without files and without child tags whose first
    parent does not hold the tag in its [child_tags], the call has no
    defined result: [erase] is handed the [end()] that [std::find]
    returned. *)
Theorem deleteTag_unlisted (st : DB) (tagPath tagID p : string)
    (ps cs : list string) :
  getTagID fuel st tagPath = Some tagID ->
  tagID <> "" ->
  getFileIDsUnderTagID st tagID = Some [] ->
  getChildTagIDs st tagID = Some [] ->
  getParentTagIDs st tagID = Some (p :: ps) ->
  getChildTagIDs st p = Some cs ->
  ~ In tagID cs ->
  deleteTag fuel st tagPath = None.
Proof.
  intros Hid Hne Hf Hc Hp Hcs Hnot. unfold deleteTag.
  rewrite Hid. destruct (String.eqb_spec tagID "") as [C|_]; [congruence|].
  rewrite Hf, Hc, Hp. cbn [List.length Nat.eqb negb orb deleteTagLoop].
  rewrite Hcs. apply vec_mem_false in Hnot. now rewrite Hnot.
Qed.

End DeleteTag.

(** ** Searching, both modes *)

Lemma sorted_NoDup l : StronglySorted str_lt l -> NoDup l.
Proof.
  induction 1 as [|x l Hl IH Hx]; constructor; auto.
  intros Hin. rewrite Forall_forall in Hx.
  exact (str_lt_irrefl x (Hx x Hin)).
Qed.

Section SearchModes.

Variable fuel : nat.
Variable st : DB.

(** X21 -- [findFileIDsWithAnyOfTags].  Let every name of [tags_]
    resolve, to the empty id or to a tag whose list of files is read.  Then
    the call returns a list [r]: empty when [tags_] is empty; empty when
    some name resolves to the empty id; and when no name does, [r] is
    strictly ascending for the order of strings, free of duplicates, and
    holds exactly the file ids that some tag of [tags_] lists. *)
Theorem findFileIDsWithAnyOfTags_spec (tags_ : list string) :
  (forall tag, In tag tags_ ->
     getTagID fuel st tag = Some "" \/
     exists id fs, tagged_files fuel st tag id fs) ->
  exists r,
    findFileIDsWithAnyOfTags fuel st tags_ = Some r /\
    (tags_ = [] -> r = []) /\
    ((exists tag, In tag tags_ /\ getTagID fuel st tag = Some "") ->
     r = []) /\
    ((forall tag, In tag tags_ -> getTagID fuel st tag <> Some "") ->
     StronglySorted str_lt r /\ NoDup r /\
     forall x, In x r <->
       exists tag id fs,
         In tag tags_ /\ tagged_files fuel st tag id fs /\ In x fs).
Proof.
  intros H.
  destruct (findFileIDsWithAnyOfTags_union fuel st tags_ H)
    as (r & E & U & K).
  exists r. split; [exact E|]. split; [|split; [exact U|]].
  - intros ->. simpl in E. congruence.
  - intros Hk. destruct (K Hk) as [S M].
    split; [exact S|]. split; [now apply sorted_NoDup|exact M].
Qed.

(** X22 -- the order of the tags does not matter to
    [findFileIDsWithAnyOfTags].  For two lists of names of which one is a
    permutation of the other, every name resolving to the empty id or to a
    tag whose list of files is read, the two calls return the same list
    (and do return). *)
Theorem findFileIDsWithAnyOfTags_order (tags1 tags2 : list string) :
  Permutation tags1 tags2 ->
  (forall tag, In tag tags1 ->
     getTagID fuel st tag = Some "" \/
     exists id fs, tagged_files fuel st tag id fs) ->
  findFileIDsWithAnyOfTags fuel st tags1
  = findFileIDsWithAnyOfTags fuel st tags2
  /\ findFileIDsWithAnyOfTags fuel st tags1 <> None.
Proof.
  intros P H.
  destruct (findFileIDsWithAnyOfTags_permutation fuel st tags1 tags2 P H)
    as (r & E1 & E2).
  rewrite E1, E2. split; [reflexivity|discriminate].
Qed.

(** Either a tag of the list does not resolve, or none fails to. *)
Lemma classic_unknown (l : list string) :
  (exists tag, In tag l /\ getTagID fuel st tag = Some "") \/
  (forall tag, In tag l -> getTagID fuel st tag <> Some "").
Proof.
  induction l as [|t l [(u & Hu & Eu)|K]].
  - right. intros t [].
  - left. exists u. split; [now right|exact Eu].
  - destruct (getTagID fuel st t) as [id|] eqn:E.
    + destruct (String.eqb_spec id "") as [->|Hne].
      * left. exists t. split; [now left|exact E].
      * right. intros u [<-|Hu]; [congruence|now apply K].
    + right. intros u [<-|Hu]; [congruence|now apply K].
Qed.

Lemma strictLoop_unknown tags_ : forall matches result,
  (forall tag, In tag tags_ ->
     getTagID fuel st tag = Some "" \/
     exists id fs, tagged_files fuel st tag id fs) ->
  (exists tag, In tag tags_ /\ getTagID fuel st tag = Some "") ->
  findFileIDsWithTagsLoop fuel st tags_ matches result = Some [].
Proof.
  induction tags_ as [|tag rest IH]; intros matches result H (u & Hu & Eu).
  - destruct Hu.
  - simpl. destruct (H tag (or_introl eq_refl)) as [E|(id & fs & Hid & Hne & Hfs)].
    + now rewrite E.
    + rewrite Hid. destruct (String.eqb_spec id "") as [C|_]; [congruence|].
      rewrite Hfs. apply IH.
      * intros t Ht. apply H. now right.
      * destruct Hu as [<-|Hu]; [congruence|]. eauto.
Qed.

(** X23 -- [findFileIDsWithTags] (strict search).  Let the list of names
    be [tag0 :: rest] and every name resolve, to the empty id or to a tag
    whose list of files is read.  Then the call returns a list [r]: empty
    when some name resolves to the empty id; and when none does, with
    [fs0] the files of [tag0]: [r] is [fs0] as stored when [rest] is empty;
    and when [rest] begins with [tag1], whose files are [fs1], the members
    of [r] are exactly the ids that are in [fs0] and in [fs1], and [r] is
    the intersection of the two sorted lists when [tag1] is the last name. *)
Theorem findFileIDsWithTags_spec (tag0 : string) (rest : list string) :
  (forall tag, In tag (tag0 :: rest) ->
     getTagID fuel st tag = Some "" \/
     exists id fs, tagged_files fuel st tag id fs) ->
  exists r,
    findFileIDsWithTags fuel st (tag0 :: rest) = Some r /\
    ((exists tag, In tag (tag0 :: rest) /\ getTagID fuel st tag = Some "") ->
     r = []) /\
    ((forall tag, In tag (tag0 :: rest) ->
        getTagID fuel st tag <> Some "") ->
     forall id0 fs0, tagged_files fuel st tag0 id0 fs0 ->
       (rest = [] -> r = fs0) /\
       (forall tag1 rest' id1 fs1,
          rest = tag1 :: rest' -> tagged_files fuel st tag1 id1 fs1 ->
          (rest' = [] -> r = set_intersection (sort fs0) (sort fs1)) /\
          forall x, In x r <-> In x fs0 /\ In x fs1)).
Proof.
  intros H.
  destruct (H tag0 (or_introl eq_refl)) as [E0|(id0 & fs0 & T0)].
  { exists []. unfold findFileIDsWithTags. rewrite E0. simpl.
    split; auto. split; auto. intros K. exfalso.
    apply (K tag0 (or_introl eq_refl) E0). }
  pose proof T0 as (H0 & N0 & F0).
  destruct (classic_unknown rest) as [U|K].
  - exists []. unfold findFileIDsWithTags. rewrite H0.
    destruct (String.eqb_spec id0 "") as [C|_]; [congruence|].
    rewrite F0. rewrite strictLoop_unknown; auto.
    + split; auto. split; auto. intros K. exfalso.
      destruct U as (u & Hu & Eu). apply (K u (or_intror Hu) Eu).
    + intros t Ht. apply H. now right.
  - assert (Hk : forall tag, In tag rest ->
                   exists id fs, tagged_files fuel st tag id fs).
    { intros t Ht. destruct (H t (or_intror Ht)) as [C|T]; auto.
      exfalso. apply (K t Ht C). }
    destruct rest as [|tag1 rest'].
    + exists fs0. unfold findFileIDsWithTags. rewrite H0.
      destruct (String.eqb_spec id0 "") as [C|_]; [congruence|].
      rewrite F0. simpl. split; auto. split.
      * intros (u & [<-|[]] & Eu). congruence.
      * intros _ id0' fs0' (H0' & _ & F0').
        assert (id0' = id0) as -> by congruence.
        assert (fs0' = fs0) as -> by congruence.
        split; auto. intros tag1 rest' id1 fs1 C. discriminate.
    + destruct (Hk tag1 (or_introl eq_refl)) as (id1 & fs1 & T1).
      destruct (findFileIDsWithTags_first_two fuel st tag0 tag1 rest'
                  id0 id1 fs0 fs1 T0 T1) as (r & E & M).
      { intros t Ht. apply Hk. now right. }
      exists r. split; [exact E|]. split.
      * intros (u & Hu & Eu). exfalso.
        destruct Hu as [<-|Hu]; [congruence|]. apply (K u Hu Eu).
      * intros _ id0' fs0' (H0' & _ & F0').
        assert (id0' = id0) as -> by congruence.
        assert (fs0' = fs0) as -> by congruence.
        split; [discriminate|].
        intros tag1' rest'' id1' fs1' Er (H1' & _ & F1').
        injection Er as <- <-.
        destruct T1 as (H1 & N1 & F1).
        assert (id1' = id1) as -> by congruence.
        assert (fs1' = fs1) as -> by congruence.
        split; [|exact M]. intros ->.
        unfold findFileIDsWithTags in E. rewrite H0 in E.
        destruct (String.eqb_spec id0 "") as [C|_]; [congruence|].
        rewrite F0 in E. simpl in E. rewrite H1 in E.
        destruct (String.eqb_spec id1 "") as [C|_]; [congruence|].
        rewrite F1 in E. simpl in E. congruence.
Qed.

End SearchModes.

(** ** Reading the tags of a file and the blob of a tagged file *)

Lemma GET_FILE_TAGS_rows_spec rows :
  (forall r, In r rows -> files_ids r <> None) ->
  exists results,
    GET_FILE_TAGS_rows rows = Some results /\
    forall n text,
      (exists a, In (a, n, text) results) <->
      exists r, In r rows /\ tag_name r = n /\ files_ids r = Some text.
Proof.
  induction rows as [|r rows IH]; intros H.
  - exists []. split; auto. intros n text. split.
    + intros [a []].
    + intros (r & [] & _).
  - destruct IH as (results & E & M); [intros x Hx; apply H; now right|].
    simpl. destruct (files_ids r) as [f|] eqn:Ef;
      [|exfalso; now apply (H r (or_introl eq_refl))].
    rewrite E. eexists. split; [reflexivity|].
    intros n text. split.
    + intros (a & [[= <- <- <-]|Hin]).
      * exists r. auto.
      * destruct (proj1 (M n text) (ex_intro _ a Hin)) as (r' & Hr' & Hn & Ht).
        exists r'. auto.
    + intros (r' & [<-|Hr'] & Hn & Ht).
      * exists (to_text (tag_id r)). left. congruence.
      * destruct (proj2 (M n text)) as [a Ha]; [eauto|].
        exists a. now right.
Qed.

(** X24 -- [getFileTags].  Let [fileID] read as a number and no tag row
    have a NULL [files_ids].  Then the call returns a list [l]: empty when
    no file has the id (its name reads as empty); otherwise a name is in
    [l] exactly when some tag row bears it and holds [fileID] in its
    [files_ids]. *)
Theorem getFileTags_spec (st : DB) (fileID : string) (k : Z) :
  stoi fileID = Some k ->
  (forall r, In r (tags st) -> is_tag r = true -> files_ids r <> None) ->
  exists l,
    getFileTags st fileID = Some l /\
    (getFilenameFromID st fileID = Some "" -> l = []) /\
    (getFilenameFromID st fileID <> Some "" ->
     forall n,
       In n l <->
       exists r text,
         In r (tags st) /\ is_tag r = true /\ tag_name r = n /\
         files_ids r = Some text /\
         In fileID (deserializeStrings text ";")).
Proof.
  intros Hs Hnull. unfold getFileTags, getFilenameFromID. rewrite Hs.
  unfold GET_FILENAME_FROM_ID.
  destruct (executeSV _ _) as [name|] eqn:En;
    [|destruct (filter _ (files st)); discriminate].
  destruct (String.eqb_spec name "") as [->|Hne].
  { exists []. split; auto. split; auto. congruence. }
  unfold GET_FILE_TAGS.
  destruct (GET_FILE_TAGS_rows_spec (filter is_tag (tags st)))
    as (results & E & M).
  { intros r Hr. apply filter_In in Hr. now apply Hnull. }
  rewrite E. eexists. split; [reflexivity|]. split; [congruence|].
  intros _ n. rewrite in_flat_map. split.
  - intros ([[a n'] text] & Hin & Hn).
    apply in_map_iff in Hn. destruct Hn as (id & <- & Hid).
    apply filter_In in Hid. destruct Hid as [Hid Heq].
    apply String.eqb_eq in Heq. subst id.
    destruct (proj1 (M n' text) (ex_intro _ a Hin)) as (r & Hr & Hrn & Hrt).
    apply filter_In in Hr. destruct Hr as [Hr Htag].
    exists r, text. auto.
  - intros (r & text & Hr & Htag & Hrn & Hrt & Hin).
    destruct (proj2 (M n text)) as [a Ha].
    { exists r. split; auto. apply filter_In. auto. }
    exists (a, n, text). split; auto.
    apply in_map_iff. exists fileID. split; auto.
    apply filter_In. split; auto. apply String.eqb_refl.
Qed.

Section TaggedFilePath.

Variable rootDirectory : string.
Variable fuel : nat.

Lemma findTaggedFilePath_found st name ids :
  findTaggedFilePath rootDirectory st name ids
  = match findTaggedFile st name ids with
    | Some fileID =>
        if String.eqb fileID "" then Some ""
        else
          fid <- stoi fileID ;;
          hash_ <- GET_TAGGED_FILE_PATH st fid ;;
          Some (rootDirectory +s+ "/" +s+ hash_)
    | None => None
    end.
Proof.
  induction ids as [|id ids IH]; simpl; auto.
  unfold getFilenameFromID at 1 2.
  destruct (stoi id) as [fid|] eqn:Es; auto.
  destruct (GET_FILENAME_FROM_ID st fid) as [n|]; auto.
  destruct (String.eqb name n); auto.
  destruct (String.eqb_spec id "") as [->|_]; [discriminate|].
  now rewrite Es.
Qed.

(** X25 -- [getTaggedFilePath] and [getTaggedFileID] find the same file.
    Let the parent tag of the path resolve to [tagID] and [getTaggedFileID]
    of [tagID] and the leaf name return [fileID].  If [fileID] is empty the
    path maps to the empty string; otherwise [fileID] is a number, the file
    with that id bears the leaf name, and the path maps to
    [rootDirectory/hash] with the hash of that file. *)
Theorem getTaggedFilePath_agrees (st : DB) (relativePath : string)
    (tagID fileID : string) :
  getParentTagIDFromPath fuel st relativePath = Some tagID ->
  getTaggedFileID st tagID (getFilename relativePath) = Some fileID ->
  (fileID = "" ->
   getTaggedFilePath rootDirectory fuel st relativePath = Some "") /\
  (fileID <> "" ->
   exists fid hash_,
     stoi fileID = Some fid /\
     GET_TAGGED_FILE_PATH st fid = Some hash_ /\
     getFilenameFromID st fileID = Some (getFilename relativePath) /\
     getTaggedFilePath rootDirectory fuel st relativePath
     = Some (rootDirectory +s+ "/" +s+ hash_)).
Proof.
  intros Hp Hf. unfold getTaggedFilePath. rewrite Hp.
  unfold getTaggedFileID in Hf.
  destruct (String.eqb_spec tagID "") as [Et|Et].
  { injection Hf as <-. split; auto. congruence. }
  cbn [negb].
  destruct (getFileIDsUnderTagID st tagID) as [ids|]; [|discriminate].
  rewrite findTaggedFilePath_found, Hf. split.
  - intros ->. reflexivity.
  - intros Hne. destruct (String.eqb_spec fileID "") as [C|_]; [congruence|].
    destruct (findTaggedFile_found st _ _ _ Hf Hne) as [_ Hname].
    pose proof Hname as Hname'. unfold getFilenameFromID in Hname'.
    destruct (stoi fileID) as [fid|]; [|discriminate].
    assert (exists h, GET_TAGGED_FILE_PATH st fid = Some h) as [h Eh].
    { unfold GET_TAGGED_FILE_PATH. destruct (filter _ (files st)); simpl;
        eauto. }
    exists fid, h. rewrite Eh. auto.
Qed.

End TaggedFilePath.

(** ** The tag requests leave table [files] alone *)

(** Take a computation that returned apart, one test at a time. *)
Ltac returned H :=
  repeat match type of H with
  | Some _ = Some _ => injection H as H; try subst
  | None = Some _ => discriminate H
  | (match ?x with _ => _ end) = Some _ =>
      let E := fresh "E" in destruct x eqn:E; try discriminate H
  end.

Lemma updateChildTagIDs_files st t l st' :
  updateChildTagIDs st t l = Some st' -> files st' = files st.
Proof.
  unfold updateChildTagIDs. intros H. returned H. reflexivity.
Qed.

Lemma updateParentTagIDs_files st t l st' :
  updateParentTagIDs st t l = Some st' -> files st' = files st.
Proof.
  unfold updateParentTagIDs. intros H. returned H. reflexivity.
Qed.

Lemma updateTagFileIDs_files st t l st' :
  updateTagFileIDs st t l = Some st' -> files st' = files st.
Proof.
  unfold updateTagFileIDs. intros H. returned H. reflexivity.
Qed.

Section TagOps.

Variable rootDirectory : string.
Variable fuel : nat.
Variable unlink : string -> Z * Z.

Lemma createTagUnder_files st tag p r st' :
  createTagUnder fuel st tag p = Some (r, st') -> files st' = files st.
Proof.
  unfold createTagUnder. intros H. returned H; auto.
  match goal with
  | E : updateChildTagIDs _ _ _ = Some _ |- _ =>
      apply updateChildTagIDs_files in E; rewrite E
  end. reflexivity.
Qed.

Lemma createTag_files st tagPath r st' :
  createTag fuel st tagPath = Some (r, st') -> files st' = files st.
Proof.
  unfold createTag. intros H. returned H; auto.
  all: now apply createTagUnder_files in H.
Qed.

Lemma deleteTagLoop_files tagID ps : forall st st',
  deleteTagLoop st tagID ps = Some st' -> files st' = files st.
Proof.
  induction ps as [|p ps IH]; simpl; intros st st' H.
  - now injection H as <-.
  - returned H. apply IH in H. rewrite H.
    match goal with
    | E : updateChildTagIDs _ _ _ = Some _ |- _ =>
        now apply updateChildTagIDs_files in E
    end.
Qed.

Lemma deleteTag_files st tagPath r st' :
  deleteTag fuel st tagPath = Some (r, st') -> files st' = files st.
Proof.
  unfold deleteTag. intros H. returned H; auto.
  match goal with
  | E : deleteTagLoop _ _ _ = Some _ |- _ =>
      now apply deleteTagLoop_files in E
  end.
Qed.

Lemma tagSingleFile_files st f t r st' :
  tagSingleFile st f t = Some (r, st') -> files st' = files st.
Proof.
  unfold tagSingleFile. intros H. returned H; auto.
  match goal with
  | E : updateTagFileIDs _ _ _ = Some _ |- _ =>
      now apply updateTagFileIDs_files in E
  end.
Qed.

Lemma untagSingleFile_files st f t r st' :
  untagSingleFile st f t = Some (r, st') -> files st' = files st.
Proof.
  unfold untagSingleFile. intros H. returned H; auto.
  match goal with
  | E : updateTagFileIDs _ _ _ = Some _ |- _ =>
      now apply updateTagFileIDs_files in E
  end.
Qed.

Lemma forEachFile_files (f : DB -> string -> string -> option (Z * DB)) err
    ids t :
  (forall st x r st', f st x t = Some (r, st') -> files st' = files st) ->
  forall st rv r st',
    forEachFile f err st ids t rv = Some (r, st') -> files st' = files st.
Proof.
  intros Hf. induction ids as [|id ids IH]; simpl; intros st rv r st' H.
  - now injection H as _ <-.
  - destruct (f st id t) as [[r1 st1]|] eqn:E; [|discriminate].
    apply IH in H. rewrite H. now apply Hf in E.
Qed.

Lemma tagFiles_files st filePath tag r st' :
  tagFiles fuel st filePath tag = Some (r, st') -> files st' = files st.
Proof.
  unfold tagFiles.
  destruct (popBackAndRemove (splitPathIntoParts filePath)) as [name parts].
  intros H.
  destruct (getFolderID st parts) as [parentFolderID|]; [|discriminate].
  destruct (getTagID fuel st tag) as [tagID|]; [|discriminate].
  destruct (String.eqb tagID "").
  - destruct (createTag fuel st tag) as [[r1 st1]|] eqn:Ec; [|discriminate].
    apply createTag_files in Ec.
    destruct (Z.eqb r1 1).
    + now injection H as _ <-.
    + destruct (getTagID fuel st1 tag) as [tagID'|]; [|discriminate].
      destruct (negb (String.eqb parentFolderID ""));
        [|injection H as _ <-; exact Ec].
      destruct (getFileID st1 name parentFolderID) as [fileID|];
        [|discriminate].
      destruct (negb (String.eqb fileID "")).
      * apply tagSingleFile_files in H. congruence.
      * destruct (getFolderID2 st1 name parentFolderID) as [folderID|];
          [|discriminate].
        destruct (negb (String.eqb folderID ""));
          [|injection H as _ <-; exact Ec].
        destruct (getFileIDsInFolder st1 folderID) as [fileIDs|];
          [|discriminate].
        apply forEachFile_files in H;
          [congruence|intros; eapply tagSingleFile_files; eauto].
  - destruct (negb (String.eqb parentFolderID ""));
      [|now injection H as _ <-].
    destruct (getFileID st name parentFolderID) as [fileID|];
      [|discriminate].
    destruct (negb (String.eqb fileID "")).
    + now apply tagSingleFile_files in H.
    + destruct (getFolderID2 st name parentFolderID) as [folderID|];
        [|discriminate].
      destruct (negb (String.eqb folderID ""));
        [|now injection H as _ <-].
      destruct (getFileIDsInFolder st folderID) as [fileIDs|];
        [|discriminate].
      apply forEachFile_files in H;
        [exact H|intros; eapply tagSingleFile_files; eauto].
Qed.

Lemma untagFiles_files st filePath tag r st' :
  untagFiles fuel st filePath tag = Some (r, st') -> files st' = files st.
Proof.
  unfold untagFiles.
  destruct (popBackAndRemove (splitPathIntoParts filePath)) as [name parts].
  intros H.
  destruct (getFolderID st parts) as [parentFolderID|]; [|discriminate].
  destruct (getTagID fuel st tag) as [tagID|]; [|discriminate].
  destruct (negb (String.eqb tagID "")
            && negb (String.eqb parentFolderID ""));
    [|now injection H as _ <-].
  destruct (getFileID st name parentFolderID) as [fileID|]; [|discriminate].
  destruct (negb (String.eqb fileID "")).
  - now apply untagSingleFile_files in H.
  - destruct (getFolderID2 st name parentFolderID) as [folderID|];
      [|discriminate].
    destruct (negb (String.eqb folderID "")); [|now injection H as _ <-].
    destruct (getFileIDsInFolder st folderID) as [fileIDs|]; [|discriminate].
    apply forEachFile_files in H;
      [exact H|intros; eapply untagSingleFile_files; eauto].
Qed.

Lemma nestTag_files st t p r st' :
  nestTag fuel st t p = Some (r, st') -> files st' = files st.
Proof.
  unfold nestTag. intros H. returned H; auto.
  repeat match goal with
  | E : updateChildTagIDs _ _ _ = Some _ |- _ =>
      apply updateChildTagIDs_files in E
  | E : updateParentTagIDs _ _ _ = Some _ |- _ =>
      apply updateParentTagIDs_files in E
  end. congruence.
Qed.

Lemma unnestTag_files st t p r st' :
  unnestTag st t p = Some (r, st') -> files st' = files st.
Proof.
  unfold unnestTag. intros H. returned H; auto.
  repeat match goal with
  | E : updateChildTagIDs _ _ _ = Some _ |- _ =>
      apply updateChildTagIDs_files in E
  | E : updateParentTagIDs _ _ _ = Some _ |- _ =>
      apply updateParentTagIDs_files in E
  end. congruence.
Qed.

Lemma renameTaggedPath_files st oldPath newPath r st' :
  renameTaggedPath fuel st oldPath newPath = Some (r, st') ->
  files st' = files st.
Proof.
  unfold renameTaggedPath. intros H.
  destruct (getParentTagIDFromPath fuel st oldPath) as [op|];
    [|discriminate].
  destruct (getParentTagIDFromPath fuel st newPath) as [np|];
    [|discriminate].
  destruct (String.eqb op "" || String.eqb np "");
    [now injection H as _ <-|].
  destruct (getTagID fuel st (getFilename oldPath)) as [ot|];
    [|discriminate].
  destruct (getTagID fuel st (getFilename newPath)) as [nt|];
    [|discriminate].
  destruct (getTaggedFileID st op (getFilename oldPath)) as [ofi|];
    [|discriminate].
  destruct (getTaggedFileID st np (getFilename newPath)) as [nfi|];
    [|discriminate].
  destruct (negb (String.eqb ofi "") && String.eqb nt ""
            && String.eqb nfi "").
  - destruct (negb (String.eqb (getFilename oldPath) (getFilename newPath)));
      [now injection H as _ <-|].
    destruct (untagSingleFile st ofi op) as [[r1 st1]|] eqn:E1;
      [|discriminate].
    destruct (tagSingleFile st1 ofi np) as [[r2 st2]|] eqn:E2;
      [|discriminate].
    injection H as _ <-.
    apply untagSingleFile_files in E1. apply tagSingleFile_files in E2.
    congruence.
  - destruct (negb (String.eqb ot "") && String.eqb nfi "");
      [|now injection H as _ <-].
    destruct (negb (String.eqb ot nt) && negb (String.eqb nt ""));
      [now injection H as _ <-|].
    assert (exists st1,
              (if negb (String.eqb np op)
               then '(_, st0) <- unnestTag st ot op ;;
                    '(_, st1) <- nestTag fuel st0 ot np ;; Some st1
               else Some st) = Some st1 /\ files st1 = files st /\
              (if String.eqb nt ""
               then tid <- stoi ot ;;
                    Some (0%Z, RENAME_TAGGED_PATH st1 (getFilename newPath)
                                 tid)
               else Some (0%Z, st1)) = Some (r, st'))
      as (st1 & E1 & F1 & E2).
    { destruct (negb (String.eqb np op)).
      - destruct (unnestTag st ot op) as [[r1 st0]|] eqn:Eu;
          [|discriminate].
        destruct (nestTag fuel st0 ot np) as [[r2 st1]|] eqn:En;
          [|discriminate].
        exists st1. split; auto. split; auto.
        apply unnestTag_files in Eu. apply nestTag_files in En. congruence.
      - exists st. auto. }
    destruct (String.eqb nt "").
    + destruct (stoi ot); [|discriminate]. injection E2 as _ <-. exact F1.
    + injection E2 as _ <-. exact F1.
Qed.

(** X26 -- the tag requests leave table [files] alone.  For every
    request among [createTag], [deleteTag], [nestTag], [unnestTag],
    [tagFiles], [untagFiles] and [renameTaggedPath], on every store and
    arguments: if the call returns, with whatever value, [files] is as
    before. *)
Theorem tag_requests_keep_files (st : DB) (op : Op) (r : Z) (st' : DB) :
  tag_op op = true ->
  step rootDirectory fuel unlink st op = Some (r, st') ->
  files st' = files st.
Proof.
  destruct op; simpl; try discriminate; intros _ H.
  - now apply createTag_files in H.
  - now apply deleteTag_files in H.
  - destruct (getTagID fuel st tag); [|discriminate].
    destruct (getTagID fuel st parentTag); [|discriminate].
    now apply nestTag_files in H.
  - destruct (getTagID fuel st tag); [|discriminate].
    destruct (getTagID fuel st parentTag); [|discriminate].
    now apply unnestTag_files in H.
  - now apply tagFiles_files in H.
  - now apply untagFiles_files in H.
  - now apply renameTaggedPath_files in H.
Qed.

End TagOps.

(** ** Deleting a file that tags refer to *)

Lemma vec_erase_notin x l : ~ In x l -> vec_erase x l = l.
Proof.
  induction l as [|y l IH]; simpl; intros H; auto.
  destruct (String.eqb_spec x y) as [->|Hne]; [tauto|].
  rewrite IH; auto.
Qed.

Lemma getFileIDsUnderTagID_same_row st1 st2 id :
  (forall k, stoi id = Some k -> tag_row st1 k = tag_row st2 k) ->
  getFileIDsUnderTagID st1 id = getFileIDsUnderTagID st2 id.
Proof.
  intros H. unfold getFileIDsUnderTagID, GET_FILE_IDS_UNDER_TAG_ID.
  destruct (String.eqb id ""); auto.
  destruct (stoi id) as [k|]; auto.
  now rewrite !executeSV_tag_row, (H k eq_refl).
Qed.

Lemma tag_ok_files st id :
  tag_ok st id = true ->
  exists k r l,
    stoi id = Some k /\ id = to_text k /\ id <> "" /\
    tag_row st k = Some r /\
    getFileIDsUnderTagID st id = Some l /\ forallb good_id l = true.
Proof.
  intros H.
  destruct (tag_ok_inv st id H)
    as (k & r & _ & _ & ftext & Hs & Ht & Hr & _ & _ & Hf & _ & _ & Hg).
  assert (Hne : id <> "") by (rewrite Ht; apply to_text_nonempty).
  exists k, r, (deserializeStrings ftext ";").
  repeat split; auto.
  now rewrite (getFileIDsUnderTagID_row st id k r Hne Hs Hr), Hf.
Qed.

Lemma listing_cons st fileID t ids l :
  getFileIDsUnderTagID st t = Some l ->
  listing st fileID (t :: ids)
  = if vec_mem fileID l then t :: listing st fileID ids
    else listing st fileID ids.
Proof. intros H. unfold listing. cbn [filter]. now rewrite H. Qed.

Lemma deleteFileLoop_spec fileID : forall ids st saved,
  NoDup ids ->
  (forall t, In t ids -> tag_ok st t = true) ->
  exists st',
    deleteFileLoop st fileID ids saved
    = Some (st', option_map (fun s => s ++ listing st fileID ids) saved) /\
    files st' = files st /\
    (forall k, (forall t, In t ids -> stoi t <> Some k) ->
               tag_row st' k = tag_row st k) /\
    (forall t l, In t ids -> getFileIDsUnderTagID st t = Some l ->
                 getFileIDsUnderTagID st' t = Some (vec_erase fileID l)).
Proof.
  induction ids as [|t ids IH]; intros st saved Hnd Hok.
  - exists st. simpl. split.
    + destruct saved; simpl; [now rewrite app_nil_r|reflexivity].
    + repeat split; auto. intros t l [].
  - inversion Hnd as [|? ? Ht Hnd']; subst.
    destruct (tag_ok_files st t (Hok t (or_introl eq_refl)))
      as (k & r & l & Hs & Htt & Hne & Hr & Hl & Hg).
    assert (Hother : forall st1,
              (forall k', k' <> k -> tag_row st1 k' = tag_row st k') ->
              forall q k', In q ids -> stoi q = Some k' ->
                           tag_row st1 k' = tag_row st k').
    { intros st1 H1 q k' Hq Hsq. apply H1. intros ->.
      destruct (tag_ok_key st q (Hok q (or_intror Hq))) as (k' & Hs' & Ht').
      apply Ht. congruence. }
    rewrite (listing_cons st fileID t ids l Hl).
    cbn [deleteFileLoop]. rewrite Hl.
    destruct (vec_mem fileID l) eqn:Em.
    + unfold updateTagFileIDs. rewrite Hs.
      set (st1 := UPDATE_TAG_FILE_IDS st
                    (serializeStrings (vec_erase fileID l) ";") k).
      assert (H1 : forall k', k' <> k -> tag_row st1 k' = tag_row st k').
      { intros k' Hk'. unfold st1. rewrite tag_row_UPDATE_FILES.
        destruct (Z.eqb_spec k' k); [congruence|].
        destruct (tag_row st k'); reflexivity. }
      destruct (IH st1 (option_map (fun s => s ++ [t]) saved) Hnd')
        as (st' & Eloop & Hfiles & Hrows & Hread).
      { intros q Hq. rewrite (tag_ok_same_row st1 st q).
        - apply Hok. now right.
        - intros k' Hk'. now apply (Hother st1 H1 q k'). }
      assert (Hlist : listing st1 fileID ids = listing st fileID ids).
      { unfold listing. apply filter_ext_in. intros q Hq.
        rewrite (getFileIDsUnderTagID_same_row st1 st q); [reflexivity|].
        intros k' Hk'. now apply (Hother st1 H1 q k'). }
      exists st'. split.
      { rewrite Eloop, Hlist. destruct saved; simpl; auto.
        now rewrite <- app_assoc. }
      split; [exact Hfiles|]. split.
      * intros k' Hk'. rewrite Hrows by (intros q Hq; apply Hk'; now right).
        apply H1. intros ->. now apply (Hk' t (or_introl eq_refl)).
      * intros q lq [<-|Hq] Hlq.
        -- assert (lq = l) as -> by congruence.
           rewrite (getFileIDsUnderTagID_same_row st' st1 t).
           ++ unfold st1.
              rewrite (files_after_update st _ k t r Hne Hs Hr).
              rewrite roundtrip_good; auto. now apply forallb_vec_erase.
           ++ intros k' Hk'. apply Hrows. intros q Hq Hsq.
              destruct (tag_ok_key st q (Hok q (or_intror Hq)))
                as (k2 & Hs2 & Ht2).
              apply Ht. congruence.
        -- apply Hread; auto. rewrite <- Hlq.
           apply getFileIDsUnderTagID_same_row.
           intros k' Hk'. now apply (Hother st1 H1 q k').
    + destruct (IH st saved Hnd') as (st' & Eloop & Hfiles & Hrows & Hread).
      { intros q Hq. apply Hok. now right. }
      exists st'. split; [exact Eloop|]. split; [exact Hfiles|]. split.
      * intros k' Hk'. apply Hrows. intros q Hq. apply Hk'. now right.
      * intros q lq [<-|Hq] Hlq.
        -- assert (lq = l) as -> by congruence.
           apply vec_mem_false in Em. rewrite vec_erase_notin by exact Em.
           rewrite <- Hl. apply getFileIDsUnderTagID_same_row.
           intros k' Hk'. apply Hrows. intros q Hq Hsq.
           destruct (tag_ok_key st q (Hok q (or_intror Hq)))
             as (k2 & Hs2 & Ht2).
           apply Ht. congruence.
        -- now apply Hread.
Qed.


Lemma to_text_inj a b :
  fits_int a = true -> fits_int b = true -> to_text a = to_text b -> a = b.
Proof.
  intros Ha Hb E. pose proof (stoi_to_text a Ha) as Sa.
  rewrite E, (stoi_to_text b Hb) in Sa. congruence.
Qed.

Lemma NoDup_tag_ids st :
  tag_ids_fit st = true -> NoDup (map tag_id (tags st)) ->
  NoDup (tag_ids st).
Proof.
  unfold tag_ids, tag_ids_fit. intros Hfit.
  rewrite forallb_forall in Hfit.
  induction (tags st) as [|r rows IH]; intros Hnd; [constructor|].
  inversion Hnd as [|? ? Hr Hnd']; subst. cbn [filter].
  assert (IH' : NoDup (map (fun r => to_text (tag_id r))
                           (filter is_tag rows))).
  { apply IH; auto. intros x Hx. apply Hfit. now right. }
  destruct (is_tag r); auto. cbn [map]. constructor; auto.
  intros Hin. apply in_map_iff in Hin. destruct Hin as (x & Ex & Hx).
  apply filter_In in Hx. destruct Hx as [Hx _].
  apply Hr. apply in_map_iff. exists x. split; auto.
  apply to_text_inj; auto.
  - apply Hfit. now right.
  - apply Hfit. now left.
Qed.

Lemma getFileIDsUnderTagID_DELETE_FILE st kf t :
  getFileIDsUnderTagID (DELETE_FILE st kf) t = getFileIDsUnderTagID st t.
Proof. reflexivity. Qed.

Section DeleteFileSuccess.

Variable rootDirectory : string.
Variable unlink : string -> Z * Z.

(** X27 -- [deleteFile] when it succeeds.  Let the tag keys be pairwise
    different and fit an [int], every tag row have well-formed id lists,
    the path name a file [fileID] (its folder and its hash are found), and
    either another file row share the hash or [unlink] of the blob return
    [0].  Then the call returns [0]; [files] loses the rows with the
    file's key and only those; the list of files of every tag is its old
    list without the first occurrence of [fileID], hence without [fileID]
    when the old list had no duplicate; and [savedTagIDs], when given, is
    replaced by the tags that listed the file. *)
Theorem deleteFile_success (st : DB) (filePath : string)
    (savedTagIDs : option (list string))
    (parentFolderID hash_ fileID : string) (kf : Z) :
  tag_ids_fit st = true ->
  NoDup (map tag_id (tags st)) ->
  (forall t, In t (tag_ids st) -> tag_ok st t = true) ->
  getFolderID st (snd (popBackAndRemove (splitPathIntoParts filePath)))
    = Some parentFolderID ->
  parentFolderID <> "" ->
  getHash st (fst (popBackAndRemove (splitPathIntoParts filePath)))
    parentFolderID = Some hash_ ->
  hash_ <> "" ->
  getFileID st (fst (popBackAndRemove (splitPathIntoParts filePath)))
    parentFolderID = Some fileID ->
  stoi fileID = Some kf ->
  (1 < List.length (filter (fun r => String.eqb (hash r) hash_) (files st))
   \/ fst (unlink (rootDirectory +s+ "/" +s+ hash_)) = 0%Z) ->
  exists st',
    deleteFile rootDirectory unlink st filePath savedTagIDs
    = Some (0%Z, st',
            option_map (fun _ => listing st fileID (tag_ids st))
                       savedTagIDs) /\
    files st' = filter (fun r => negb (Z.eqb (file_id r) kf)) (files st) /\
    forall t l,
      In t (tag_ids st) -> getFileIDsUnderTagID st t = Some l ->
      getFileIDsUnderTagID st' t = Some (vec_erase fileID l) /\
      (NoDup l -> ~ In fileID (vec_erase fileID l)).
Proof.
  intros Hfit Hkeys Hok Hfolder Hne Hhash Hhne Hfile Hsf Hunlink.
  unfold deleteFile.
  destruct (popBackAndRemove (splitPathIntoParts filePath)) as [name parts].
  cbn [fst snd] in *. rewrite Hfolder.
  destruct (String.eqb_spec parentFolderID "") as [C|_]; [congruence|].
  cbn [negb]. rewrite Hhash.
  destruct (String.eqb_spec hash_ "") as [C|_]; [congruence|].
  cbn [negb].
  assert (Hrv : match stoi (COUNT_HASH_GT_1 st hash_) with
                | Some flag =>
                    exists z, stoi (COUNT_HASH_GT_1 st hash_) = Some z /\
                      (if Z.eqb z 0
                       then let '(rv, errno) :=
                              unlink (rootDirectory +s+ "/" +s+ hash_) in
                            if Z.eqb rv (-1) then errno else rv
                       else 0%Z) = 0%Z
                | None => False
                end).
  { unfold COUNT_HASH_GT_1.
    destruct (Nat.ltb_spec 1
                (List.length
                   (filter (fun r => String.eqb (hash r) hash_) (files st))))
      as [Hmany|Hlast].
    - change (stoi "1") with (Some 1%Z). exists 1%Z. auto.
    - change (stoi "0") with (Some 0%Z). exists 0%Z. split; auto.
      destruct Hunlink as [C|Hu]; [lia|].
      change (Z.eqb 0 0) with true. cbv iota.
      destruct (unlink (rootDirectory +s+ "/" +s+ hash_)) as [rv errno].
      simpl in Hu. subst rv. reflexivity. }
  destruct (stoi (COUNT_HASH_GT_1 st hash_)) as [flag|]; [|destruct Hrv].
  destruct Hrv as (z & Ez & Hz). injection Ez as <-.
  cbv zeta. rewrite Hz. change (Z.eqb 0 0) with true. cbv iota.
  rewrite Hfile. unfold getAllTagIDs, GET_ALL_TAG_IDS.
  rewrite executeMV_total. fold (tag_ids st).
  destruct (deleteFileLoop_spec fileID (tag_ids st) st
              (option_map (fun _ => []) savedTagIDs)
              (NoDup_tag_ids st Hfit Hkeys) Hok)
    as (st1 & Eloop & Hfiles & _ & Hread).
  rewrite Eloop, Hsf. eexists. split.
  - destruct savedTagIDs; reflexivity.
  - split.
    + unfold DELETE_FILE. cbn [files]. now rewrite Hfiles.
    + intros t l Ht Hl. split.
      * rewrite getFileIDsUnderTagID_DELETE_FILE. now apply Hread.
      * apply vec_erase_NoDup.
Qed.

End DeleteFileSuccess.

(** ** The dispatcher and its answers *)

Lemma framed_single x : reply_complete x = true -> framed [x].
Proof.
  intros Hx body last E.
  destruct body as [|b body].
  - injection E as <-. split; [exact Hx|intros r []].
  - destruct body; discriminate E.
Qed.

Lemma answer_single fuse x :
  to_fuse x = fuse -> reply_complete x = true -> answer fuse [x].
Proof.
  intros Hf Hx. split; [discriminate|split].
  - intros r [<-|[]]. exact Hf.
  - now apply framed_single.
Qed.

Lemma answer_ackOrCode returnValue : answer true (ackOrCode returnValue).
Proof.
  unfold ackOrCode. destruct (Z.eqb returnValue 0);
    now apply answer_single.
Qed.

Lemma sendParts_answer (send : string -> bool -> Reply) fuse :
  (forall x c, to_fuse (send x c) = fuse) ->
  (forall x c, reply_complete (send x c) = c) ->
  forall contents, contents <> [] -> answer fuse (sendParts send contents).
Proof.
  intros Hf Hc.
  induction contents as [|x rest IH]; intros Hne; [now elim Hne|].
  destruct rest as [|y rest].
  - apply answer_single; [apply Hf|apply Hc].
  - destruct IH as (_ & IHf & IHfr); [discriminate|].
    change (sendParts send (x :: y :: rest))
      with (send x false :: sendParts send (y :: rest)).
    split; [discriminate|split].
    + intros r [<-|Hr]; [apply Hf|now apply IHf].
    + intros body last E.
      destruct body as [|b body].
      * destruct rest; discriminate E.
      * injection E as Eb E. subst b.
        destruct (IHfr body last E) as [Hl Hb].
        split; [exact Hl|].
        intros r [<-|Hr]; [apply Hc|now apply Hb].
Qed.

Lemma answer_sendList (send : string -> bool -> Reply) fuse contents :
  (forall x c, to_fuse (send x c) = fuse) ->
  (forall x c, reply_complete (send x c) = c) ->
  answer fuse (sendList send contents).
Proof.
  intros Hf Hc. destruct contents as [|x rest].
  - apply answer_single; [apply Hf|apply Hc].
  - apply (sendParts_answer send fuse Hf Hc). discriminate.
Qed.

(** One answer of the dispatcher, whatever its text. *)
Ltac one_answer :=
  first
    [ apply answer_ackOrCode
    | apply answer_sendList; intros; reflexivity
    | apply answer_single; reflexivity ].

(** Take the result of a branch apart. *)
Ltac branch H :=
  repeat match type of H with
  | Some _ = Some _ => inversion H; subst; clear H
  | None = Some _ => discriminate H
  | (match ?x with _ => _ end) = Some _ =>
      let E := fresh "E" in destruct x eqn:E; try discriminate H
  end.

(** The same, for every computation among the hypotheses. *)
Ltac branches :=
  repeat match goal with
  | H : Some _ = Some _ |- _ => inversion H; subst; clear H
  | H : None = Some _ |- _ => discriminate H
  | H : (match ?x with _ => _ end) = Some _ |- _ =>
      let E := fresh "E" in destruct x eqn:E; try discriminate H
  end.

Ltac known_query :=
  unfold known_queries; simpl; tauto.

Section DispatcherFacts.

Variable rootDirectory : string.
Variable fuel : nat.
Variable unlink : string -> Z * Z.
Variable tagView : bool.
Variable truncateFile : Z -> string -> DB -> option (Z * DB).
Variable updateFile : string -> DB -> option DB.

(** What a branch of the dispatcher can return. *)
Lemma dispatchQuery_cases loops st query tokens c st' replies :
  dispatchQuery rootDirectory fuel unlink tagView truncateFile updateFile
    loops st query tokens = Some (c, st', replies) ->
  ((query = "QH_EXIT" \/ query = "FD_EXIT") /\
   c = false /\ st' = st /\ replies = []) \/
  (~ In query known_queries /\ c = true /\ st' = st /\ replies = []) \/
  (In query known_queries /\ query <> "QH_EXIT" /\ query <> "FD_EXIT" /\
   c = true /\ answer (prefix "FD_" query) replies).
Proof.
  intros H. cbv delta [TFSManager.dispatchQuery] beta in H.
  repeat match type of H with
  | context [String.eqb query ?s] =>
      destruct (String.eqb_spec query s) as [->|?];
      [ cbn [String.eqb Ascii.eqb Bool.eqb orb] in H; branch H;
        first
          [ left; repeat split; auto; fail
          | right; right;
            split; [known_query|];
            split; [discriminate|]; split; [discriminate|];
            split; [reflexivity|]; one_answer ]
      | cbn [orb] in H ]
  end.
  injection H as <- <- <-.
  right; left. repeat split; auto.
  unfold known_queries. simpl. intuition congruence.
Qed.

(** The store of files after a branch of the dispatcher: untouched in tag
    view (the request that adds a file apart) and by the query handler. *)
Lemma dispatchQuery_files loops st query tokens c st' replies :
  dispatchQuery rootDirectory fuel unlink tagView truncateFile updateFile
    loops st query tokens = Some (c, st', replies) ->
  (tagView = true /\ query <> "FD_ADD_TEMP") \/ prefix "QH_" query = true ->
  files st' = files st.
Proof.
  intros H Hq. cbv delta [TFSManager.dispatchQuery] beta in H.
  repeat match type of H with
  | context [String.eqb query ?s] =>
      destruct (String.eqb_spec query s) as [->|?];
      [ cbn [String.eqb Ascii.eqb Bool.eqb orb] in H;
        destruct Hq as [[-> Hq]|Hq];
        [ try (now elim Hq) | try discriminate Hq ];
        cbn [negb] in H; branches;
        solve
          [ reflexivity
          | eauto using createTag_files, deleteTag_files,
              untagSingleFile_files, renameTaggedPath_files,
              tagFiles_files, untagFiles_files, nestTag_files,
              unnestTag_files ]
      | cbn [orb] in H ]
  end.
  now injection H as <- <- <-.
Qed.

Lemma at_0 (v : list string) : v <> [] -> at_ v 0 = Some (hd "" v).
Proof. destruct v; [intros C; now elim C|reflexivity]. Qed.

Lemma splitAtFirstOccurance_nonempty source character :
  splitAtFirstOccurance source character <> [].
Proof.
  unfold splitAtFirstOccurance.
  destruct (find_first_of source character); discriminate.
Qed.

(** [dispatch] is [dispatchQuery] on the first word. *)
Lemma dispatch_inv loops st m text c loops' st' replies :
  string_of_chars (content m) = Some text ->
  dispatch rootDirectory fuel unlink tagView truncateFile updateFile
    loops st m = Some (c, loops', st', replies) ->
  loops' = (loops + 1)%Z /\
  dispatchQuery rootDirectory fuel unlink tagView truncateFile updateFile
    (loops + 1) st (query_of text) (splitAtFirstOccurance text " ")
  = Some (c, st', replies).
Proof.
  intros Ht H. unfold dispatch in H.
  destruct (Z.eqb loops LONG_MAX); [discriminate|].
  rewrite Ht in H. cbn beta iota in H.
  rewrite (at_0 _ (splitAtFirstOccurance_nonempty text " ")) in H.
  fold (query_of text) in H.
  destruct (dispatchQuery _ _ _ _ _ _ _ _ _ _) as [[[c0 st0] r0]|];
    [|discriminate].
  now injection H as <- <- <- <-.
Qed.

(** X28 -- the answers of [dispatch].  Let the content of the message
    read as [text] and [dispatch] return.  Then the counter is one more
    than before; the result is [false] exactly when the first word of
    [text] is [QH_EXIT] or [FD_EXIT]; no message is sent exactly when the
    first word is one of these two or none of the known queries, and an
    unknown query leaves the store as it is; every message sent goes to
    the bridge when the first word begins with [FD_] and to the query
    handler when not; and the messages are framed: the last one is marked
    complete, the ones before it are not. *)
Theorem dispatch_answers (loops : Z) (st : DB) (m : Message) (text : string)
    (c : bool) (loops' : Z) (st' : DB) (replies : list Reply) :
  string_of_chars (content m) = Some text ->
  dispatch rootDirectory fuel unlink tagView truncateFile updateFile
    loops st m = Some (c, loops', st', replies) ->
  loops' = (loops + 1)%Z /\
  (c = false <-> query_of text = "QH_EXIT" \/ query_of text = "FD_EXIT") /\
  (replies = [] <->
   query_of text = "QH_EXIT" \/ query_of text = "FD_EXIT" \/
   ~ In (query_of text) known_queries) /\
  (~ In (query_of text) known_queries -> st' = st) /\
  (forall r, In r replies -> to_fuse r = prefix "FD_" (query_of text)) /\
  framed replies.
Proof.
  intros Ht H.
  destruct (dispatch_inv _ _ _ _ _ _ _ _ Ht H) as [-> Hq].
  split; [reflexivity|].
  destruct (dispatchQuery_cases _ _ _ _ _ _ _ Hq)
    as [(He & -> & -> & ->)|[(Hn & -> & -> & ->)|(Hk & H1 & H2 & -> & Ha)]].
  - split; [tauto|]. split; [tauto|]. split; [reflexivity|].
    split; [intros r []|]. intros [|] ? E; discriminate E.
  - assert (query_of text <> "QH_EXIT" /\ query_of text <> "FD_EXIT")
      as [N1 N2].
    { split; intros E; apply Hn; rewrite E; known_query. }
    split; [split; [discriminate|tauto]|].
    split; [tauto|]. split; [reflexivity|].
    split; [intros r []|]. intros [|] ? E; discriminate E.
  - destruct Ha as (Hne & Hf & Hfr).
    split; [split; [discriminate|tauto]|].
    split; [split; [intros E; now elim Hne|tauto]|].
    split; [intros N; now elim N|].
    split; [exact Hf|exact Hfr].
Qed.

(** X29 -- [dispatch] in tag view, and the queries of the query handler,
    leave table [files] alone.  Let the content of the message read as
    [text] and [dispatch] return.  If the mount is in tag view and the
    first word of [text] is not [FD_ADD_TEMP], or if the first word begins
    with [QH_], then [files] is as before, whatever [truncateFile] and
    [updateFile] do. *)
Theorem dispatch_keeps_files (loops : Z) (st : DB) (m : Message)
    (text : string) (c : bool) (loops' : Z) (st' : DB)
    (replies : list Reply) :
  string_of_chars (content m) = Some text ->
  dispatch rootDirectory fuel unlink tagView truncateFile updateFile
    loops st m = Some (c, loops', st', replies) ->
  (tagView = true /\ query_of text <> "FD_ADD_TEMP")
  \/ prefix "QH_" (query_of text) = true ->
  files st' = files st.
Proof.
  intros Ht H Hq.
  destruct (dispatch_inv _ _ _ _ _ _ _ _ Ht H) as [_ Hd].
  exact (dispatchQuery_files _ _ _ _ _ _ _ Hd Hq).
Qed.

End DispatcherFacts.

(** ** The answer as the client reads it *)

Lemma framed_cons r r2 rest :
  framed (r :: r2 :: rest) ->
  reply_complete r = false /\ framed (r2 :: rest).
Proof.
  intros H.
  destruct (exists_last (l := r2 :: rest)) as (body & last & E);
    [discriminate|].
  split.
  - destruct (H (r :: body) last) as [_ Hb]; [now rewrite E|].
    apply Hb. now left.
  - intros body' last' E'.
    destruct (H (r :: body') last') as [Hl Hb]; [now rewrite E'|].
    split; [exact Hl|]. intros x Hx. apply Hb. now right.
Qed.

Lemma framed_last r : framed [r] -> reply_complete r = true.
Proof. intros H. now destruct (H [] r eq_refl). Qed.

Lemma receive_message text data complete_ :
  occurs Ascii.zero text = false ->
  String.length text < CONTENT_SIZE ->
  exists m,
    deserializeMessage (serializeMessage text data complete_) = Some m /\
    complete m = complete_ /\
    string_of_chars (content m) = Some text.
Proof.
  intros Hz Hl. rewrite deserialize_serialize_message.
  eexists. split; [reflexivity|]. split; [reflexivity|].
  cbn [content]. now apply string_of_chars_short.
Qed.

Lemma sendReplies_ToFUSE buffer t c rest :
  sendReplies buffer (ToFUSE t c :: rest)
  = (serializeMessage t buffer c
       :: fst (sendReplies (serializeMessage t buffer c) rest),
     snd (sendReplies (serializeMessage t buffer c) rest)).
Proof.
  cbn [sendReplies].
  now destruct (sendReplies (serializeMessage t buffer c) rest).
Qed.

Lemma sendReplies_ToQuery buffer t c rest :
  sendReplies buffer (ToQuery t c :: rest)
  = (fst (sendReplies (serializeMessage t buffer c) rest),
     serializeMessage t buffer c
       :: snd (sendReplies (serializeMessage t buffer c) rest)).
Proof.
  cbn [sendReplies].
  now destruct (sendReplies (serializeMessage t buffer c) rest).
Qed.

Lemma receiveResponse_cons text data complete_ rxMQ results :
  occurs Ascii.zero text = false ->
  String.length text < CONTENT_SIZE ->
  receiveResponse (serializeMessage text data complete_ :: rxMQ) results
  = if negb complete_ then receiveResponse rxMQ (results ++ [text])
    else Some (results ++ [text], rxMQ).
Proof.
  intros Hz Hl. cbn [receiveResponse].
  destruct (receive_message text data complete_ Hz Hl) as (m & -> & Hm & ->).
  cbn beta iota. now rewrite Hm.
Qed.

(** The queue of the side that is answered, and the other one. *)
Lemma receiveResponse_answer fuse : forall replies,
  answer fuse replies ->
  (forall r, In r replies ->
     occurs Ascii.zero (reply_text r) = false /\
     String.length (reply_text r) < CONTENT_SIZE) ->
  forall buffer results,
    receiveResponse
      (if fuse then fst (sendReplies buffer replies)
       else snd (sendReplies buffer replies)) results
    = Some (results ++ map reply_text replies, []) /\
    (if fuse then snd (sendReplies buffer replies)
     else fst (sendReplies buffer replies)) = [].
Proof.
  induction replies as [|r rest IH]; intros (Hne & Hf & Hfr) Ht buffer results;
    [now elim Hne|].
  assert (Hr : to_fuse r = fuse) by (apply Hf; now left).
  destruct (Ht r (or_introl eq_refl)) as [Hz Hl].
  destruct rest as [|r2 rest].
  - pose proof (framed_last r Hfr) as Hc.
    destruct r as [t cpl|t cpl]; cbn in Hr, Hc, Hz, Hl; subst fuse cpl;
      [rewrite sendReplies_ToFUSE|rewrite sendReplies_ToQuery];
      cbn [sendReplies fst snd map reply_text];
      rewrite (receiveResponse_cons t buffer true [] results Hz Hl);
      now split.
  - destruct (framed_cons r r2 rest Hfr) as [Hc Hfr'].
    assert (Ha : answer fuse (r2 :: rest)).
    { split; [discriminate|split; [|exact Hfr']].
      intros x Hx. apply Hf. now right. }
    assert (Ht' : forall x, In x (r2 :: rest) ->
              occurs Ascii.zero (reply_text x) = false /\
              String.length (reply_text x) < CONTENT_SIZE).
    { intros x Hx. apply Ht. now right. }
    specialize (IH Ha Ht').
    destruct r as [t cpl|t cpl]; cbn in Hr, Hc, Hz, Hl; subst fuse cpl;
      [rewrite sendReplies_ToFUSE|rewrite sendReplies_ToQuery];
      cbn [fst snd];
      rewrite (receiveResponse_cons t buffer false _ results Hz Hl);
      cbn [negb];
      destruct (IH (serializeMessage t buffer false) (results ++ [t]))
        as [IH1 IH2];
      (split; [|exact IH2]);
      rewrite IH1; cbn [map reply_text]; now rewrite <- app_assoc.
Qed.

Section RoundTrip.

Variable rootDirectory : string.
Variable fuel : nat.
Variable unlink : string -> Z * Z.
Variable tagView : bool.
Variable truncateFile : Z -> string -> DB -> option (Z * DB).
Variable updateFile : string -> DB -> option DB.

(** X30 -- the client reads the whole answer.  Let [query] hold no NUL
    and be shorter than [CONTENT_SIZE], its first word be a known query
    other than [QH_EXIT] and [FD_EXIT], [m] be the message read from the
    buffer that [queryTFS] sent, and [dispatch] return on [m] with
    messages whose texts hold no NUL and are shorter than [CONTENT_SIZE].
    Then at least one message was sent; when the first word begins with
    [FD_], the loop of [queryTFS] on the queue of the bridge returns the
    texts of all messages in order and leaves the queue empty, the queue of
    the query handler getting nothing; and the same with the two queues
    exchanged when it does not. *)
Theorem queryTFS_receives_answer (query clientBuffer daemonBuffer : string)
    (loops : Z) (st : DB) (m : Message)
    (c : bool) (loops' : Z) (st' : DB) (replies : list Reply) :
  occurs Ascii.zero query = false ->
  String.length query < CONTENT_SIZE ->
  In (query_of query) known_queries ->
  query_of query <> "QH_EXIT" -> query_of query <> "FD_EXIT" ->
  deserializeMessage (serializeMessage query clientBuffer true) = Some m ->
  dispatch rootDirectory fuel unlink tagView truncateFile updateFile
    loops st m = Some (c, loops', st', replies) ->
  (forall r, In r replies ->
     occurs Ascii.zero (reply_text r) = false /\
     String.length (reply_text r) < CONTENT_SIZE) ->
  replies <> [] /\
  (prefix "FD_" (query_of query) = true ->
   receiveResponse (fst (sendReplies daemonBuffer replies)) []
   = Some (map reply_text replies, []) /\
   snd (sendReplies daemonBuffer replies) = []) /\
  (prefix "FD_" (query_of query) = false ->
   receiveResponse (snd (sendReplies daemonBuffer replies)) []
   = Some (map reply_text replies, []) /\
   fst (sendReplies daemonBuffer replies) = []).
Proof.
  intros Hz Hl Hk N1 N2 Hm H Ht.
  destruct (receive_message query clientBuffer true Hz Hl)
    as (m' & Em & _ & Hc).
  rewrite Hm in Em. injection Em as <-.
  destruct (dispatch_inv _ _ _ _ _ _ _ _ _ _ _ _ _ _ Hc H) as [_ Hq].
  destruct (dispatchQuery_cases _ _ _ _ _ _ _ _ _ _ _ _ _ Hq)
    as [([E|E] & _)|[(Hn & _)|(_ & _ & _ & _ & Ha)]];
    [now elim N1|now elim N2|now elim Hn|].
  split; [exact (proj1 Ha)|].
  pose proof (receiveResponse_answer _ replies Ha Ht daemonBuffer []) as R.
  split; intros E; rewrite E in R; exact R.
Qed.

End RoundTrip.

Lemma splitPathIntoParts_components_witness :
  splitPathIntoParts ("/" +s+ joinComponents ["docs"; ""; "a.txt"; ""])
  = filter nonempty ["docs"; ""; "a.txt"; ""] /\
  (Forall (fun x => x <> "") ["docs"; ""; "a.txt"; ""] ->
   splitPathIntoParts ("/" +s+ joinComponents ["docs"; ""; "a.txt"; ""])
   = ["docs"; ""; "a.txt"; ""] /\
   splitPathIntoParts
     ("/" +s+ joinComponents ["docs"; ""; "a.txt"; ""] +s+ "/")
   = ["docs"; ""; "a.txt"; ""]).
Proof.
  apply (splitPathIntoParts_components ["docs"; ""; "a.txt"; ""]).
  repeat constructor.
Defined.

Lemma path_parent_and_leaf_witness :
  popBackAndRemove (splitPathIntoParts ("/docs/2024" +s+ "/" +s+ "a.txt"))
  = ("a.txt", splitPathIntoParts "/docs/2024")
  /\ getFilename ("/docs/2024" +s+ "/" +s+ "a.txt") = "a.txt".
Proof.
  apply (path_parent_and_leaf "/docs/2024" "a.txt");
    [reflexivity|discriminate|reflexivity].
Defined.

Lemma createFolder_spec_witness :
  exists parentFolderID,
    getFolderID folder_db
      (snd (popBackAndRemove (splitPathIntoParts "/docs/a.txt")))
    = Some parentFolderID /\
    (parentFolderID = "" ->
     createFolder folder_db "/docs/a.txt" = Some (ENOENT, folder_db)) /\
    (parentFolderID <> "" ->
     exists pid r st',
       parentFolderID = to_text pid /\
       createFolder folder_db "/docs/a.txt" = Some (r, st') /\
       let name := fst (popBackAndRemove (splitPathIntoParts "/docs/a.txt")) in
       (r = EEXIST <->
        files_named folder_db name pid <> [] \/
        folders_named folder_db name pid <> []) /\
       (r = EEXIST -> st' = folder_db) /\
       (r <> EEXIST ->
        r = 0%Z /\
        tags st' = tags folder_db ++
                   [mkTag (next_rowid (map tag_id (tags folder_db))) name pid
                          None None None] /\
        files st' = files folder_db)).
Proof.
  apply (createFolder_spec folder_db "/docs/a.txt"). reflexivity.
Defined.

Lemma createFolder_then_deleteFolder_witness :
  getFolderID subfolder_db (splitPathIntoParts "/docs/sub")
  = Some (to_text (next_rowid (map tag_id (tags folder_db)))) /\
  createFolder subfolder_db "/docs/sub" = Some (EEXIST, subfolder_db) /\
  deleteFolder subfolder_db "/docs/sub" = Some (0%Z, folder_db).
Proof.
  apply (createFolder_then_deleteFolder folder_db "/docs/sub" subfolder_db);
    try reflexivity.
  discriminate.
Defined.

Lemma createFolder_listed_witness :
  exists contents,
    listFolder subfolder_db "/docs" = Some contents /\ In "sub" contents.
Proof.
  apply (createFolder_listed folder_db "/docs" "sub" subfolder_db);
    try reflexivity.
  discriminate.
Defined.

Lemma addTemporaryFile_spec_witness :
  exists parentFolderID,
    getFolderID folder_db
      (snd (popBackAndRemove (splitPathIntoParts "/docs/b.txt")))
    = Some parentFolderID /\
    (parentFolderID = "" ->
     addTemporaryFile folder_db ("TEMP000000002" +s+ "," +s+ "/docs/b.txt")
     = None) /\
    (parentFolderID <> "" ->
     exists pid st',
       let name := fst (popBackAndRemove (splitPathIntoParts "/docs/b.txt")) in
       parentFolderID = to_text pid /\
       addTemporaryFile folder_db ("TEMP000000002" +s+ "," +s+ "/docs/b.txt")
       = Some st' /\
       tags st' = tags folder_db /\
       files st' = files folder_db ++
                   [mkFile (next_rowid (map file_id (files folder_db))) name
                           "TEMP000000002" pid] /\
       (files_named folder_db name pid = [] ->
        getFileID st' name parentFolderID
        = Some (to_text (next_rowid (map file_id (files folder_db)))) /\
        getFilePath example_root st' "/docs/b.txt"
        = Some (example_root +s+ "/" +s+ "TEMP000000002"))).
Proof.
  apply (addTemporaryFile_spec example_root folder_db "TEMP000000002"
           "/docs/b.txt"); reflexivity.
Defined.

Lemma renamePath_refusals_witness :
  exists oldParent newParent,
    let oldName := fst (popBackAndRemove (splitPathIntoParts "/docs/a.txt")) in
    let newName := fst (popBackAndRemove (splitPathIntoParts "/empty")) in
    getFolderID folder_db
      (snd (popBackAndRemove (splitPathIntoParts "/docs/a.txt")))
    = Some oldParent /\
    getFolderID folder_db
      (snd (popBackAndRemove (splitPathIntoParts "/empty")))
    = Some newParent /\
    (oldParent = "" ->
     renamePath example_root example_fuel unlink_ok folder_db
       "/docs/a.txt" "/empty" = Some (1%Z, folder_db)) /\
    (oldParent <> "" ->
     getFolderID2 folder_db oldName oldParent = Some "" ->
     getFileID folder_db oldName oldParent = Some "" ->
     renamePath example_root example_fuel unlink_ok folder_db
       "/docs/a.txt" "/empty" = Some (1%Z, folder_db)) /\
    (newParent <> "" ->
     forall newFolderID,
       getFolderID2 folder_db newName newParent = Some newFolderID ->
       newFolderID <> "" ->
       renamePath example_root example_fuel unlink_ok folder_db
         "/docs/a.txt" "/empty" = Some (1%Z, folder_db)).
Proof.
  apply (renamePath_refusals example_root example_fuel unlink_ok folder_db
           "/docs/a.txt" "/empty"). reflexivity.
Defined.

Lemma unnestTag_spec_witness :
  exists r st',
    unnestTag flat_nested_db "3" "2" = Some (r, st') /\
    (r = ENOENT \/ r = 0%Z) /\
    (r = ENOENT -> st' = flat_nested_db) /\
    ("3" = "" \/ "2" = "" -> r = ENOENT) /\
    ("3" <> "" /\ "2" <> "" ->
     exists cs ps,
       getChildTagIDs flat_nested_db "2" = Some cs /\
       getParentTagIDs flat_nested_db "3" = Some ps /\
       (r = 0%Z <-> In "3" cs /\ In "2" ps) /\
       (r = 0%Z ->
        getChildTagIDs st' "2" = Some (vec_erase "3" cs) /\
        getParentTagIDs st' "3" = Some (vec_erase "2" ps) /\
        files st' = files flat_nested_db)).
Proof.
  apply (unnestTag_spec flat_nested_db "3" "2"); right; reflexivity.
Defined.

Lemma nestTag_then_unnestTag_witness :
  exists st2,
    unnestTag flat_nested_db "3" "2" = Some (0%Z, st2) /\
    getChildTagIDs st2 "2" = getChildTagIDs flat_db "2" /\
    getParentTagIDs st2 "3" = getParentTagIDs flat_db "3" /\
    files st2 = files flat_db.
Proof.
  apply (nestTag_then_unnestTag example_fuel flat_db flat_nested_db "3" "2");
    reflexivity.
Defined.

Lemma tagSingleFile_spec_witness :
  exists l names r st',
    getFileIDsUnderTagID tagview_db "3" = Some l /\
    filenamesOfIDs tagview_db l = Some names /\
    tagSingleFile tagview_db "1" "3" = Some (r, st') /\
    (In "x" names -> r = EEXIST /\ st' = tagview_db) /\
    (~ In "x" names ->
     r = 0%Z /\
     getFileIDsUnderTagID st' "3" = Some (l ++ ["1"]) /\
     files st' = files tagview_db) /\
    names_unique st' "3".
Proof.
  apply (tagSingleFile_spec tagview_db "1" "3" "x");
    [reflexivity|reflexivity|reflexivity|].
  exists [], []. split; [reflexivity|]. split; [reflexivity|]. constructor.
Defined.

Lemma tagSingleFile_then_untagSingleFile_witness :
  exists st2,
    untagSingleFile tagview_both_db "1" "3" = Some (0%Z, st2) /\
    getFileIDsUnderTagID st2 "3" = getFileIDsUnderTagID tagview_db "3" /\
    files st2 = files tagview_db.
Proof.
  apply (tagSingleFile_then_untagSingleFile tagview_db tagview_both_db
           "1" "3"); reflexivity.
Defined.

Lemma createTag_plain_witness :
  exists st' cs,
    let tagID := to_text (next_rowid (map tag_id (tags single_db))) in
    createTag (S 7) single_db "B" = Some (0%Z, st') /\
    getTagID (S 7) st' "B" = Some tagID /\
    getChildTagIDs single_db "0" = Some cs /\
    getChildTagIDs st' "0" = Some (cs ++ [tagID]) /\
    getParentTagIDs st' tagID = Some ["0"] /\
    getChildTagIDs st' tagID = Some [] /\
    getFileIDsUnderTagID st' tagID = Some [] /\
    files st' = files single_db /\
    createTag (S 7) st' "B" = Some (EEXIST, st').
Proof.
  apply (createTag_plain 7 single_db "B");
    [discriminate|reflexivity|reflexivity|reflexivity|reflexivity].
Defined.

Lemma deleteTag_spec_witness :
  exists r st',
    deleteTag example_fuel chain_db "C" = Some (r, st') /\
    ("4" = "" -> r = ENOENT /\ st' = chain_db) /\
    ("4" <> "" ->
     exists k fs cs ps,
       stoi "4" = Some k /\
       getFileIDsUnderTagID chain_db "4" = Some fs /\
       getChildTagIDs chain_db "4" = Some cs /\
       getParentTagIDs chain_db "4" = Some ps /\
       (fs <> [] \/ cs <> [] -> r = ENOTEMPTY /\ st' = chain_db) /\
       (fs = [] /\ cs = [] ->
        r = 0%Z /\ tag_row st' k = None /\ files st' = files chain_db /\
        forall p cp, In p ps -> getChildTagIDs chain_db p = Some cp ->
                     getChildTagIDs st' p = Some (vec_erase "4" cp))).
Proof.
  apply (deleteTag_spec example_fuel chain_db "C" "4").
  - reflexivity.
  - right. reflexivity.
  - intros ps H. injection H as <-. split.
    + repeat constructor. intros [].
    + intros p [<-|[]]. split; [reflexivity|].
      exists ["4"]. split; [reflexivity|now left].
Defined.

Lemma deleteTag_unlisted_witness :
  deleteTag example_fuel orphan_db "b" = None.
Proof.
  apply (deleteTag_unlisted example_fuel orphan_db "b" "4" "2" [] ["3"]);
    try reflexivity.
  - discriminate.
  - intros [C|[]]. discriminate.
Defined.

Lemma findFileIDsWithAnyOfTags_spec_witness :
  exists r,
    findFileIDsWithAnyOfTags example_fuel two_tags_db ["R"; "G"] = Some r /\
    (["R"; "G"] = [] -> r = []) /\
    ((exists tag, In tag ["R"; "G"] /\
                  getTagID example_fuel two_tags_db tag = Some "") ->
     r = []) /\
    ((forall tag, In tag ["R"; "G"] ->
        getTagID example_fuel two_tags_db tag <> Some "") ->
     StronglySorted str_lt r /\ NoDup r /\
     forall x, In x r <->
       exists tag id fs,
         In tag ["R"; "G"] /\
         tagged_files example_fuel two_tags_db tag id fs /\ In x fs).
Proof.
  apply (findFileIDsWithAnyOfTags_spec example_fuel two_tags_db ["R"; "G"]).
  intros tag [<-|[<-|[]]]; right.
  - exists "2", ["1"; "2"].
    split; [reflexivity|split; [discriminate|reflexivity]].
  - exists "3", ["2"; "3"].
    split; [reflexivity|split; [discriminate|reflexivity]].
Defined.

Lemma findFileIDsWithAnyOfTags_order_witness :
  findFileIDsWithAnyOfTags example_fuel two_tags_db ["R"; "G"]
  = findFileIDsWithAnyOfTags example_fuel two_tags_db ["G"; "R"]
  /\ findFileIDsWithAnyOfTags example_fuel two_tags_db ["R"; "G"] <> None.
Proof.
  apply (findFileIDsWithAnyOfTags_order example_fuel two_tags_db
           ["R"; "G"] ["G"; "R"]).
  - apply perm_swap.
  - intros tag [<-|[<-|[]]]; right.
    + exists "2", ["1"; "2"].
      split; [reflexivity|split; [discriminate|reflexivity]].
    + exists "3", ["2"; "3"].
      split; [reflexivity|split; [discriminate|reflexivity]].
Defined.

Lemma findFileIDsWithTags_spec_witness :
  exists r,
    findFileIDsWithTags example_fuel two_tags_db ("R" :: ["G"]) = Some r /\
    ((exists tag, In tag ("R" :: ["G"]) /\
                  getTagID example_fuel two_tags_db tag = Some "") ->
     r = []) /\
    ((forall tag, In tag ("R" :: ["G"]) ->
        getTagID example_fuel two_tags_db tag <> Some "") ->
     forall id0 fs0, tagged_files example_fuel two_tags_db "R" id0 fs0 ->
       (["G"] = [] -> r = fs0) /\
       (forall tag1 rest' id1 fs1,
          ["G"] = tag1 :: rest' ->
          tagged_files example_fuel two_tags_db tag1 id1 fs1 ->
          (rest' = [] -> r = set_intersection (sort fs0) (sort fs1)) /\
          forall x, In x r <-> In x fs0 /\ In x fs1)).
Proof.
  apply (findFileIDsWithTags_spec example_fuel two_tags_db "R" ["G"]).
  intros tag [<-|[<-|[]]]; right.
  - exists "2", ["1"; "2"].
    split; [reflexivity|split; [discriminate|reflexivity]].
  - exists "3", ["2"; "3"].
    split; [reflexivity|split; [discriminate|reflexivity]].
Defined.

Lemma getFileTags_spec_witness :
  exists l,
    getFileTags two_tags_db "2" = Some l /\
    (getFilenameFromID two_tags_db "2" = Some "" -> l = []) /\
    (getFilenameFromID two_tags_db "2" <> Some "" ->
     forall n,
       In n l <->
       exists r text,
         In r (tags two_tags_db) /\ is_tag r = true /\ tag_name r = n /\
         files_ids r = Some text /\
         In "2" (deserializeStrings text ";")).
Proof.
  apply (getFileTags_spec two_tags_db "2" 2%Z).
  - reflexivity.
  - intros r [<-|[<-|[<-|[<-|[]]]]] _; discriminate.
Defined.

Lemma getTaggedFilePath_agrees_witness :
  ("1" = "" ->
   getTaggedFilePath example_root example_fuel tagview_db "/R/x" = Some "") /\
  ("1" <> "" ->
   exists fid hash_,
     stoi "1" = Some fid /\
     GET_TAGGED_FILE_PATH tagview_db fid = Some hash_ /\
     getFilenameFromID tagview_db "1" = Some (getFilename "/R/x") /\
     getTaggedFilePath example_root example_fuel tagview_db "/R/x"
     = Some (example_root +s+ "/" +s+ hash_)).
Proof.
  apply (getTaggedFilePath_agrees example_root example_fuel tagview_db
           "/R/x" "2" "1"); reflexivity.
Defined.

Lemma tag_requests_keep_files_witness :
  files tagview_both_db = files tagview_db.
Proof.
  apply (tag_requests_keep_files example_root example_fuel unlink_ok
           tagview_db (OpTagFiles "/x" "G") 0%Z tagview_both_db);
    reflexivity.
Defined.

Lemma deleteFile_success_witness :
  exists st',
    deleteFile example_root unlink_ok rename_db "/b" (Some ["9"])
    = Some (0%Z, st',
            option_map (fun _ => listing rename_db "2" (tag_ids rename_db))
                       (Some ["9"])) /\
    files st'
    = filter (fun r => negb (Z.eqb (file_id r) 2)) (files rename_db) /\
    forall t l,
      In t (tag_ids rename_db) ->
      getFileIDsUnderTagID rename_db t = Some l ->
      getFileIDsUnderTagID st' t = Some (vec_erase "2" l) /\
      (NoDup l -> ~ In "2" (vec_erase "2" l)).
Proof.
  apply (deleteFile_success example_root unlink_ok rename_db "/b"
           (Some ["9"]) "1" "TEMP000000002" "2" 2%Z).
  - reflexivity.
  - repeat (constructor; [simpl; intuition discriminate|]). constructor.
  - intros t [<-|[]]. reflexivity.
  - reflexivity.
  - discriminate.
  - reflexivity.
  - discriminate.
  - reflexivity.
  - reflexivity.
  - right. reflexivity.
Defined.

Lemma dispatch_answers_witness :
  1%Z = (0 + 1)%Z /\
  (true = false <->
   query_of "FD_READ_DIR /" = "QH_EXIT" \/
   query_of "FD_READ_DIR /" = "FD_EXIT") /\
  ([ToFUSE "docs" false; ToFUSE "empty" true] = [] <->
   query_of "FD_READ_DIR /" = "QH_EXIT" \/
   query_of "FD_READ_DIR /" = "FD_EXIT" \/
   ~ In (query_of "FD_READ_DIR /") known_queries) /\
  (~ In (query_of "FD_READ_DIR /") known_queries -> folder_db = folder_db) /\
  (forall r, In r [ToFUSE "docs" false; ToFUSE "empty" true] ->
     to_fuse r = prefix "FD_" (query_of "FD_READ_DIR /")) /\
  framed [ToFUSE "docs" false; ToFUSE "empty" true].
Proof.
  apply (dispatch_answers example_root example_fuel unlink_ok false
           truncate_ok update_ok 0%Z folder_db (received "FD_READ_DIR /")
           "FD_READ_DIR /" true 1%Z folder_db
           [ToFUSE "docs" false; ToFUSE "empty" true]).
  - vm_compute. reflexivity.
  - vm_compute. reflexivity.
Defined.

Lemma dispatch_keeps_files_witness :
  files untagged_db = files tagview_db.
Proof.
  apply (dispatch_keeps_files example_root example_fuel unlink_ok true
           truncate_ok update_ok 0%Z tagview_db (received "FD_UNLINK /R/x")
           "FD_UNLINK /R/x" true 1%Z untagged_db [ToFUSE "TM_ACK" true]).
  - vm_compute. reflexivity.
  - vm_compute. reflexivity.
  - left. split; [reflexivity|discriminate].
Defined.

Lemma queryTFS_receives_answer_witness :
  [ToQuery "x" false; ToQuery "y" false; ToQuery "z" true] <> [] /\
  (prefix "FD_" (query_of "QH_SEARCH 0,R;G;") = true ->
   receiveResponse
     (fst (sendReplies zeroed_buffer
             [ToQuery "x" false; ToQuery "y" false; ToQuery "z" true])) []
   = Some (map reply_text
             [ToQuery "x" false; ToQuery "y" false; ToQuery "z" true], []) /\
   snd (sendReplies zeroed_buffer
          [ToQuery "x" false; ToQuery "y" false; ToQuery "z" true]) = []) /\
  (prefix "FD_" (query_of "QH_SEARCH 0,R;G;") = false ->
   receiveResponse
     (snd (sendReplies zeroed_buffer
             [ToQuery "x" false; ToQuery "y" false; ToQuery "z" true])) []
   = Some (map reply_text
             [ToQuery "x" false; ToQuery "y" false; ToQuery "z" true], []) /\
   fst (sendReplies zeroed_buffer
          [ToQuery "x" false; ToQuery "y" false; ToQuery "z" true]) = []).
Proof.
  apply (queryTFS_receives_answer example_root example_fuel unlink_ok false
           truncate_ok update_ok "QH_SEARCH 0,R;G;" zeroed_buffer
           zeroed_buffer 41%Z two_tags_db (received "QH_SEARCH 0,R;G;")
           true 42%Z two_tags_db).
  - reflexivity.
  - apply Nat.ltb_lt. vm_compute. reflexivity.
  - change (In "QH_SEARCH" known_queries). unfold known_queries.
    simpl. tauto.
  - discriminate.
  - discriminate.
  - vm_compute. reflexivity.
  - vm_compute. reflexivity.
  - intros r [<-|[<-|[<-|[]]]]; (split; [reflexivity|]);
      apply Nat.ltb_lt; vm_compute; reflexivity.
Defined.

